(** * nanobanana-mcp: the dual-provider image-generation adapter

    A shallow embedding of the TypeScript sources
    ([src/utils/aspect-ratio.ts], [src/providers/gemini-provider.ts],
    [src/providers/openrouter-provider.ts], [src/index.ts], [src/utils.ts])
    and the properties of the adapter checked against it.

    Conventions of the embedding.
    - A JavaScript string is a [string]; each [ascii] stands for one UTF-16
      code unit below 256.
    - A JavaScript number is a binary64 value, [spec_float] with the
      operations of [SpecFloat] at precision 53.
    - [undefined] is [None] of an [option]; [null] is named where it occurs.
    - Code that awaits, throws, logs or talks to the network runs in the
      monad [M] of module [Eff]: a trace of observable events plus an
      exception or a value. *)

From Stdlib Require Import ZArith List String Ascii Bool Lia SpecFloat DecimalString.
Import ListNotations.
Local Open Scope string_scope.
Local Open Scope Z_scope.

(* ===================================================================== *)
(** * The fragment of JavaScript the sources rely on                      *)
(* ===================================================================== *)

Module JS.

(** ** Numbers *)

Definition number := spec_float.

Definition prec : Z := 53.
Definition emax : Z := 1024.

Definition NaN : number := S754_nan.
Definition of_Z (z : Z) : number := binary_normalize prec emax z 0 false.

Definition div (x y : number) : number := SFdiv prec emax x y.
Definition mul (x y : number) : number := SFmul prec emax x y.
Definition sub (x y : number) : number := SFsub prec emax x y.
Definition abs (x : number) : number := SFabs x.
Definition lt (x y : number) : bool := SFltb x y.
Definition gt (x y : number) : bool := SFltb y x.
Definition ge (x y : number) : bool := SFleb y x.

(** Literals of the sources that are not integers, as the binary64 values
    the literal denotes. *)
Definition lit_0_1 : number := S754_finite false 7205759403792794 (-56).
Definition lit_0_7 : number := S754_finite false 6305039478318694 (-53).
Definition lit_1_4 : number := S754_finite false 6305039478318694 (-52).
Definition lit_1_5 : number := S754_finite false 6755399441055744 (-52).
Definition lit_1_7 : number := S754_finite false 7656119366529843 (-52).

(** The integer a finite number denotes, when it denotes one. *)
Definition to_Z (x : number) : option Z :=
  match x with
  | S754_zero _ => Some 0
  | S754_finite s m e =>
      let mag :=
        if 0 <=? e then Some (Z.pos m * 2 ^ e)
        else if (Z.pos m mod 2 ^ (- e)) =? 0 then Some (Z.pos m / 2 ^ (- e))
        else None in
      option_map (fun v => if s then - v else v) mag
  | _ => None
  end.

(** [Math.round]: the integer nearest to [x], ties towards +infinity;
    [NaN], the infinities and the zeros are returned unchanged. *)
Definition Math_round (x : number) : number :=
  match x with
  | S754_finite s m e =>
      if 0 <=? e then x
      else
        let num := if s then Z.neg m else Z.pos m in
        let r := (2 * num + 2 ^ (- e)) / 2 ^ (1 - e) in
        if r =? 0 then S754_zero s else of_Z r
  | _ => x
  end.

(** Truthiness of a number: everything but the zeros and [NaN]. *)
Definition truthy_number (x : number) : bool :=
  match x with
  | S754_zero _ | S754_nan => false
  | _ => true
  end.

(** ** Strings *)

Definition code (c : ascii) : Z := Z.of_nat (nat_of_ascii c).

Definition truthy_string (s : string) : bool :=
  match s with EmptyString => false | _ => true end.

(** [a || b] on strings that may be [undefined]. *)
Definition or_else (a : option string) (b : string) : string :=
  match a with
  | Some s => if truthy_string s then s else b
  | None => b
  end.

(** [!!s] for an optional string. *)
Definition truthy_opt (a : option string) : bool :=
  match a with
  | Some s => truthy_string s
  | None => false
  end.

Definition is_digit (c : ascii) : bool := (48 <=? code c) && (code c <=? 57).

(** White space and line terminators below 256: TAB, LF, VT, FF, CR, SP
    and NBSP. *)
Definition is_space (c : ascii) : bool :=
  let n := code c in
  ((9 <=? n) && (n <=? 13)) || (n =? 32) || (n =? 160).

(** What [.] does not match in a regular expression without the [s] flag. *)
Definition is_line_terminator (c : ascii) : bool :=
  let n := code c in (n =? 10) || (n =? 13).

Definition lower_char (c : ascii) : ascii :=
  let n := code c in
  if ((65 <=? n) && (n <=? 90))
     || ((192 <=? n) && (n <=? 222) && negb (n =? 215))
  then ascii_of_nat (Z.to_nat (n + 32))
  else c.

Fixpoint toLowerCase (s : string) : string :=
  match s with
  | EmptyString => EmptyString
  | String c r => String (lower_char c) (toLowerCase r)
  end.

Fixpoint trimStart (s : string) : string :=
  match s with
  | String c r => if is_space c then trimStart r else s
  | EmptyString => EmptyString
  end.

Fixpoint rev_string (s : string) (acc : string) : string :=
  match s with
  | EmptyString => acc
  | String c r => rev_string r (String c acc)
  end.

Definition trimEnd (s : string) : string :=
  rev_string (trimStart (rev_string s "")) "".

Definition trim (s : string) : string := trimEnd (trimStart s).

Fixpoint all_chars (p : ascii -> bool) (s : string) : bool :=
  match s with
  | EmptyString => true
  | String c r => p c && all_chars p r
  end.

Fixpoint startsWith (s p : string) : bool :=
  match p, s with
  | EmptyString, _ => true
  | String a p', String b s' => Ascii.eqb a b && startsWith s' p'
  | String _ _, EmptyString => false
  end.

(** [s.indexOf(p)] from the start: the first position at which [p] occurs,
    or -1. *)
Fixpoint indexOf_from (s p : string) (i : Z) : Z :=
  if startsWith s p then i
  else match s with
       | EmptyString => -1
       | String _ r => indexOf_from r p (i + 1)
       end.

Definition indexOf (s p : string) : Z := indexOf_from s p 0.

Definition includes (s p : string) : bool := 0 <=? indexOf s p.

Definition strlen (s : string) : Z := Z.of_nat (String.length s).

Definition clamp (lo hi x : Z) : Z := Z.max lo (Z.min hi x).

(** [s.substring(a, b)]: both ends are clamped to the string and swapped
    when [a > b]. *)
Definition substring (s : string) (a b : Z) : string :=
  let a' := clamp 0 (strlen s) a in
  let b' := clamp 0 (strlen s) b in
  let lo := Z.min a' b' in
  let hi := Z.max a' b' in
  String.substring (Z.to_nat lo) (Z.to_nat (hi - lo)) s.

(** [s.slice(0, n)] for [n >= 0]. *)
Definition slice0 (s : string) (n : Z) : string :=
  String.substring 0 (Z.to_nat (Z.min n (strlen s))) s.

Fixpoint drop (n : nat) (s : string) : string :=
  match n, s with
  | O, _ => s
  | S n', String _ r => drop n' r
  | S _, EmptyString => EmptyString
  end.

(** Splitting at the first occurrence of a separator character. *)
Fixpoint split_first (sep : ascii) (s : string) : option (string * string) :=
  match s with
  | EmptyString => None
  | String c r =>
      if Ascii.eqb c sep then Some (EmptyString, r)
      else match split_first sep r with
           | Some (a, b) => Some (String c a, b)
           | None => None
           end
  end.

(** [s.split('/')[1]]: the text between the first and the second slash;
    [undefined] when there is no slash. *)
Definition split_slash_1 (s : string) : option string :=
  match split_first "/" s with
  | None => None
  | Some (_, rest) =>
      match split_first "/" rest with
      | None => Some rest
      | Some (mid, _) => Some mid
      end
  end.

(** ** Decimal digits *)

Definition digits_of_Z (z : Z) : string := NilZero.string_of_int (Z.to_int z).

Fixpoint Z_of_digits_acc (s : string) (acc : Z) : Z :=
  match s with
  | EmptyString => acc
  | String c r => Z_of_digits_acc r (10 * acc + (code c - 48))
  end.

(** [parseInt] on a non-empty string of decimal digits: the number nearest
    to the integer written. *)
Definition parseInt_digits (s : string) : number := of_Z (Z_of_digits_acc s 0).

(** The errors the engine raises by itself in the code at hand: reading a
    property of [undefined] or of [null], calling or iterating what is not
    callable or iterable, converting an object that has no primitive
    value. *)
Inductive type_error : Type :=
| ReadOfUndefined (what : string) (key : string)
| ReadOfNull (what : string) (key : string)
| NotAFunction (what : string)
| NotIterable (what : string)
| NoPrimitiveValue.

(** What the embedding takes from the engine as it is: the digits of a
    number that is not an integer below 10^21, the reading of a string as a
    number, and the text of the messages of its own errors. *)
Record Engine : Type := {
  Number_toString_other : number -> string;
  StringToNumber : string -> number;
  TypeError_message : type_error -> string
}.

(** [Number::toString] in radix 10. *)
Definition Number_toString (E : Engine) (x : number) : string :=
  match x with
  | S754_nan => "NaN"
  | S754_zero _ => "0"
  | S754_infinity s => if s then "-Infinity" else "Infinity"
  | S754_finite _ _ _ =>
      match to_Z x with
      | Some z => if Z.abs z <? 10 ^ 21 then digits_of_Z z
                  else Number_toString_other E x
      | None => Number_toString_other E x
      end
  end.

(** ** Objects written as literals

    A [Record<string, T>] written as an object literal has [Object.prototype]
    as its prototype: reading a key that is not one of its own properties
    finds the members every object inherits. *)

Definition Object_prototype_keys : list string :=
  [ "constructor"; "__defineGetter__"; "__defineSetter__"; "hasOwnProperty";
    "__lookupGetter__"; "__lookupSetter__"; "isPrototypeOf";
    "propertyIsEnumerable"; "toString"; "valueOf"; "__proto__";
    "toLocaleString" ].

Inductive property (T : Type) : Type :=
| Own (v : T)
| Inherited (key : string)
| Absent.
Arguments Own {T} v.
Arguments Inherited {T} key.
Arguments Absent {T}.

Fixpoint own_property {T} (obj : list (string * T)) (key : string) : option T :=
  match obj with
  | [] => None
  | (k, v) :: rest => if String.eqb k key then Some v else own_property rest key
  end.

Definition get {T} (obj : list (string * T)) (key : string) : property T :=
  match own_property obj key with
  | Some v => Own v
  | None =>
      if existsb (String.eqb key) Object_prototype_keys then Inherited key
      else Absent
  end.

(** The [name] property of an inherited member: the functions carry their
    own name ([Object] for [constructor]); [__proto__] reads as
    [Object.prototype], which has none. *)
Definition member_name (key : string) : option string :=
  if String.eqb key "__proto__" then None
  else if String.eqb key "constructor" then Some "Object"
  else Some key.

(** An inherited member converted to a string, as a template literal does. *)
Definition member_toString (key : string) : string :=
  match member_name key with
  | None => "[object Object]"
  | Some n => "function " ++ n ++ "() { [native code] }"
  end.

(** A property key made from a value that may be [undefined]. *)
Definition to_key (k : option string) : string :=
  match k with Some s => s | None => "undefined" end.

End JS.

(* ===================================================================== *)
(** * [src/utils/aspect-ratio.ts]                                         *)
(* ===================================================================== *)

Module AspectRatio.
Import JS.

Record AspectRatioConfig : Type := {
  width : number;
  height : number;
  name : string
}.

Definition config (w h : Z) (n : string) : AspectRatioConfig :=
  {| width := of_Z w; height := of_Z h; name := n |}.

Definition ASPECT_RATIOS : list (string * AspectRatioConfig) :=
  [ ("1:1", config 1024 1024 "square");
    ("square", config 1024 1024 "square");
    ("16:9", config 1024 576 "landscape");
    ("landscape", config 1024 576 "landscape");
    ("9:16", config 576 1024 "portrait");
    ("portrait", config 576 1024 "portrait");
    ("4:3", config 1024 768 "4:3");
    ("3:4", config 768 1024 "3:4");
    ("16:10", config 1024 640 "widescreen");
    ("widescreen", config 1024 640 "widescreen");
    ("21:9", config 1024 439 "ultrawide");
    ("ultrawide", config 1024 439 "ultrawide");
    ("2:1", config 1024 512 "panoramic");
    ("panoramic", config 1024 512 "panoramic") ].

(** What [parseAspectRatio] hands back when it does not hand back [null]:
    a descriptor, or the member of [Object.prototype] that the lookup
    [ASPECT_RATIOS[normalized]] found under the key. *)
Inductive AspectValue : Type :=
| Config (c : AspectRatioConfig)
| Member (key : string).

(** [ratio.match(/^(\d+):(\d+)$/)]: the two captured groups. *)
Definition match_ratio (ratio : string) : option (string * string) :=
  match split_first ":" ratio with
  | Some (a, b) =>
      if truthy_string a && all_chars is_digit a
         && truthy_string b && all_chars is_digit b
      then Some (a, b) else None
  | None => None
  end.

Definition parseAspectRatio (ratio : option string) : option AspectValue :=
  match ratio with
  | None => None
  | Some ratio =>
      if negb (truthy_string ratio) then None
      else
        let normalized := trim (toLowerCase ratio) in
        match get ASPECT_RATIOS normalized with
        | Own c => Some (Config c)
        | Inherited key => Some (Member key)
        | Absent =>
            match match_ratio ratio with
            | Some (m1, m2) =>
                let width := parseInt_digits m1 in
                let height := parseInt_digits m2 in
                let aspectRatio := div width height in
                if ge aspectRatio (of_Z 1) then
                  Some (Config {| width := of_Z 1024;
                                  height := Math_round (div (of_Z 1024) aspectRatio);
                                  name := ratio |})
                else
                  Some (Config {| width := Math_round (mul (of_Z 1024) aspectRatio);
                                  height := of_Z 1024;
                                  name := ratio |})
            | None => None
            end
        end
  end.

(** Reading [config.width], [config.height] and [config.name] off the value
    at hand; a member of [Object.prototype] has neither width nor height. *)
Definition width_of (v : AspectValue) : option number :=
  match v with Config c => Some (width c) | Member _ => None end.

Definition height_of (v : AspectValue) : option number :=
  match v with Config c => Some (height c) | Member _ => None end.

Definition name_of (v : AspectValue) : option string :=
  match v with Config c => Some (name c) | Member k => member_name k end.

(** A value that may be [undefined], used as a number. *)
Definition ToNumber (x : option number) : number :=
  match x with Some n => n | None => NaN end.

Definition name_is (v : AspectValue) (s : string) : bool :=
  match name_of v with Some n => String.eqb n s | None => false end.

Definition blankImages : list (string * string) :=
  [ ("square", "iVBORw0KGgoAAAANSUhEUgAAAGQAAABkCAIAAAD/gAIDAAAAaklEQVR42u3QMQEAAAjAoNm/tCU8HAAA4NMCriwAAysLzMAKAysLzMAKAysLzMAKAysLzMAKAysLzMAKAysLzMAKAysLzMAKAysLzMAKAysLzMAKAysLzMAKAysLzMAKAysL+FoBTL0F3UMHQMAAAAAASUVORK5CYII=");
    ("landscape", "iVBORw0KGgoAAAANSUhEUgAAAKAAAABaCAIAAACOuu7MAAAAaklEQVR42u3QIQEAAAjAoNm/tDP8DwAAAAAAAAAAfKTBOjgAAAAAAAAAAAAAAAAAAAAAAAAAAAAAAAAAAAAAAAAAAAAAAAAAAAAAAAAAAAAAAAAAAAAAAAAAAAAAAAAAAMBbAdW1BN0ZvW8UAAAAAElFTkSuQmCC");
    ("portrait", "iVBORw0KGgoAAAANSUhEUgAAAFoAAACgCAIAAAAaBO6CAAAAaklEQVR42u3QMQEAAAjAoNm/tBf8DgAAAAAAAAAAAAAAAAAAfFSHDgAAAAAAAAAAAAAAAAAAAAAAAAAAAAAAAAAAAAAAAAAAAAAAAAAAAAAAAAAAAAAAAAAAAP7VAaxDBbwC3cFJNbQKAAAAAElFTkSuQmCC");
    ("widescreen", "iVBORw0KGgoAAAANSUhEUgAAAKAAAABkCAIAAACO3jADAAAAaklEQVR42u3QIQEAAAjAoNm/tDP8DwAAAAAAAAAAAADfaTAOAAAAAAAAAAAAAAAAAAAAAAAAAAAAAAAAAAAAAAAAAAAAAAAAAAAAAAAAAAAAAAAAAAAAAAAAAN4CoP0E3T6XVXsAAAAASUVORK5CYII=");
    ("default", "iVBORw0KGgoAAAANSUhEUgAAAGQAAABkCAIAAAD/gAIDAAAAaklEQVR42u3QMQEAAAjAoNm/tCU8HAAA4NMCriwAAysLzMAKAysLzMAKAysLzMAKAysLzMAKAysLzMAKAysLzMAKAysLzMAKAysLzMAKAysLzMAKAysLzMAKAysLzMAKAysLzMAKAysL+FoBTL0F3UMHQMAAAAAASUVORK5CYII=") ].

(** The key [generateBlankImageSync] settles on. *)
Definition imageKey_of (v : AspectValue) : string :=
  let aspectRatio := div (ToNumber (width_of v)) (ToNumber (height_of v)) in
  if name_is v "square" || lt (abs (sub aspectRatio (of_Z 1))) lit_0_1 then "square"
  else if name_is v "landscape"
          || (gt aspectRatio lit_1_5 && lt aspectRatio (of_Z 2)) then "landscape"
  else if name_is v "portrait" || lt aspectRatio lit_0_7 then "portrait"
  else if name_is v "widescreen"
          || (gt aspectRatio lit_1_4 && lt aspectRatio lit_1_7) then "widescreen"
  else if gt aspectRatio (of_Z 1) then "landscape"
  else "portrait".

(** [blankImages[imageKey] || blankImages['default']]; every key
    [imageKey_of] returns is a property of [blankImages] itself. *)
Definition generateBlankImageSync (v : AspectValue) : string :=
  or_else (own_property blankImages (imageKey_of v))
          (or_else (own_property blankImages "default") "undefined").

Definition descriptions : list (string * string) :=
  [ ("square", "square format (1:1 aspect ratio)");
    ("landscape", "landscape orientation (16:9 aspect ratio)");
    ("portrait", "portrait orientation (9:16 aspect ratio)");
    ("widescreen", "widescreen format (16:10 aspect ratio)");
    ("ultrawide", "ultrawide format (21:9 aspect ratio)");
    ("panoramic", "panoramic format (2:1 aspect ratio)") ].

(** [`${x}`] for a number that may be [undefined]. *)
Definition show_dimension (E : Engine) (x : option number) : string :=
  match x with
  | Some n => Number_toString E n
  | None => "undefined"
  end.

(** [descriptions[config.name] || `${config.width}x${config.height} aspect
    ratio`], as the text its callers interpolate it into: a member that
    [descriptions] inherits is truthy and converts as a function does. *)
Definition getAspectRatioPrompt (E : Engine) (v : AspectValue) : string :=
  let fallback :=
    show_dimension E (width_of v) ++ "x" ++ show_dimension E (height_of v)
    ++ " aspect ratio" in
  match get descriptions (to_key (name_of v)) with
  | Own d => if truthy_string d then d else fallback
  | Inherited key => member_toString key
  | Absent => fallback
  end.

End AspectRatio.

(* ===================================================================== *)
(** * Parsed JSON, as the response-handling code reads it                 *)
(* ===================================================================== *)

Module Json.
Import JS.

#[local] Unset Elimination Schemes.
Inductive json : Type :=
| JNull
| JBool (b : bool)
| JNum (n : number)
| JStr (s : string)
| JArr (items : list json)
| JObj (fields : list (string * json)).
#[local] Set Elimination Schemes.

(** A value read out of a response: [None] is [undefined]. *)
Definition value := option json.

Definition truthy (v : value) : bool :=
  match v with
  | None | Some JNull => false
  | Some (JBool b) => b
  | Some (JNum n) => truthy_number n
  | Some (JStr s) => truthy_string s
  | Some (JArr _) | Some (JObj _) => true
  end.

Fixpoint chars (s : string) : list json :=
  match s with
  | EmptyString => []
  | String c r => JStr (String c EmptyString) :: chars r
  end.

(** [v.key] for the keys the sources read ([choices], [message], [images],
    [length], [image_url], [url], [content], [usage], [candidates], [parts],
    [inline_data], [mime_type], [data], [usageMetadata] and the token
    counts); none of them is a member of a built-in prototype other than
    [length]. Reading a property of [null] or [undefined] raises. *)
Definition get_prop (what : string) (v : value) (key : string)
  : type_error + value :=
  match v with
  | None => inl (ReadOfUndefined what key)
  | Some JNull => inl (ReadOfNull what key)
  | Some (JObj fields) => inr (own_property fields key)
  | Some (JArr items) =>
      inr (if String.eqb key "length"
           then Some (JNum (of_Z (Z.of_nat (List.length items)))) else None)
  | Some (JStr s) =>
      inr (if String.eqb key "length" then Some (JNum (of_Z (strlen s))) else None)
  | Some (JBool _) | Some (JNum _) => inr None
  end.

(** [v[0]]. *)
Definition get_index0 (what : string) (v : value) : type_error + value :=
  match v with
  | None => inl (ReadOfUndefined what "0")
  | Some JNull => inl (ReadOfNull what "0")
  | Some (JObj fields) => inr (own_property fields "0")
  | Some (JArr items) => inr (nth_error items 0)
  | Some (JStr s) => inr (nth_error (chars s) 0)
  | Some (JBool _) | Some (JNum _) => inr None
  end.

(** The values a [for ... of] loop visits. *)
Definition iterate (what : string) (v : value) : type_error + list json :=
  match v with
  | Some (JArr items) => inr items
  | Some (JStr s) => inr (chars s)
  | _ => inl (NotIterable what)
  end.

(** The receiver of a call to a string method such as [startsWith]: only a
    string has one. *)
Definition string_receiver (what method : string) (v : value)
  : type_error + string :=
  match v with
  | Some (JStr s) => inr s
  | None => inl (ReadOfUndefined what method)
  | Some JNull => inl (ReadOfNull what method)
  | Some _ => inl (NotAFunction (what ++ "." ++ method))
  end.

(** A value converted to a string, as a template literal does. An array
    joins its elements with commas, [null] giving the empty text; an object
    reads as [[object Object]], unless it carries a [toString] of its own,
    which coming from JSON cannot be called: the conversion raises. *)
Fixpoint ToString_json (E : Engine) (v : json) : type_error + string :=
  match v with
  | JNull => inr "null"
  | JBool b => inr (if b then "true" else "false")
  | JNum n => inr (Number_toString E n)
  | JStr s => inr s
  | JArr items =>
      (fix join (l : list json) : type_error + string :=
         match l with
         | [] => inr ""
         | x :: r =>
             match (match x with JNull => inr "" | _ => ToString_json E x end) with
             | inl t => inl t
             | inr here =>
                 match r with
                 | [] => inr here
                 | _ :: _ =>
                     match join r with
                     | inl t => inl t
                     | inr rest => inr (here ++ "," ++ rest)
                     end
                 end
             end
         end) items
  | JObj fields =>
      match own_property fields "toString" with
      | Some _ => inl NoPrimitiveValue
      | None => inr "[object Object]"
      end
  end.

Definition ToString (E : Engine) (v : value) : type_error + string :=
  match v with
  | None => inr "undefined"
  | Some j => ToString_json E j
  end.

(** A value converted to a number, as [>] does when the other side is a
    number. *)
Definition ToNumber (E : Engine) (v : value) : type_error + number :=
  match v with
  | None => inr NaN
  | Some JNull => inr (of_Z 0)
  | Some (JBool b) => inr (if b then of_Z 1 else of_Z 0)
  | Some (JNum n) => inr n
  | Some (JStr s) => inr (StringToNumber E s)
  | Some j =>
      match ToString_json E j with
      | inl t => inl t
      | inr s => inr (StringToNumber E s)
      end
  end.

End Json.

(* ===================================================================== *)
(** * [src/types.ts]                                                      *)
(* ===================================================================== *)

Module Types.
Import JS Json.

(** [ImageInput]; [path] is the field the direct provider and the tool
    schema read next to [url] and [base64]. *)
Record ImageInput : Type := {
  path : option string;
  url : option string;
  base64 : option string;
  mimeType : option string;
  description : option string
}.

Inductive ScenarioType : Type :=
| text_to_image
| style_transfer
| character_design
| pose_modification
| background_expansion
| multi_reference
| cross_view
| ar_overlay
| photo_enhancement.

(** The string a [ScenarioType] is at run time. *)
Definition scenario_tag (s : ScenarioType) : string :=
  match s with
  | text_to_image => "text-to-image"
  | style_transfer => "style-transfer"
  | character_design => "character-design"
  | pose_modification => "pose-modification"
  | background_expansion => "background-expansion"
  | multi_reference => "multi-reference"
  | cross_view => "cross-view"
  | ar_overlay => "ar-overlay"
  | photo_enhancement => "photo-enhancement"
  end.

Inductive ProviderChoice : Type := gemini | openrouter | auto.

Record ImageGenerationArgs : Type := {
  prompt : string;
  images : option (list ImageInput);
  provider : option ProviderChoice;
  scenario : option ScenarioType;
  aspect_ratio : option string;
  negative_prompt : option string;
  save_to_file : option bool;
  filename : option string;
  show_full_response : option bool;
  sample_count : option number
}.

End Types.

(** [GeneratedImage] and [GenerationResult], each in a module of its own so
    that the fields keep the names they have in [types.ts]. *)
Module Image.

Inductive ImageType : Type := type_base64 | type_url.

Record GeneratedImage : Type := {
  type : ImageType;
  data : option string;
  url : option string;
  size : option string;
  format : option string
}.

End Image.

Module Result.
Import Json.

Record Usage : Type := {
  tokens : value;
  input_tokens : value;
  output_tokens : value
}.

Record GenerationResult : Type := {
  success : bool;
  provider : string;
  model : string;
  prompt : string;
  enhanced_prompt : option string;
  message : value;
  images : option (list Image.GeneratedImage);
  saved_files : option (list string);
  usage : option Usage;
  error : option string
}.

End Result.

(* ===================================================================== *)
(** * Effects: exceptions, the network, the file system, the console      *)
(* ===================================================================== *)

(** What is thrown and caught: an [Error] object, of which the sources read
    the [message] only. *)
Module Exn.

Record Error : Type := { message : string }.

Definition TypeError (E : JS.Engine) (t : JS.type_error) : Error :=
  {| message := JS.TypeError_message E t |}.

End Exn.

(** What goes over the wire. The bodies are kept as the structures
    [JSON.stringify] is applied to. *)
Module Http.
Import Json Exn.

(** An element of the [parts] array of the direct API: [{ text }] or
    [{ inline_data: { mime_type, data } }]. *)
Inductive Part : Type :=
| text_part (text : string)
| inline_data (mime_type : string) (data : string).

(** An element of the [content] array of a chat message:
    [{ type: 'text', text }] or [{ type: 'image_url', image_url: { url } }]. *)
Inductive ContentBlock : Type :=
| text_block (text : string)
| image_url_block (url : string).

Inductive Body : Type :=
| no_body
| contents_body (parts : list Part)
| chat_body (model : string) (content : list ContentBlock).

Record Request : Type := {
  url : string;
  method : string;
  headers : list (string * string);
  body : Body
}.

(** A response, with what each of its readers yields: [text()], [json()]
    and [arrayBuffer()] may reject; [content_type] is
    [headers.get('content-type')]. *)
Record Response : Type := {
  ok : bool;
  status : Z;
  text : Error + string;
  json : Error + Json.json;
  arrayBuffer : Error + string;
  content_type : option string
}.

End Http.

Module Eff.
Import Exn.

Inductive event : Type :=
| Fetched (request : Http.Request)
| FileRead (path : string)
| DirectoryMade (path : string)
| FileWritten (path : string) (bytes : string) (done : bool)
| ConsoleError (text : string) (detail : option Error).

Definition trace := list event.

(** A computation: from the events so far to an exception or a value, and
    the events after it. What was logged before a throw stays logged. *)
Definition M (A : Type) : Type := trace -> (Error + A) * trace.

Definition ret {A} (a : A) : M A := fun tr => (inr a, tr).

Definition throw {A} (e : Error) : M A := fun tr => (inl e, tr).

Definition bind {A B} (m : M A) (k : A -> M B) : M B :=
  fun tr =>
    match m tr with
    | (inl e, tr') => (inl e, tr')
    | (inr a, tr') => k a tr'
    end.

Definition try_catch {A} (m : M A) (handler : Error -> M A) : M A :=
  fun tr =>
    match m tr with
    | (inl e, tr') => handler e tr'
    | (inr a, tr') => (inr a, tr')
    end.

Definition emit (ev : event) : M unit := fun tr => (inr tt, (tr ++ [ev])%list).

Definition history : M trace := fun tr => (inr tr, tr).

Definition lift {A} (r : Error + A) : M A := fun tr => (r, tr).

(** An engine-raised [TypeError] or a value. *)
Definition lift_js {A} (E : JS.Engine) (r : JS.type_error + A) : M A :=
  match r with
  | inl t => throw (TypeError E t)
  | inr a => ret a
  end.

Definition returns {A} (m : M A) (tr : trace) : Prop :=
  exists a tr', m tr = (inr a, tr').

End Eff.

Declare Scope eff_scope.
Delimit Scope eff_scope with eff.
Notation "x <- m ;; k" := (Eff.bind m (fun x => k))
  (at level 61, m at next level, right associativity) : eff_scope.
Notation "m ;;; k" := (Eff.bind m (fun _ => k))
  (at level 61, right associativity) : eff_scope.

(** The collaborators outside the sources. Each answers from the events so
    far and its arguments. [readImageFileAsBase64] is the helper of
    [utils.ts] the direct provider imports; [Jimp_canvas] stands for the
    calls to Jimp inside [generateLargeBlankImage] (the constructor, the
    border drawn with [setPixelColor], [getBuffer] and the conversion to
    base64); the two [Buffer] conversions are Node's. *)
Module World.
Import JS Exn Eff.

Record FileImage : Type := { file_base64 : string; file_mimeType : string }.

Record World : Type := {
  engine : Engine;
  fetch_ : trace -> Http.Request -> Error + Http.Response;
  readImageFileAsBase64_ : trace -> string -> Error + FileImage;
  Jimp_canvas : trace -> option number -> option number -> Error + string;
  Buffer_to_base64 : string -> string;
  Buffer_from_base64 : string -> string;
  Date_toISOString : trace -> string;
  fs_mkdir : trace -> string -> Error + unit;
  fs_writeFile : trace -> string -> string -> Error + unit;
  path_join : string -> string -> string
}.

Local Open Scope eff_scope.

Definition fetch (W : World) (request : Http.Request) : M Http.Response :=
  tr <- history ;;
  emit (Fetched request) ;;;
  lift (fetch_ W tr request).

Definition readImageFileAsBase64 (W : World) (path : string) : M FileImage :=
  tr <- history ;;
  emit (FileRead path) ;;;
  lift (readImageFileAsBase64_ W tr path).

Definition mkdir (W : World) (dir : string) : M unit :=
  tr <- history ;;
  emit (DirectoryMade dir) ;;;
  lift (fs_mkdir W tr dir).

Definition writeFile (W : World) (file bytes : string) : M unit :=
  tr <- history ;;
  match fs_writeFile W tr file bytes with
  | inl e => emit (FileWritten file bytes false) ;;; throw e
  | inr _ => emit (FileWritten file bytes true)
  end.

Definition now (W : World) : M string :=
  tr <- history ;; ret (Date_toISOString W tr).

Definition console_error (text : string) (detail : option Error) : M unit :=
  emit (ConsoleError text detail).

End World.

(* ===================================================================== *)
(** * The regular expressions of the sources                              *)
(* ===================================================================== *)

Module Patterns.
Import JS.

(** After [data:], the lazy [.*?] up to the first [;base64,]: what follows
    the marker, unless a line terminator or the end comes first. *)
Fixpoint after_base64_marker (s : string) : option string :=
  if startsWith s ";base64," then Some (drop 8 s)
  else match s with
       | EmptyString => None
       | String c r => if is_line_terminator c then None else after_base64_marker r
       end.

(** [s.replace(/^data:.*?;base64,/, '')]. *)
Definition strip_data_uri (s : string) : string :=
  if startsWith s "data:" then
    match after_base64_marker (drop 5 s) with
    | Some rest => rest
    | None => s
    end
  else s.

Fixpoint take_while (p : ascii -> bool) (s : string) : string :=
  match s with
  | EmptyString => EmptyString
  | String c r => if p c then String c (take_while p r) else EmptyString
  end.

Definition non_space (c : ascii) : bool := negb (is_space c).

(** [s.match(/https?:\/\/[^\s]+/)]: the text matched, leftmost. *)
Fixpoint first_http_url (s : string) : option string :=
  let at_scheme (scheme : string) :=
    if startsWith s scheme then
      let tail := take_while non_space (drop (String.length scheme) s) in
      if truthy_string tail then Some (scheme ++ tail) else None
    else None in
  match at_scheme "https://" with
  | Some m => Some m
  | None =>
      match at_scheme "http://" with
      | Some m => Some m
      | None =>
          match s with
          | EmptyString => None
          | String _ r => first_http_url r
          end
      end
  end.

(** The lazy [(.*?);]: the text before the first [;], unless a line
    terminator or the end comes first. *)
Fixpoint until_semicolon (s : string) : option string :=
  match s with
  | EmptyString => None
  | String c r =>
      if Ascii.eqb c ";" then Some EmptyString
      else if is_line_terminator c then None
      else option_map (String c) (until_semicolon r)
  end.

(** [s.match(/data:image\/(.*?);/)]: the first group of the leftmost
    match. *)
Fixpoint data_image_subtype (s : string) : option string :=
  let here :=
    if startsWith s "data:image/" then until_semicolon (drop 11 s) else None in
  match here with
  | Some g => Some g
  | None =>
      match s with
      | EmptyString => None
      | String _ r => data_image_subtype r
      end
  end.

(** [s.replace(/[:.]/g, '-')]. *)
Fixpoint dash_colons_and_dots (s : string) : string :=
  match s with
  | EmptyString => EmptyString
  | String c r =>
      String (if Ascii.eqb c ":" || Ascii.eqb c "." then "-"%char else c)
             (dash_colons_and_dots r)
  end.

(** The class [[a-z0-9_\-]] under the [i] flag. *)
Definition is_safe (c : ascii) : bool :=
  let n := code c in
  ((97 <=? n) && (n <=? 122)) || ((65 <=? n) && (n <=? 90))
  || ((48 <=? n) && (n <=? 57)) || (n =? 95) || (n =? 45).

(** [s.replace(/[^a-z0-9_\-]+/gi, '_')]: every maximal run of characters
    outside the class becomes one underscore. [in_run] tells that the
    character before belonged to such a run. *)
Fixpoint underscore_runs (in_run : bool) (s : string) : string :=
  match s with
  | EmptyString => EmptyString
  | String c r =>
      if is_safe c then String c (underscore_runs false r)
      else if in_run then underscore_runs true r
      else String "_" (underscore_runs true r)
  end.

End Patterns.

(* ===================================================================== *)
(** * What the two providers share as written                             *)
(* ===================================================================== *)

Module Provider.
Import JS Exn Eff World AspectRatio Types.
Local Open Scope eff_scope.

(** [array.push(x)]. *)
Definition push {A : Type} (array : list A) (x : A) : list A :=
  (array ++ [x])%list.

(** A [for ... of] loop whose body updates the array it pushes to. *)
Fixpoint for_of {A S : Type} (items : list A) (body : S -> A -> M S) (s : S)
  : M S :=
  match items with
  | [] => ret s
  | x :: rest => s' <- body s x ;; for_of rest body s'
  end.

Definition enhancements : list (string * string) :=
  [ ("style-transfer", "Apply the artistic style from the reference image(s) to: ");
    ("character-design", "Create a character design sheet showing multiple views and poses for: ");
    ("pose-modification", "Modify the pose of the subject while maintaining their appearance: ");
    ("background-expansion", "Expand or modify the background while keeping the main subject: ");
    ("multi-reference", "Combine elements from all reference images to create: ");
    ("cross-view", "Generate different viewing angles or perspectives of: ");
    ("ar-overlay", "Add augmented reality information overlays to: ");
    ("photo-enhancement", "Enhance and improve the quality of: ") ].

(** [(enhancements[scenario] || '') + prompt]. *)
Definition enhancePromptForScenario (prompt scenario : string) : string :=
  match get enhancements scenario with
  | Own e => (if truthy_string e then e else "") ++ prompt
  | Inherited key => member_toString key ++ prompt
  | Absent => "" ++ prompt
  end.

Definition buildPrompt (E : Engine) (args : ImageGenerationArgs)
    (aspectRatioConfig : option AspectValue) : string :=
  let prompt := prompt args in
  let prompt :=
    match scenario args with
    | Some s =>
        if truthy_string (scenario_tag s)
        then enhancePromptForScenario prompt (scenario_tag s) else prompt
    | None => prompt
    end in
  let prompt :=
    match aspectRatioConfig with
    | Some config =>
        prompt ++ " Generate the image to fill the entire "
        ++ getAspectRatioPrompt E config
        ++ " canvas provided by the blank image."
    | None => prompt
    end in
  let prompt :=
    match negative_prompt args with
    | Some negative =>
        if truthy_string negative then prompt ++ " Avoid: " ++ negative ++ "."
        else prompt
    | None => prompt
    end in
  let prompt :=
    match sample_count args with
    | Some n =>
        if truthy_number n && gt n (of_Z 1)
        then "Generate " ++ Number_toString E n ++ " variations of: " ++ prompt
        else prompt
    | None => prompt
    end in
  prompt.

(** [generateLargeBlankImage]: the canvas drawn by Jimp at the size asked
    for; when that throws, the error is logged and a pre-generated image is
    returned. *)
Definition generateLargeBlankImage (W : World) (config : AspectValue) : M string :=
  try_catch
    (tr <- history ;;
     lift (Jimp_canvas W tr (width_of config) (height_of config)))
    (fun error =>
       console_error "Error generating large blank image:" (Some error) ;;;
       ret (generateBlankImageSync config)).

End Provider.

(* ===================================================================== *)
(** * [src/providers/gemini-provider.ts]                                  *)
(* ===================================================================== *)

Module Gemini.
Import JS Json Exn Eff World AspectRatio Types Http Patterns.
Local Open Scope eff_scope.

Definition GEMINI_API_URL : string :=
  "https://generativelanguage.googleapis.com/v1beta/models/gemini-2.5-flash-image-preview:generateContent".

Definition isAvailable (apiKey : option string) : bool := truthy_opt apiKey.

Definition buildPrompt := Provider.buildPrompt.
Definition generateLargeBlankImage := Provider.generateLargeBlankImage.

Definition fetchImageAsBase64 (W : World) (url : string) : M FileImage :=
  response <- fetch W {| Http.url := url; method := "GET"; headers := [];
                         body := no_body |} ;;
  if negb (ok response) then
    throw {| message := "Failed to fetch image from URL: " ++ url |}
  else
    buffer <- lift (arrayBuffer response) ;;
    ret {| file_base64 := Buffer_to_base64 W buffer;
           file_mimeType := or_else (content_type response) "image/png" |}.

(** The body of the loop over [args.images]: at most one part is pushed. *)
Definition push_reference (W : World) (parts : list Part) (image : ImageInput)
  : M (list Part) :=
  if truthy_opt (base64 image) then
    ret (Provider.push parts
      (inline_data (or_else (mimeType image) "image/png")
         (strip_data_uri (to_key (base64 image)))))
  else if truthy_opt (path image) then
    imageData <- readImageFileAsBase64 W (to_key (path image)) ;;
    ret (Provider.push parts
      (inline_data (or_else (mimeType image) (file_mimeType imageData))
         (file_base64 imageData)))
  else if truthy_opt (Types.url image) then
    imageData <- fetchImageAsBase64 W (to_key (Types.url image)) ;;
    ret (Provider.push parts
      (inline_data (file_mimeType imageData) (file_base64 imageData)))
  else ret parts.

(** The [parts] array as it stands when the request is sent. *)
Definition build_parts (W : World) (args : ImageGenerationArgs)
    (aspectRatioConfig : option AspectValue) : M (list Part) :=
  let parts := [text_part (buildPrompt (engine W) args aspectRatioConfig)] in
  parts <-
    match images args with
    | Some imgs => Provider.for_of imgs (push_reference W) parts
    | None => ret parts
    end ;;
  match aspectRatioConfig with
  | Some config =>
      blankImage <- generateLargeBlankImage W config ;;
      ret (Provider.push parts
      (inline_data "image/png" blankImage))
  | None => ret parts
  end.

Definition request (apiKey : string) (parts : list Part) : Request :=
  {| Http.url := GEMINI_API_URL;
     method := "POST";
     headers := [("x-goog-api-key", apiKey); ("Content-Type", "application/json")];
     body := contents_body parts |}.

(** One part of one candidate: an image is pushed when the part carries
    [inline_data]. *)
Definition push_part (E : Engine) (found : list Image.GeneratedImage) (part : Json.json)
  : M (list Image.GeneratedImage) :=
  inline <- lift_js E (get_prop "part" (Some part) "inline_data") ;;
  if truthy inline then
    mime <- lift_js E (get_prop "part.inline_data" inline "mime_type") ;;
    mime_text <-
      lift_js E (ToString E (if truthy mime then mime else Some (JStr "image/png"))) ;;
    payload <- lift_js E (get_prop "part.inline_data" inline "data") ;;
    payload_text <- lift_js E (ToString E payload) ;;
    subtype <-
      match mime with
      | None | Some JNull => ret None
      | Some _ =>
          s <- lift_js E (string_receiver "part.inline_data.mime_type" "split" mime) ;;
          ret (split_slash_1 s)
      end ;;
    ret (Provider.push found
           {| Image.type := Image.type_base64;
              Image.data := Some ("data:" ++ mime_text ++ ";base64," ++ payload_text);
              Image.url := None;
              Image.size := None;
              Image.format := Some (or_else subtype "png") |})
  else ret found.

Definition push_candidate (E : Engine) (found : list Image.GeneratedImage)
    (candidate : Json.json) : M (list Image.GeneratedImage) :=
  content <- lift_js E (get_prop "candidate" (Some candidate) "content") ;;
  if truthy content then
    parts <- lift_js E (get_prop "candidate.content" content "parts") ;;
    if truthy parts then
      items <- lift_js E (iterate "candidate.content.parts" parts) ;;
      Provider.for_of items (push_part E) found
    else ret found
  else ret found.

(** The images found in a response body: every candidate, every part. *)
Definition extract_images (E : Engine) (data : Json.json) : M (list Image.GeneratedImage) :=
  candidates <- lift_js E (get_prop "data" (Some data) "candidates") ;;
  match candidates with
  | Some (JArr items) => Provider.for_of items (push_candidate E) []
  | _ => ret []
  end.

Definition usage_of (E : Engine) (data : Json.json) : M (option Result.Usage) :=
  meta <- lift_js E (get_prop "data" (Some data) "usageMetadata") ;;
  if truthy meta then
    input <- lift_js E (get_prop "data.usageMetadata" meta "promptTokenCount") ;;
    output <- lift_js E (get_prop "data.usageMetadata" meta "candidatesTokenCount") ;;
    total <- lift_js E (get_prop "data.usageMetadata" meta "totalTokenCount") ;;
    ret (Some {| Result.input_tokens := input;
                 Result.output_tokens := output;
                 Result.tokens := total |})
  else ret None.

(** What follows the POST inside the [try] block. *)
Definition read_response (W : World) (args : ImageGenerationArgs)
    (response : Response) : M Result.GenerationResult :=
  if negb (ok response) then
    errorText <- lift (text response) ;;
    throw {| message := "Gemini API error: " ++ digits_of_Z (status response)
                        ++ " - " ++ errorText |}
  else
    data <- lift (json response) ;;
    images <- extract_images (engine W) data ;;
    usage <- usage_of (engine W) data ;;
    ret {| Result.success := true;
           Result.provider := "Gemini Direct";
           Result.model := "gemini-2.5-flash-image-preview";
           Result.prompt := prompt args;
           Result.enhanced_prompt := None;
           Result.message := Some (JStr "Image generated successfully");
           Result.images := Some images;
           Result.saved_files := None;
           Result.usage := usage;
           Result.error := None |}.

(** The [try] block. *)
Definition attempt (W : World) (apiKey : string) (args : ImageGenerationArgs)
  : M Result.GenerationResult :=
  let aspectRatioConfig := parseAspectRatio (aspect_ratio args) in
  parts <- build_parts W args aspectRatioConfig ;;
  response <- fetch W (request apiKey parts) ;;
  read_response W args response.

(** The [catch] block. *)
Definition failed (args : ImageGenerationArgs) (error : Error)
  : Result.GenerationResult :=
  {| Result.success := false;
     Result.provider := "Gemini Direct";
     Result.model := "gemini-2.5-flash-image-preview";
     Result.prompt := prompt args;
     Result.enhanced_prompt := None;
     Result.message := None;
     Result.images := None;
     Result.saved_files := None;
     Result.usage := None;
     Result.error := Some (message error) |}.

Definition generateImage (W : World) (apiKey : option string)
    (args : ImageGenerationArgs) : M Result.GenerationResult :=
  match apiKey with
  | Some key =>
      if truthy_string key then
        try_catch (attempt W key args) (fun error => ret (failed args error))
      else throw {| message := "GEMINI_API_KEY environment variable is not set" |}
  | None => throw {| message := "GEMINI_API_KEY environment variable is not set" |}
  end.

End Gemini.

(* ===================================================================== *)
(** * [src/providers/openrouter-provider.ts]                              *)
(* ===================================================================== *)

Module OpenRouter.
Import JS Json Exn Eff World AspectRatio Types Http Patterns.
Local Open Scope eff_scope.

Definition OPENROUTER_API_URL : string :=
  "https://openrouter.ai/api/v1/chat/completions".
Definition GEMINI_MODEL : string := "google/gemini-2.5-flash-image-preview".

Definition isAvailable (apiKey : option string) : bool := truthy_opt apiKey.

Definition buildPrompt := Provider.buildPrompt.
Definition generateLargeBlankImage := Provider.generateLargeBlankImage.

(** The body of the loop over [args.images]: a block is pushed when the
    image carries base64 data or a URL. *)
Definition push_reference (content : list ContentBlock) (image : ImageInput)
  : list ContentBlock :=
  if truthy_opt (base64 image) || truthy_opt (Types.url image) then
    let imageUrl :=
      if truthy_opt (base64 image)
      then "data:" ++ or_else (mimeType image) "image/png" ++ ";base64,"
           ++ strip_data_uri (to_key (base64 image))
      else to_key (Types.url image) in
    Provider.push content (image_url_block imageUrl)
  else content.

(** The [content] array as it stands when the request is sent. *)
Definition build_content (W : World) (args : ImageGenerationArgs)
    (aspectRatioConfig : option AspectValue) : M (list ContentBlock) :=
  let content := [text_block (buildPrompt (engine W) args aspectRatioConfig)] in
  let content :=
    match images args with
    | Some imgs => fold_left push_reference imgs content
    | None => content
    end in
  match aspectRatioConfig with
  | Some config =>
      blankImage <- generateLargeBlankImage W config ;;
      ret (Provider.push content
             (image_url_block ("data:image/png;base64," ++ blankImage)))
  | None => ret content
  end.

Definition request (apiKey : string) (content : list ContentBlock) : Request :=
  {| Http.url := OPENROUTER_API_URL;
     method := "POST";
     headers := [("Authorization", "Bearer " ++ apiKey);
                 ("Content-Type", "application/json");
                 ("HTTP-Referer", "https://github.com/nanobanana-mcp");
                 ("X-Title", "Nano Banana MCP Server")];
     body := chat_body GEMINI_MODEL content |}.

(** [url.substring(11, url.indexOf(';')) || 'png']. *)
Definition format_of (url : string) : string :=
  or_else (Some (substring url 11 (indexOf url ";"))) "png".

(** One entry of [message.images]. *)
Definition push_image (E : Engine) (found : list Image.GeneratedImage)
    (img : Json.json) : M (list Image.GeneratedImage) :=
  image_url <- lift_js E (get_prop "img" (Some img) "image_url") ;;
  if truthy image_url then
    url <- lift_js E (get_prop "img.image_url" image_url "url") ;;
    if truthy url then
      s <- lift_js E (string_receiver "url" "startsWith" url) ;;
      if startsWith s "data:" then
        ret (Provider.push found
               {| Image.type := Image.type_base64;
                  Image.data := Some s;
                  Image.url := None;
                  Image.size := None;
                  Image.format := Some (format_of s) |})
      else
        ret (Provider.push found
               {| Image.type := Image.type_url;
                  Image.data := None;
                  Image.url := Some s;
                  Image.size := None;
                  Image.format := None |})
    else ret found
  else ret found.

(** The fallback on [message.content], taken when nothing was found in
    [message.images]. *)
Definition from_content (E : Engine) (content : value)
  : M (list Image.GeneratedImage) :=
  s <- lift_js E (string_receiver "message.content" "startsWith" content) ;;
  if startsWith s "data:image" then
    ret [{| Image.type := Image.type_base64;
            Image.data := Some s;
            Image.url := None;
            Image.size := None;
            Image.format := Some (format_of s) |}]
  else if includes s "http" then
    match first_http_url s with
    | Some found_url =>
        ret [{| Image.type := Image.type_url;
                Image.data := None;
                Image.url := Some found_url;
                Image.size := None;
                Image.format := None |}]
    | None => ret []
    end
  else ret [].

(** The images found in the message of the first choice. *)
Definition extract_images (E : Engine) (message : value)
  : M (list Image.GeneratedImage) :=
  listed <- lift_js E (get_prop "message" message "images") ;;
  images <-
    (if truthy listed then
       len <- lift_js E (get_prop "message.images" listed "length") ;;
       len <- lift_js E (Json.ToNumber E len) ;;
       if gt len (of_Z 0) then
         items <- lift_js E (iterate "message.images" listed) ;;
         Provider.for_of items (push_image E) []
       else ret []
     else ret []) ;;
  match images with
  | [] =>
      content <- lift_js E (get_prop "message" message "content") ;;
      if truthy content then from_content E content else ret images
  | _ :: _ => ret images
  end.

Definition usage_of (E : Engine) (data : Json.json) : M (option Result.Usage) :=
  usage <- lift_js E (get_prop "data" (Some data) "usage") ;;
  if truthy usage then
    input <- lift_js E (get_prop "data.usage" usage "prompt_tokens") ;;
    output <- lift_js E (get_prop "data.usage" usage "completion_tokens") ;;
    total <- lift_js E (get_prop "data.usage" usage "total_tokens") ;;
    ret (Some {| Result.input_tokens := input;
                 Result.output_tokens := output;
                 Result.tokens := total |})
  else ret None.

(** [data.choices[0].message]. *)
Definition first_message (E : Engine) (data : Json.json) : M value :=
  choices <- lift_js E (get_prop "data" (Some data) "choices") ;;
  first <- lift_js E (get_index0 "data.choices" choices) ;;
  lift_js E (get_prop "data.choices[0]" first "message").

(** What follows the POST inside the [try] block. *)
Definition read_response (W : World) (args : ImageGenerationArgs)
    (response : Response) : M Result.GenerationResult :=
  if negb (ok response) then
    errorText <- lift (text response) ;;
    throw {| message := "OpenRouter API error: " ++ digits_of_Z (status response)
                        ++ " - " ++ errorText |}
  else
    data <- lift (Http.json response) ;;
    message <- first_message (engine W) data ;;
    images <- extract_images (engine W) message ;;
    content <- lift_js (engine W) (get_prop "message" message "content") ;;
    usage <- usage_of (engine W) data ;;
    ret {| Result.success := true;
           Result.provider := "OpenRouter";
           Result.model := GEMINI_MODEL;
           Result.prompt := prompt args;
           Result.enhanced_prompt := None;
           Result.message :=
             if truthy content then content
             else Some (JStr "Image generated successfully");
           Result.images := Some images;
           Result.saved_files := None;
           Result.usage := usage;
           Result.error := None |}.

(** The [try] block. *)
Definition attempt (W : World) (apiKey : string) (args : ImageGenerationArgs)
  : M Result.GenerationResult :=
  let aspectRatioConfig := parseAspectRatio (aspect_ratio args) in
  content <- build_content W args aspectRatioConfig ;;
  response <- fetch W (request apiKey content) ;;
  read_response W args response.

(** The [catch] block. *)
Definition failed (args : ImageGenerationArgs) (error : Error)
  : Result.GenerationResult :=
  {| Result.success := false;
     Result.provider := "OpenRouter";
     Result.model := GEMINI_MODEL;
     Result.prompt := prompt args;
     Result.enhanced_prompt := None;
     Result.message := None;
     Result.images := None;
     Result.saved_files := None;
     Result.usage := None;
     Result.error := Some (message error) |}.

Definition generateImage (W : World) (apiKey : option string)
    (args : ImageGenerationArgs) : M Result.GenerationResult :=
  match apiKey with
  | Some key =>
      if truthy_string key then
        try_catch (attempt W key args) (fun error => ret (failed args error))
      else throw {| message := "OPENROUTER_API_KEY environment variable is not set" |}
  | None => throw {| message := "OPENROUTER_API_KEY environment variable is not set" |}
  end.

End OpenRouter.

(* ===================================================================== *)
(** * [src/index.ts]: the choice of a provider                            *)
(* ===================================================================== *)

Module Server.
Import JS.

Inductive ImageProvider : Type := geminiProvider | openRouterProvider.

(** The server holds one instance of each provider; each took its key from
    the environment when it was constructed. *)
Record NanoBananaMCPServer : Type := {
  GEMINI_API_KEY : option string;
  OPENROUTER_API_KEY : option string
}.

(** [selectProvider]; [None] is [null]. *)
Definition selectProvider (this : NanoBananaMCPServer)
    (preference : option string) : option ImageProvider :=
  let named s := match preference with Some p => String.eqb p s | None => false end in
  if named "gemini" && Gemini.isAvailable (GEMINI_API_KEY this) then
    Some geminiProvider
  else if named "openrouter" && OpenRouter.isAvailable (OPENROUTER_API_KEY this) then
    Some openRouterProvider
  else if named "auto" || negb (truthy_opt preference) then
    if Gemini.isAvailable (GEMINI_API_KEY this) then Some geminiProvider
    else if OpenRouter.isAvailable (OPENROUTER_API_KEY this) then
      Some openRouterProvider
    else None
  else None.

End Server.

(* ===================================================================== *)
(** * [src/utils.ts]: saving the generated images                         *)
(* ===================================================================== *)

Module Utils.
Import JS Exn Eff World Patterns.
Local Open Scope eff_scope.

Definition outputDir : string := "generated_images".

Definition sanitizeFilename (filename : string) : string :=
  slice0 (underscore_runs false filename) 64.

(** The bytes and the extension of one image, or [None] where the loop
    says [continue]. *)
Definition buffer_and_ext (W : World) (image : Image.GeneratedImage)
  : M (option (string * string)) :=
  let ext := "png" in
  match Image.type image, truthy_opt (Image.data image), truthy_opt (Image.url image) with
  | Image.type_base64, true, _ =>
      let data := to_key (Image.data image) in
      let base64Data := strip_data_uri data in
      let buffer := Buffer_from_base64 W base64Data in
      let ext :=
        if truthy_opt (Image.format image) then to_key (Image.format image)
        else if startsWith data "data:" then
          match data_image_subtype data with
          | Some sub => if String.eqb sub "jpeg" then "jpg" else sub
          | None => ext
          end
        else ext in
      ret (Some (buffer, ext))
  | Image.type_url, _, true =>
      let url := to_key (Image.url image) in
      response <- fetch W {| Http.url := url; Http.method := "GET";
                             Http.headers := []; Http.body := Http.no_body |} ;;
      if negb (Http.ok response) then
        throw {| message := "Failed to fetch image from URL: " ++ url |}
      else
        buffer <- lift (Http.arrayBuffer response) ;;
        let ext :=
          if truthy_opt (Http.content_type response) then
            let ext := or_else (split_slash_1 (to_key (Http.content_type response))) "png" in
            if String.eqb ext "jpeg" then "jpg" else ext
          else ext in
        ret (Some (buffer, ext))
  | _, _, _ => ret None
  end.

(** The name given to image [i] (counted from 0) out of [count]. *)
Definition filename_of (count : nat) (baseFilename timestamp : string) (i : nat)
    (ext : string) : string :=
  let safeBase := sanitizeFilename (or_else (Some baseFilename) "generated_image") in
  if (1 <? Z.of_nat count)
  then safeBase ++ "_" ++ timestamp ++ "_" ++ digits_of_Z (Z.of_nat i + 1) ++ "." ++ ext
  else safeBase ++ "_" ++ timestamp ++ "." ++ ext.

(** The [try] block of one turn of the loop. *)
Definition save_one (W : World) (count : nat) (baseFilename : string)
    (savedFiles : list string) (i : nat) (image : Image.GeneratedImage)
  : M (list string) :=
  found <- buffer_and_ext W image ;;
  match found with
  | None => ret savedFiles
  | Some (buffer, ext) =>
      iso <- now W ;;
      let timestamp := dash_colons_and_dots iso in
      let filename := filename_of count baseFilename timestamp i ext in
      let filepath := path_join W outputDir filename in
      writeFile W filepath buffer ;;;
      console_error ("Saved image to: " ++ filepath) None ;;;
      ret (Provider.push savedFiles filepath)
  end.

(** One turn: the [try] block, and the [catch] block that logs. *)
Definition turn (W : World) (count : nat) (baseFilename : string)
    (savedFiles : list string) (i : nat) (image : Image.GeneratedImage)
  : M (list string) :=
  try_catch (save_one W count baseFilename savedFiles i image)
    (fun err =>
       console_error ("Failed to save image #" ++ digits_of_Z (Z.of_nat i + 1) ++ ":")
                     (Some err) ;;;
       ret savedFiles).

(** The loop [for (let i = 0; i < images.length; i++)], from index [i] on. *)
Fixpoint loop (W : World) (count : nat) (baseFilename : string)
    (rest : list Image.GeneratedImage) (i : nat) (savedFiles : list string)
  : M (list string) :=
  match rest with
  | [] => ret savedFiles
  | image :: rest' =>
      savedFiles' <- turn W count baseFilename savedFiles i image ;;
      loop W count baseFilename rest' (S i) savedFiles'
  end.

Definition saveImages (W : World) (images : list Image.GeneratedImage)
    (baseFilename : string) : M (list string) :=
  mkdir W outputDir ;;;
  loop W (List.length images) baseFilename images 0 [].

End Utils.

(* ===================================================================== *)
(** * Reading the size of a PNG image out of its base64 text              *)
(* ===================================================================== *)

(** The notions the properties of the canvas are stated with: standard
    base64 (RFC 4648) and the IHDR chunk that opens every PNG file. *)
Module Png.
Import JS.









End Png.

(* ===================================================================== *)
(** * The vocabulary of the properties                                    *)
(* ===================================================================== *)

Module Contract.
Import JS Json Exn Eff World AspectRatio Types Http Patterns.

(** ** The prompt, clause by clause *)






(** ** Reference images on the wire *)

Definition usable_direct (image : ImageInput) : bool :=
  truthy_opt (base64 image) || truthy_opt (path image) || truthy_opt (Types.url image).

Definition usable_chat (image : ImageInput) : bool :=
  truthy_opt (base64 image) || truthy_opt (Types.url image).

(** The part the direct provider sends for an image: built from the inline
    data, or from what reading the file gave, or from what fetching the URL
    gave. *)
Definition part_of (W : World) (image : ImageInput) (p : Part) : Prop :=
  (truthy_opt (base64 image) = true
   /\ p = inline_data (or_else (mimeType image) "image/png")
                      (strip_data_uri (to_key (base64 image))))
  \/ (truthy_opt (base64 image) = false /\ truthy_opt (path image) = true
      /\ exists tr d, readImageFileAsBase64_ W tr (to_key (path image)) = inr d
           /\ p = inline_data (or_else (mimeType image) (file_mimeType d)) (file_base64 d))
  \/ (truthy_opt (base64 image) = false /\ truthy_opt (path image) = false
      /\ truthy_opt (Types.url image) = true
      /\ exists tr response bytes,
           fetch_ W tr {| Http.url := to_key (Types.url image); method := "GET";
                          headers := []; body := no_body |} = inr response
           /\ ok response = true /\ arrayBuffer response = inr bytes
           /\ p = inline_data (or_else (content_type response) "image/png")
                              (Buffer_to_base64 W bytes)).

(** The block the chat provider sends for an image. *)
Definition block_of (image : ImageInput) : ContentBlock :=
  image_url_block
    (if truthy_opt (base64 image)
     then "data:" ++ or_else (mimeType image) "image/png" ++ ";base64,"
          ++ strip_data_uri (to_key (base64 image))
     else to_key (Types.url image)).

Definition references (args : ImageGenerationArgs) : list ImageInput :=
  match images args with Some l => l | None => [] end.

(** ** The canvas *)

(** The size a descriptor asks for, when both sides are integers. *)
Definition requested (c : AspectRatioConfig) : option (Z * Z) :=
  match to_Z (width c), to_Z (height c) with
  | Some w, Some h => Some (w, h)
  | _, _ => None
  end.


(** The size of a resolved descriptor, as integers. *)
Definition resolved_size (r : option AspectValue) : option (Z * Z) :=
  match r with
  | Some (Config c) => requested c
  | _ => None
  end.

(** The size stated for the token [a:b]: the larger side 1024, the other
    1024 * min / max rounded to the nearest integer, halves upwards. *)
Definition stated_size (a b : Z) : Z * Z :=
  let small := (2 * (1024 * Z.min a b) + Z.max a b) / (2 * Z.max a b) in
  if b <=? a then (1024, small) else (small, 1024).

Definition ratio_token (a b : Z) : string := digits_of_Z a ++ ":" ++ digits_of_Z b.

Definition resolves_as_stated (a b : Z) : bool :=
  match resolved_size (parseAspectRatio (Some (ratio_token a b))) with
  | Some (w, h) => (w =? fst (stated_size a b)) && (h =? snd (stated_size a b))
  | None => false
  end.

Definition upto (n : nat) : list Z := map (fun k => Z.of_nat (S k)) (seq 0 n).



(** ** Saved files *)

(** The paths of the files the trace records as written, oldest first. *)
Fixpoint written (tr : trace) : list string :=
  match tr with
  | [] => []
  | FileWritten p _ true :: rest => p :: written rest
  | _ :: rest => written rest
  end.

(** The path of image [i] (from 1) out of [count]. *)
Definition saved_path (W : World) (count : nat) (baseFilename : string)
    (i : nat) (timestamp ext : string) : string :=
  path_join W Utils.outputDir
    (Utils.sanitizeFilename (or_else (Some baseFilename) "generated_image")
     ++ "_" ++ timestamp
     ++ (if (1 <? Z.of_nat count) then "_" ++ digits_of_Z (Z.of_nat i) else "")
     ++ "." ++ ext).

(** Paths of images numbered from [lo] on, the numbers increasing and none
    beyond [count]. *)
Inductive numbered (W : World) (count : nat) (baseFilename : string)
  : nat -> list string -> Prop :=
| numbered_nil lo : numbered W count baseFilename lo []
| numbered_cons lo i timestamp ext rest :
    (lo <= i <= count)%nat ->
    numbered W count baseFilename (S i) rest ->
    numbered W count baseFilename lo
      (saved_path W count baseFilename i timestamp ext :: rest).

(** A computation that leaves no event. *)
Definition quiet {A} (m : M A) : Prop := forall tr, snd (m tr) = tr.

(** What the [catch] block of the loop logs for image [i] (from 0). *)
Definition failure_note (i : nat) : string :=
  "Failed to save image #" ++ digits_of_Z (Z.of_nat i + 1) ++ ":".

(** ** The boundary of an adapter *)

(** The POST an adapter is about to send: the request, or the exception
    that building the payload raised. *)
Definition Gemini_post (W : World) (key : string) (args : ImageGenerationArgs)
    (tr : trace) : (Error + Request) * trace :=
  match Gemini.build_parts W args (parseAspectRatio (aspect_ratio args)) tr with
  | (inr parts, tr1) => (inr (Gemini.request key parts), tr1)
  | (inl e, tr1) => (inl e, tr1)
  end.

Definition OpenRouter_post (W : World) (key : string) (args : ImageGenerationArgs)
    (tr : trace) : (Error + Request) * trace :=
  match OpenRouter.build_content W args (parseAspectRatio (aspect_ratio args)) tr with
  | (inr content, tr1) => (inr (OpenRouter.request key content), tr1)
  | (inl e, tr1) => (inl e, tr1)
  end.

(** An adapter keeps every failure inside: it returns; what is thrown
    while the payload is built, by the POST, or while the response is read
    comes back as the result [failed args e]; a response that is not ok is
    such a failure, with the status and the text of the response in the
    message; so is a body that [json()] rejects. *)
Definition keeps_failures_inside
    (generateImage : M Result.GenerationResult)
    (failed : Error -> Result.GenerationResult)
    (read_response : Response -> M Result.GenerationResult)
    (label : string) (W : World) (post : (Error + Request) * trace)
    (tr : trace) : Prop :=
  returns generateImage tr
  /\ (forall e,
        Result.success (failed e) = false
        /\ Result.images (failed e) = None
        /\ Result.error (failed e) = Some (message e))
  /\ (forall e tr1, post = (inl e, tr1) -> generateImage tr = (inr (failed e), tr1))
  /\ (forall request tr1,
        post = (inr request, tr1) ->
        match fetch_ W tr1 request with
        | inl e =>
            generateImage tr = (inr (failed e), (tr1 ++ [Fetched request])%list)
        | inr response =>
            (forall e tr2,
                read_response response (tr1 ++ [Fetched request])%list = (inl e, tr2) ->
                generateImage tr = (inr (failed e), (tr1 ++ [Fetched request])%list))
            /\ (ok response = false ->
                forall tr2,
                  read_response response tr2
                  = match text response with
                    | inl e => (inl e, tr2)
                    | inr errorText =>
                        (inl {| message := label ++ digits_of_Z (status response)
                                           ++ " - " ++ errorText |}, tr2)
                    end)
            /\ (ok response = true ->
                forall e tr2, json response = inl e ->
                  read_response response tr2 = (inl e, tr2))
        end).

End Contract.

(* ===================================================================== *)
(** * Concrete worlds and requests                                        *)
(* ===================================================================== *)

Module Sample.
Import JS Json Exn Eff World AspectRatio Types Http.

Definition engine : Engine :=
  {| Number_toString_other := fun _ => "0.5";
     StringToNumber := fun _ => NaN;
     TypeError_message := fun t =>
       match t with
       | ReadOfUndefined _ key =>
           "Cannot read properties of undefined (reading '" ++ key ++ "')"
       | ReadOfNull _ key =>
           "Cannot read properties of null (reading '" ++ key ++ "')"
       | NotAFunction what => what ++ " is not a function"
       | NotIterable what => what ++ " is not iterable"
       | NoPrimitiveValue => "Cannot convert object to primitive value"
       end |}.

Definition response (is_ok : bool) (code : Z) (body : Error + Json.json)
  : Response :=
  {| ok := is_ok; status := code; text := inr "Bad Request";
     json := body; arrayBuffer := inr "bytes"; content_type := Some "image/png" |}.

(** A world in which every request is answered with [reply], the file
    system holds one image under every path, and Jimp fails. *)
Definition answering (reply : Error + Response) : World :=
  {| World.engine := engine;
     fetch_ := fun _ _ => reply;
     readImageFileAsBase64_ := fun _ _ =>
       inr {| file_base64 := "RklMRQ=="; file_mimeType := "image/jpeg" |};
     Jimp_canvas := fun _ _ _ => inl {| message := "Invalid dimensions" |};
     Buffer_to_base64 := fun b => b;
     Buffer_from_base64 := fun s => s;
     Date_toISOString := fun _ => "2025-01-01T10:20:30.456Z";
     fs_mkdir := fun _ _ => inr tt;
     fs_writeFile := fun _ _ _ => inr tt;
     path_join := fun a b => a ++ "/" ++ b |}.

Definition offline : World := answering (inl {| message := "fetch failed" |}).



Definition image (p u b : option string) : ImageInput :=
  {| path := p; Types.url := u; base64 := b; mimeType := None; description := None |}.

(** A world that answers every request with an empty success. *)
Definition serving : World := answering (inr (response true 200 (inr JNull))).

Definition by_path : ImageInput := image (Some "photo.png") None None.
Definition by_path_and_inline : ImageInput :=
  image (Some "photo.png") None (Some "QUJD").
Definition by_all : ImageInput :=
  image (Some "photo.png") (Some "https://example.org/a.png") (Some "QUJD").

Definition args (text : string) (refs : option (list ImageInput))
    (ratio : option string) : ImageGenerationArgs :=
  {| prompt := text; images := refs; provider := None; scenario := None;
     aspect_ratio := ratio; negative_prompt := None; save_to_file := None;
     filename := None; show_full_response := None; sample_count := None |}.

Definition plain : ImageGenerationArgs := args "a red circle" None None.

(** A world whose backend answers 400 to every request. *)
Definition rejecting : World := answering (inr (response false 400 (inr JNull))).

(** Worlds whose backend answers 200 with the body given. *)
Definition replying (body : Json.json) : World :=
  answering (inr (response true 200 (inr body))).

Definition empty_object : Json.json := JObj [].
Definition empty_choices : Json.json := JObj [("choices", JArr [])].
Definition text_only_choice : Json.json :=
  JObj [("choices",
         JArr [JObj [("message", JObj [("content", JStr "I cannot draw that.")])]])].

(** Three references, the second without any source, and a square canvas. *)
Definition three : ImageGenerationArgs :=
  args "p" (Some [by_path; image None None None; by_path_and_inline]) (Some "square").

(** The request of the example in the description of the prompt. *)
Definition styled : ImageGenerationArgs :=
  {| prompt := "X"; images := None; provider := None;
     scenario := Some style_transfer; aspect_ratio := Some "square";
     negative_prompt := Some "Y"; save_to_file := None; filename := None;
     show_full_response := None; sample_count := Some (of_Z 2) |}.



End Sample.

(* ===================================================================== *)
(** * [src/index.ts]: handling a call of [generate_image]                 *)
(* ===================================================================== *)

Module Index.
Import JS Json Exn Eff World Types.
Local Open Scope eff_scope.

(** [formatImageSize] of [utils.ts]:
    [`${Math.round(data.length / 1024)}KB`]. *)
Definition formatImageSize (E : Engine) (data : string) : string :=
  Number_toString E (Math_round (div (of_Z (strlen data)) (of_Z 1024))) ++ "KB".

(** An element of [response.images]: the three objects [formatResponse]
    builds, and the image itself where it builds none. *)
Inductive FormattedImage : Type :=
| full_entry (index : Z) (data size format : string)
| preview_entry (index : Z) (size format preview : string)
| url_entry (index : Z) (url : string)
| unchanged (img : Image.GeneratedImage).

(** The object [formatResponse] returns; a field that is not set is
    [None]. *)
Record Response : Type := {
  success : bool;
  provider : string;
  model : string;
  prompt : string;
  enhanced_prompt : option string;
  message : value;
  error : option string;
  images : option (list FormattedImage);
  image_count : option Z;
  saved_files : option (list string);
  usage : option Result.Usage
}.

(** The callback of [result.images.map]. *)
Definition format_image (E : Engine) (showFull : bool)
    (img : Image.GeneratedImage) (index : Z) : FormattedImage :=
  match Image.type img, truthy_opt (Image.data img), truthy_opt (Image.url img) with
  | Image.type_base64, true, _ =>
      let data := to_key (Image.data img) in
      if showFull then
        full_entry (index + 1) data (formatImageSize E data)
                   (or_else (Image.format img) "unknown")
      else
        preview_entry (index + 1) (formatImageSize E data)
                      (or_else (Image.format img) "unknown")
                      (substring data 0 100 ++ "...")
  | Image.type_url, _, true => url_entry (index + 1) (to_key (Image.url img))
  | _, _, _ => unchanged img
  end.

(** [array.map((img, index) => ...)], from [index] on. *)
Fixpoint map_indexed {A B : Type} (f : A -> Z -> B) (items : list A) (index : Z)
  : list B :=
  match items with
  | [] => []
  | x :: rest => f x index :: map_indexed f rest (index + 1)
  end.

Definition nonempty {A : Type} (l : option (list A)) : bool :=
  match l with
  | Some (_ :: _) => true
  | _ => false
  end.

Definition formatResponse (E : Engine) (result : Result.GenerationResult)
    (showFull : option bool) : Response :=
  let showFull := match showFull with Some b => b | None => false end in
  {| success := Result.success result;
     provider := Result.provider result;
     model := Result.model result;
     prompt := Result.prompt result;
     enhanced_prompt :=
       if truthy_opt (Result.enhanced_prompt result)
       then Result.enhanced_prompt result else None;
     message := if truthy (Result.message result) then Result.message result else None;
     error := if truthy_opt (Result.error result) then Result.error result else None;
     images :=
       match Result.images result with
       | Some (first :: rest) =>
           Some (map_indexed (format_image E showFull) (first :: rest) 0)
       | _ => None
       end;
     image_count :=
       match Result.images result with
       | Some (first :: rest) => Some (Z.of_nat (List.length (first :: rest)))
       | _ => None
       end;
     saved_files :=
       if nonempty (Result.saved_files result) then Result.saved_files result else None;
     usage := Result.usage result |}.

(** The string a [provider] argument is at run time. *)
Definition provider_tag (c : ProviderChoice) : string :=
  match c with
  | gemini => "gemini"
  | openrouter => "openrouter"
  | auto => "auto"
  end.

(** [provider.generateImage(args)] for the provider selected: each holds
    the key it read from the environment. *)
Definition generateImage_with (W : World) (this : Server.NanoBananaMCPServer)
    (selected : Server.ImageProvider) (args : ImageGenerationArgs)
  : M Result.GenerationResult :=
  match selected with
  | Server.geminiProvider =>
      Gemini.generateImage W (Server.GEMINI_API_KEY this) args
  | Server.openRouterProvider =>
      OpenRouter.generateImage W (Server.OPENROUTER_API_KEY this) args
  end.

Definition with_saved_files (result : Result.GenerationResult)
    (savedFiles : list string) : Result.GenerationResult :=
  {| Result.success := Result.success result;
     Result.provider := Result.provider result;
     Result.model := Result.model result;
     Result.prompt := Result.prompt result;
     Result.enhanced_prompt := Result.enhanced_prompt result;
     Result.message := Result.message result;
     Result.images := Result.images result;
     Result.saved_files := Some savedFiles;
     Result.usage := Result.usage result;
     Result.error := Result.error result |}.

Definition wants_saving (args : ImageGenerationArgs)
    (result : Result.GenerationResult) : bool :=
  match save_to_file args with Some b => b | None => false end
  && Result.success result && nonempty (Result.images result).

(** [handleGenerateImage], up to the object that is serialized into the
    reply. *)
Definition handleGenerateImage (W : World) (this : Server.NanoBananaMCPServer)
    (args : ImageGenerationArgs) : M Response :=
  match Server.selectProvider this (option_map provider_tag (Types.provider args)) with
  | None =>
      throw {| Exn.message :=
                 "No image generation provider is available. Please set either GEMINI_API_KEY or OPENROUTER_API_KEY environment variable." |}
  | Some selected =>
      result <- generateImage_with W this selected args ;;
      result <-
        (if wants_saving args result then
           savedFiles <-
             Utils.saveImages W
               (match Result.images result with Some l => l | None => [] end)
               (or_else (filename args) "nanobanana") ;;
           ret (with_saved_files result savedFiles)
         else ret result) ;;
      ret (formatResponse (engine W) result (show_full_response args))
  end.

End Index.

(* ===================================================================== *)
(** * Well-formed inputs and answers                                      *)
(* ===================================================================== *)

Module Shapes.
Import JS Json Exn Eff World AspectRatio Types Http Patterns.

(** A character a MIME type is written with: no semicolon and no line
    terminator. *)
Definition in_mime (c : ascii) : bool :=
  negb (Ascii.eqb c ";") && negb (is_line_terminator c).

(** The data URI of a payload. *)
Definition data_uri (mime payload : string) : string :=
  "data:" ++ mime ++ ";base64," ++ payload.

Definition get_request (url : string) : Request :=
  {| Http.url := url; method := "GET"; headers := []; body := no_body |}.

Definition is_post (ev : event) : bool :=
  match ev with
  | Fetched r => String.eqb (method r) "POST"
  | _ => false
  end.

Definition no_post (evs : trace) : bool := forallb (fun ev => negb (is_post ev)) evs.

(** The events a computation adds, none of them a POST. *)
Definition adds_no_post {A} (m : M A) : Prop :=
  forall tr, exists evs, snd (m tr) = (tr ++ evs)%list /\ no_post evs = true.

(** What every result of an adapter looks like: it echoes the prompt as it
    was given; a success carries a list of images, a message and no error;
    a failure carries the error and neither images, message nor usage. *)
Definition result_well_formed (args : ImageGenerationArgs)
    (r : Result.GenerationResult) : Prop :=
  Result.prompt r = prompt args
  /\ Result.enhanced_prompt r = None
  /\ Result.saved_files r = None
  /\ if Result.success r
     then Result.error r = None
          /\ (exists found, Result.images r = Some found)
          /\ truthy (Result.message r) = true
     else Result.images r = None /\ Result.message r = None
          /\ Result.usage r = None
          /\ exists text, Result.error r = Some text.

(** ** Numbers *)

(** The mantissa and the exponent of an integer below 2^53: its digits,
    shifted to fill the 53 bits. *)
Definition normal_form (p : positive) : positive * Z :=
  shl_align p 0 (Z.pos (digits2_pos p) - 53).

(** ** Answers of the direct backend *)

(** A part of a candidate: text, or an image with or without its MIME
    type. *)
Inductive ResponsePart : Type :=
| said (text : string)
| drew (mime : option string) (data : string).

Definition part_json (p : ResponsePart) : Json.json :=
  match p with
  | said t => JObj [("text", JStr t)]
  | drew m d =>
      JObj [("inline_data",
             JObj (match m with
                   | Some m => [("mime_type", JStr m); ("data", JStr d)]
                   | None => [("data", JStr d)]
                   end))]
  end.

Definition candidate_json (parts : list ResponsePart) : Json.json :=
  JObj [("content", JObj [("parts", JArr (map part_json parts))])].

Definition candidates_json (candidates : list (list ResponsePart)) : Json.json :=
  JObj [("candidates", JArr (map candidate_json candidates))].

(** The image the direct provider makes of a part. *)
Definition images_of_part (p : ResponsePart) : list Image.GeneratedImage :=
  match p with
  | said _ => []
  | drew m d =>
      [{| Image.type := Image.type_base64;
          Image.data := Some (data_uri (or_else m "image/png") d);
          Image.url := None;
          Image.size := None;
          Image.format :=
            Some (or_else (match m with Some s => split_slash_1 s | None => None end)
                          "png") |}]
  end.

(** ** Answers of the chat backend *)

Definition image_json (url : string) : Json.json :=
  JObj [("image_url", JObj [("url", JStr url)])].

(** A message with a list of images and, possibly, a text. *)
Definition message_json (urls : list string) (content : option string) : Json.json :=
  JObj (("images", JArr (map image_json urls))
        :: match content with
           | Some c => [("content", JStr c)]
           | None => []
           end).

(** The image the chat provider makes of a URL. *)
Definition image_of_url (url : string) : Image.GeneratedImage :=
  if startsWith url "data:" then
    {| Image.type := Image.type_base64; Image.data := Some url; Image.url := None;
       Image.size := None; Image.format := Some (OpenRouter.format_of url) |}
  else
    {| Image.type := Image.type_url; Image.data := None; Image.url := Some url;
       Image.size := None; Image.format := None |}.

(** ** Images as the providers make them *)

Definition is_none {A : Type} (x : option A) : bool :=
  match x with None => true | Some _ => false end.

(** An inline image carries a data URI and a format, a remote one its URL
    and nothing else; neither has a size. *)
Definition well_formed_image (img : Image.GeneratedImage) : bool :=
  match Image.type img with
  | Image.type_base64 =>
      startsWith (to_key (Image.data img)) "data:" && truthy_opt (Image.data img)
      && is_none (Image.url img) && truthy_opt (Image.format img)
  | Image.type_url =>
      truthy_opt (Image.url img) && is_none (Image.data img)
      && is_none (Image.format img)
  end
  && is_none (Image.size img).

(** ** Entries of a reply *)

Definition is_unchanged (entry : Index.FormattedImage) : bool :=
  match entry with Index.unchanged _ => true | _ => false end.

(** The text of the image an entry of a reply carries. *)
Definition carried (entry : Index.FormattedImage) : option string :=
  match entry with
  | Index.full_entry _ data _ _ => Some data
  | Index.preview_entry _ _ _ preview => Some preview
  | Index.url_entry _ _ => None
  | Index.unchanged img => Image.data img
  end.

(** The number an entry of a reply is given. *)
Definition index_of (entry : Index.FormattedImage) : option Z :=
  match entry with
  | Index.full_entry i _ _ _ | Index.preview_entry i _ _ _ | Index.url_entry i _ => Some i
  | Index.unchanged _ => None
  end.

(** The server with the two keys as the environment has them. *)
Definition server (gemini_key openrouter_key : option string)
  : Server.NanoBananaMCPServer :=
  {| Server.GEMINI_API_KEY := gemini_key;
     Server.OPENROUTER_API_KEY := openrouter_key |}.

Definition no_provider : Error :=
  {| message := "No image generation provider is available. Please set either GEMINI_API_KEY or OPENROUTER_API_KEY environment variable." |}.


(** No provider can serve the request: the one it names has no key, or,
    when it names none or [auto], neither has. *)
Definition unavailable (this : Server.NanoBananaMCPServer)
    (args : ImageGenerationArgs) : bool :=
  match Types.provider args with
  | Some gemini => negb (Gemini.isAvailable (Server.GEMINI_API_KEY this))
  | Some openrouter => negb (OpenRouter.isAvailable (Server.OPENROUTER_API_KEY this))
  | Some auto | None =>
      negb (Gemini.isAvailable (Server.GEMINI_API_KEY this))
      && negb (OpenRouter.isAvailable (Server.OPENROUTER_API_KEY this))
  end.


(** ** Canvases *)

(** The names the table of ratios gives its descriptors. *)
Definition table_names : list string :=
  ["square"; "landscape"; "portrait"; "4:3"; "3:4"; "widescreen"; "ultrawide";
   "panoramic"].

Definition is_integer (x : number) (z : Z) : bool :=
  match to_Z x with
  | Some v => v =? z
  | None => false
  end.

Definition has_side_1024 (c : AspectRatioConfig) : bool :=
  is_integer (width c) 1024 || is_integer (height c) 1024.


(** ** Files *)

(** A computation that writes no file. *)
Definition keeps_files {A : Type} (m : M A) : Prop :=
  forall tr, Contract.written (snd (m tr)) = Contract.written tr.

(** The files a reply lists. *)
Definition listed_files (reply : Index.Response) : list string :=
  match Index.saved_files reply with
  | Some files => files
  | None => []
  end.

End Shapes.

(* ===================================================================== *)
(** * More concrete worlds and requests                                   *)
(* ===================================================================== *)

Module Cases.
Import JS Json Exn Eff World AspectRatio Types Http.

(** A world like [Sample.serving] in which no file can be read. *)
Definition unreadable : World :=
  {| World.engine := Sample.engine;
     fetch_ := fetch_ Sample.serving;
     readImageFileAsBase64_ := fun _ p =>
       inl {| message := "ENOENT: no such file or directory, open '" ++ p ++ "'" |};
     Jimp_canvas := Jimp_canvas Sample.serving;
     Buffer_to_base64 := Buffer_to_base64 Sample.serving;
     Buffer_from_base64 := Buffer_from_base64 Sample.serving;
     Date_toISOString := Date_toISOString Sample.serving;
     fs_mkdir := fs_mkdir Sample.serving;
     fs_writeFile := fs_writeFile Sample.serving;
     path_join := path_join Sample.serving |}.

Definition with_path : ImageGenerationArgs :=
  Sample.args "p" (Some [Sample.by_path]) None.

Definition jpeg_uri : ImageInput :=
  Sample.image None None (Some "data:image/jpeg;base64,QUJD").

Definition by_url : ImageInput :=
  Sample.image None (Some "https://example.org/a.png") None.


(** An answer of the direct backend with a text and a picture. *)
Definition drawn : Json.json :=
  Shapes.candidates_json
    [[Shapes.said "Here it is."; Shapes.drew (Some "image/jpeg") "QUJD"]].

(** An answer of the chat backend with a picture and a link. *)
Definition chat_drawn : Json.json :=
  JObj [("choices",
         JArr [JObj [("message",
                      Shapes.message_json
                        ["data:image/jpeg;base64,QUJD"; "https://example.org/b.png"]
                        None)]])].

(** The pictures of the two answers. *)
Definition jpeg_picture : Image.GeneratedImage :=
  Shapes.image_of_url "data:image/jpeg;base64,QUJD".

Definition linked_picture : Image.GeneratedImage :=
  Shapes.image_of_url "https://example.org/b.png".


(** A successful result of the chat provider with the two pictures. *)
Definition two_pictures : Result.GenerationResult :=
  {| Result.success := true;
     Result.provider := "OpenRouter";
     Result.model := OpenRouter.GEMINI_MODEL;
     Result.prompt := "a red circle";
     Result.enhanced_prompt := None;
     Result.message := Some (JStr "Image generated successfully");
     Result.images := Some [jpeg_picture; linked_picture];
     Result.saved_files := None;
     Result.usage := None;
     Result.error := None |}.

(** A world like [Sample.replying drawn] in which no directory can be
    made. *)
Definition read_only : World :=
  {| World.engine := Sample.engine;
     fetch_ := fetch_ (Sample.replying drawn);
     readImageFileAsBase64_ := readImageFileAsBase64_ Sample.serving;
     Jimp_canvas := Jimp_canvas Sample.serving;
     Buffer_to_base64 := Buffer_to_base64 Sample.serving;
     Buffer_from_base64 := Buffer_from_base64 Sample.serving;
     Date_toISOString := Date_toISOString Sample.serving;
     fs_mkdir := fun _ dir =>
       inl {| message := "EACCES: permission denied, mkdir '" ++ dir ++ "'" |};
     fs_writeFile := fs_writeFile Sample.serving;
     path_join := path_join Sample.serving |}.

(** A request that asks for the images to be saved. *)
Definition saving : ImageGenerationArgs :=
  {| prompt := "a red circle"; images := None; provider := None; scenario := None;
     aspect_ratio := None; negative_prompt := None; save_to_file := Some true;
     filename := None; show_full_response := None; sample_count := None |}.

(** A request that names the direct provider. *)
Definition asking_gemini : ImageGenerationArgs :=
  {| prompt := "a red circle"; images := None; provider := Some gemini;
     scenario := None; aspect_ratio := None; negative_prompt := None;
     save_to_file := None; filename := None; show_full_response := None;
     sample_count := None |}.

End Cases.

(* ===================================================================== *)
(** * Properties                                                          *)
(* ===================================================================== *)

Import JS Json Exn Eff World AspectRatio Types Http Patterns Contract.

(** ** Strings *)

Lemma append_assoc (a b c : string) : (a ++ b) ++ c = a ++ (b ++ c).
Proof.
  induction a as [| ch a IH]; simpl.
  - reflexivity.
  - now rewrite IH.
Qed.


(** ** The choice of a provider *)

(** C5. [selectProvider] returns [null] when neither key is configured;
    a preference that names a backend returns that backend exactly when its
    key is configured, whatever the other key, and never the other backend;
    under ['auto'] or without a preference Gemini comes before OpenRouter,
    and the only available backend is returned when there is only one. *)
Theorem selectProvider_spec (this : Server.NanoBananaMCPServer) :
  (forall preference,
      Gemini.isAvailable (Server.GEMINI_API_KEY this) = false ->
      OpenRouter.isAvailable (Server.OPENROUTER_API_KEY this) = false ->
      Server.selectProvider this preference = None)
  /\ Server.selectProvider this (Some "gemini")
     = (if Gemini.isAvailable (Server.GEMINI_API_KEY this)
        then Some Server.geminiProvider else None)
  /\ Server.selectProvider this (Some "openrouter")
     = (if OpenRouter.isAvailable (Server.OPENROUTER_API_KEY this)
        then Some Server.openRouterProvider else None)
  /\ (forall preference,
         preference = Some "auto" \/ preference = None ->
         Server.selectProvider this preference
         = if Gemini.isAvailable (Server.GEMINI_API_KEY this)
           then Some Server.geminiProvider
           else if OpenRouter.isAvailable (Server.OPENROUTER_API_KEY this)
                then Some Server.openRouterProvider
                else None).
Proof.
  unfold Server.selectProvider.
  split; [| split; [| split]].
  - intros preference Hg Ho. rewrite Hg, Ho.
    rewrite !andb_false_r. now destruct (_ || _).
  - cbn. now destruct (Gemini.isAvailable _).
  - cbn. now destruct (OpenRouter.isAvailable _).
  - intros preference [-> | ->]; cbn; destruct (Gemini.isAvailable _); cbn;
      reflexivity.
Qed.

Lemma selectProvider_spec_witness :
  Server.selectProvider
    {| Server.GEMINI_API_KEY := None; Server.OPENROUTER_API_KEY := Some "" |}
    (Some "openrouter") = None
  /\ Server.selectProvider
       {| Server.GEMINI_API_KEY := Some "k1"; Server.OPENROUTER_API_KEY := Some "k2" |}
       (Some "auto") = Some Server.geminiProvider.
Proof.
  split.
  - apply (proj1 (selectProvider_spec
                    {| Server.GEMINI_API_KEY := None;
                       Server.OPENROUTER_API_KEY := Some "" |}));
      reflexivity.
  - apply (proj2 (proj2 (proj2 (selectProvider_spec
                    {| Server.GEMINI_API_KEY := Some "k1";
                       Server.OPENROUTER_API_KEY := Some "k2" |}))) (Some "auto")).
    left; reflexivity.
Defined.

(** ** The aspect-ratio resolver *)

(** Every named token resolves to the size its table entry gives; the
    lookup ignores case and surrounding blanks. *)
Lemma parseAspectRatio_named :
  map (fun token => resolved_size (parseAspectRatio (Some token)))
      [ "square"; "1:1"; "landscape"; "16:9"; "portrait"; "9:16"; "4:3"; "3:4";
        "widescreen"; "16:10"; "ultrawide"; "21:9"; "panoramic"; "2:1";
        " Square "; "LANDSCAPE" ]
  = map Some
      [ (1024, 1024); (1024, 1024); (1024, 576); (1024, 576); (576, 1024);
        (576, 1024); (1024, 768); (768, 1024); (1024, 640); (1024, 640);
        (1024, 439); (1024, 439); (1024, 512); (1024, 512);
        (1024, 1024); (1024, 576) ].
Proof. vm_compute. reflexivity. Qed.

(** A token that is neither a key found by the lookup nor of the form
    digits, colon, digits gives [null]; so does a missing or empty one. *)
Lemma parseAspectRatio_unrecognized (ratio : string) :
  get ASPECT_RATIOS (trim (toLowerCase ratio)) = Absent ->
  match_ratio ratio = None ->
  parseAspectRatio (Some ratio) = None.
Proof.
  intros Hget Hmatch. unfold parseAspectRatio.
  destruct (negb (truthy_string ratio)); [reflexivity |].
  now rewrite Hget, Hmatch.
Qed.

Lemma parseAspectRatio_absent :
  parseAspectRatio None = None /\ parseAspectRatio (Some "") = None
  /\ parseAspectRatio (Some "wide") = None /\ parseAspectRatio (Some "16x9") = None
  /\ parseAspectRatio (Some " 5:4") = None.
Proof. vm_compute. repeat split. Qed.

(** Custom ratios away from the ties: the larger side is 1024 and the
    other is the rounded quotient. *)
Lemma parseAspectRatio_custom_samples :
  map (fun token => resolved_size (parseAspectRatio (Some token)))
      [ "5:4"; "4:5"; "3:2"; "2:3"; "7:7"; "1:3"; "93:2048" ]
  = map Some
      [ (1024, 819); (819, 1024); (1024, 683); (683, 1024); (1024, 1024);
        (341, 1024); (47, 1024) ].
Proof. vm_compute. reflexivity. Qed.

(** Every token [a:b] with [a] and [b] from 1 to 32 resolves to the size
    stated: the named ones through the table, the others through the
    quotient. *)
Lemma parseAspectRatio_upto_32 :
  forallb (fun a => forallb (resolves_as_stated a) (upto 32)) (upto 32) = true.
Proof. vm_compute. reflexivity. Qed.

(** C2, where the code departs from it. The lookup [ASPECT_RATIOS[normalized]]
    also finds what every object inherits: for the token [constructor] (and
    [__proto__]) the resolver returns that member, not [null]. And on the
    landscape side the quotient is rounded twice: for [2048:93] the height
    is 46, whereas 1024 * 93 / 2048 = 46.5 rounds to 47 (as the portrait
    side does for [93:2048]). *)
Theorem parseAspectRatio_departures :
  parseAspectRatio (Some "constructor") = Some (Member "constructor")
  /\ parseAspectRatio (Some "__proto__") = Some (Member "__proto__")
  /\ resolved_size (parseAspectRatio (Some "2048:93")) = Some (1024, 46)
  /\ stated_size 2048 93 = (1024, 47)
  /\ resolved_size (parseAspectRatio (Some "93:2048")) = Some (47, 1024).
Proof. vm_compute. repeat split. Qed.

(** ** The prompt *)




(** ** Computations that leave no event *)

Lemma quiet_ret {A} (a : A) : quiet (ret a).
Proof. now intros tr. Qed.

Lemma quiet_throw {A} (e : Error) : quiet (@throw A e).
Proof. now intros tr. Qed.

Lemma quiet_lift {A} (r : Error + A) : quiet (lift r).
Proof. now intros tr. Qed.

Lemma quiet_lift_js {A} (E : Engine) (r : type_error + A) : quiet (lift_js E r).
Proof. destruct r; [apply quiet_throw | apply quiet_ret]. Qed.

Lemma quiet_bind {A B} (m : M A) (k : A -> M B) :
  quiet m -> (forall a, quiet (k a)) -> quiet (bind m k).
Proof.
  intros Hm Hk tr. unfold bind.
  specialize (Hm tr). destruct (m tr) as [[e | a] tr']; simpl in *; subst.
  - reflexivity.
  - apply Hk.
Qed.

Lemma quiet_for_of {A S} (items : list A) (body : S -> A -> M S) :
  (forall s x, quiet (body s x)) -> forall s, quiet (Provider.for_of items body s).
Proof.
  intros Hbody. induction items as [| x rest IH]; intros s; simpl.
  - apply quiet_ret.
  - apply quiet_bind; [apply Hbody | intros s'; apply IH].
Qed.

Lemma quiet_if {A} (b : bool) (m1 m2 : M A) :
  quiet m1 -> quiet m2 -> quiet (if b then m1 else m2).
Proof. now destruct b. Qed.

Ltac quiet_step :=
  first [ apply quiet_ret | apply quiet_throw | apply quiet_lift
        | apply quiet_lift_js
        | apply quiet_bind; [| intros ?]
        | apply quiet_for_of; intros ? ?
        | apply quiet_if ].

Ltac be_quiet :=
  repeat (quiet_step
          || match goal with
             | |- quiet (match ?x with _ => _ end) => destruct x
             end).

Lemma quiet_eq {A} (m : M A) (tr : trace) (r : Error + A) (tr' : trace) :
  quiet m -> m tr = (r, tr') -> tr' = tr.
Proof. intros Hq Heq. specialize (Hq tr). rewrite Heq in Hq. exact Hq. Qed.

Lemma Gemini_push_part_quiet E found part : quiet (Gemini.push_part E found part).
Proof. unfold Gemini.push_part. be_quiet. Qed.

Lemma Gemini_push_candidate_quiet E found candidate :
  quiet (Gemini.push_candidate E found candidate).
Proof.
  unfold Gemini.push_candidate. be_quiet.
Qed.

Lemma Gemini_extract_images_quiet E data : quiet (Gemini.extract_images E data).
Proof.
  unfold Gemini.extract_images. be_quiet.
Qed.

Lemma Gemini_usage_of_quiet E data : quiet (Gemini.usage_of E data).
Proof. unfold Gemini.usage_of. be_quiet. Qed.

Lemma Gemini_read_response_quiet W args response :
  quiet (Gemini.read_response W args response).
Proof.
  unfold Gemini.read_response. be_quiet.
Qed.

Lemma OpenRouter_push_image_quiet E found img :
  quiet (OpenRouter.push_image E found img).
Proof. unfold OpenRouter.push_image. be_quiet. Qed.

Lemma OpenRouter_from_content_quiet E content :
  quiet (OpenRouter.from_content E content).
Proof. unfold OpenRouter.from_content. be_quiet. Qed.

Lemma OpenRouter_extract_images_quiet E message :
  quiet (OpenRouter.extract_images E message).
Proof.
  unfold OpenRouter.extract_images. be_quiet.
Qed.

Lemma OpenRouter_usage_of_quiet E data : quiet (OpenRouter.usage_of E data).
Proof. unfold OpenRouter.usage_of. be_quiet. Qed.

Lemma OpenRouter_first_message_quiet E data : quiet (OpenRouter.first_message E data).
Proof. unfold OpenRouter.first_message. be_quiet. Qed.

Lemma OpenRouter_read_response_quiet W args response :
  quiet (OpenRouter.read_response W args response).
Proof.
  unfold OpenRouter.read_response. be_quiet.
Qed.

(** ** Which source of a reference image is used *)

Ltac run_eff :=
  unfold bind, try_catch, ret, throw, lift, history, emit, console_error in *;
  simpl in *.

Lemma Gemini_push_reference_inline W parts image tr :
  truthy_opt (base64 image) = true ->
  Gemini.push_reference W parts image tr
  = (inr (Provider.push parts
            (inline_data (or_else (mimeType image) "image/png")
                         (strip_data_uri (to_key (base64 image))))), tr).
Proof. intros Hb. unfold Gemini.push_reference. now rewrite Hb. Qed.

Lemma Gemini_push_reference_path W parts image tr :
  truthy_opt (base64 image) = false ->
  truthy_opt (path image) = true ->
  Gemini.push_reference W parts image tr
  = match readImageFileAsBase64_ W tr (to_key (path image)) with
    | inr d =>
        (inr (Provider.push parts
                (inline_data (or_else (mimeType image) (file_mimeType d))
                             (file_base64 d))),
         (tr ++ [FileRead (to_key (path image))])%list)
    | inl e => (inl e, (tr ++ [FileRead (to_key (path image))])%list)
    end.
Proof.
  intros Hb Hp. unfold Gemini.push_reference. rewrite Hb, Hp.
  unfold readImageFileAsBase64. run_eff.
  now destruct (readImageFileAsBase64_ W tr (to_key (path image))).
Qed.

(** C7, as the code has it. When a reference image carries more than one
    source, the direct provider takes the inline base64 data first, then the
    local path, then the URL; an image without any of them adds no part. *)
Theorem Gemini_source_priority (W : World) (parts : list Part)
    (image : ImageInput) (tr : trace) :
  (truthy_opt (base64 image) = true ->
   Gemini.push_reference W parts image tr
   = (inr (Provider.push parts
             (inline_data (or_else (mimeType image) "image/png")
                          (strip_data_uri (to_key (base64 image))))), tr))
  /\ (truthy_opt (base64 image) = false -> truthy_opt (path image) = true ->
      Gemini.push_reference W parts image tr
      = bind (readImageFileAsBase64 W (to_key (path image)))
             (fun imageData =>
                ret (Provider.push parts
                       (inline_data (or_else (mimeType image) (file_mimeType imageData))
                                    (file_base64 imageData)))) tr)
  /\ (truthy_opt (base64 image) = false -> truthy_opt (path image) = false ->
      truthy_opt (Types.url image) = true ->
      Gemini.push_reference W parts image tr
      = bind (Gemini.fetchImageAsBase64 W (to_key (Types.url image)))
             (fun imageData =>
                ret (Provider.push parts
                       (inline_data (file_mimeType imageData) (file_base64 imageData)))) tr)
  /\ (truthy_opt (base64 image) = false -> truthy_opt (path image) = false ->
      truthy_opt (Types.url image) = false ->
      Gemini.push_reference W parts image tr = (inr parts, tr)).
Proof.
  unfold Gemini.push_reference.
  split; [| split; [| split]].
  - intros ->. reflexivity.
  - intros -> ->. reflexivity.
  - intros -> -> ->. reflexivity.
  - intros -> -> ->. reflexivity.
Qed.

(** An image with a path, a URL and inline data: the inline data is sent;
    the file (which holds other data) is not read and nothing is fetched. *)
Lemma Gemini_source_priority_witness :
  Gemini.push_reference Sample.serving [] Sample.by_all []
  = (inr [inline_data "image/png" "QUJD"], []).
Proof.
  apply (proj1 (Gemini_source_priority Sample.serving [] Sample.by_all [])).
  reflexivity.
Defined.

(** C7 as it was stated fails: with a path and inline data both set, the
    path does not come first. Reading the path would give the part
    [inline_data "image/jpeg" "RklMRQ=="]; the part built is the inline
    one, and the trace shows no file read. *)
Lemma Gemini_path_is_not_first :
  Gemini.push_reference Sample.serving [] Sample.by_path []
  = (inr [inline_data "image/jpeg" "RklMRQ=="], [FileRead "photo.png"])
  /\ Gemini.push_reference Sample.serving [] Sample.by_path_and_inline []
     = (inr [inline_data "image/png" "QUJD"], [])
  /\ Gemini.push_reference Sample.serving [] Sample.by_path_and_inline []
     <> Gemini.push_reference Sample.serving [] Sample.by_path [].
Proof.
  repeat split; try reflexivity.
  vm_compute. discriminate.
Qed.

(** ** A reference image given by path only *)

(** C10. For a reference image whose only source is a local path, the chat
    provider pushes no block, while the direct provider reads the file and
    pushes its data (or fails with the error of the read); so for the same
    request with that one image the chat payload counts one element and the
    direct payload two. *)
Theorem path_only_reference (W : World) (image : ImageInput) :
  truthy_opt (path image) = true ->
  truthy_opt (base64 image) = false ->
  truthy_opt (Types.url image) = false ->
  (forall content, OpenRouter.push_reference content image = content)
  /\ (forall parts tr,
         Gemini.push_reference W parts image tr
         = match readImageFileAsBase64_ W tr (to_key (path image)) with
           | inr d =>
               (inr (Provider.push parts
                       (inline_data (or_else (mimeType image) (file_mimeType d))
                                    (file_base64 d))),
                (tr ++ [FileRead (to_key (path image))])%list)
           | inl e => (inl e, (tr ++ [FileRead (to_key (path image))])%list)
           end)
  /\ (forall args tr d,
         images args = Some [image] ->
         readImageFileAsBase64_ W tr (to_key (path image)) = inr d ->
         exists content parts tr',
           OpenRouter.build_content W args None tr = (inr content, tr)
           /\ Gemini.build_parts W args None tr = (inr parts, tr')
           /\ List.length content = 1%nat /\ List.length parts = 2%nat).
Proof.
  intros Hp Hb Hu.
  assert (Hchat : forall content, OpenRouter.push_reference content image = content).
  { intros content. unfold OpenRouter.push_reference. now rewrite Hb, Hu. }
  assert (Hdirect := fun parts tr => Gemini_push_reference_path W parts image tr Hb Hp).
  split; [exact Hchat |]. split; [exact Hdirect |].
  intros args tr d Himgs Hread.
  unfold OpenRouter.build_content, Gemini.build_parts. rewrite Himgs.
  simpl fold_left. rewrite Hchat.
  simpl Provider.for_of. unfold bind at 1 2.
  rewrite Hdirect, Hread.
  eexists _, _, _. repeat split.
Qed.

Lemma path_only_reference_witness :
  OpenRouter.push_reference [text_block "p"] Sample.by_path = [text_block "p"]
  /\ Gemini.push_reference Sample.serving [text_part "p"] Sample.by_path []
     = (inr [text_part "p"; inline_data "image/jpeg" "RklMRQ=="],
        [FileRead "photo.png"]).
Proof.
  pose proof (path_only_reference Sample.serving Sample.by_path
                eq_refl eq_refl eq_refl) as [Hchat [Hdirect _]].
  split.
  - apply Hchat.
  - rewrite Hdirect. reflexivity.
Defined.

(** ** The canvas *)







(** ** The order of the outbound payload *)

Lemma generateLargeBlankImage_returns (W : World) (v : AspectValue) (tr : trace) :
  exists s tr', Provider.generateLargeBlankImage W v tr = (inr s, tr').
Proof.
  unfold Provider.generateLargeBlankImage. run_eff.
  destruct (Jimp_canvas W tr (width_of v) (height_of v)); eauto.
Qed.

Lemma Gemini_push_reference_cases W parts image tr r tr' :
  Gemini.push_reference W parts image tr = (inr r, tr') ->
  (usable_direct image = false /\ r = parts)
  \/ (usable_direct image = true
      /\ exists p, r = Provider.push parts p /\ part_of W image p).
Proof.
  unfold Gemini.push_reference, usable_direct, part_of.
  destruct (truthy_opt (base64 image)) eqn:Hb.
  { intros [= <- <-]. right. split; [reflexivity |]. eexists. split; [reflexivity |].
    left. auto. }
  destruct (truthy_opt (path image)) eqn:Hp.
  { unfold readImageFileAsBase64. run_eff.
    destruct (readImageFileAsBase64_ W tr (to_key (path image))) as [e | d] eqn:Hread;
      [discriminate |].
    intros [= <- <-]. right. split; [reflexivity |]. eexists. split; [reflexivity |].
    right; left. eauto 8. }
  destruct (truthy_opt (Types.url image)) eqn:Hu.
  { unfold Gemini.fetchImageAsBase64, fetch. run_eff.
    destruct (fetch_ W tr _) as [e | response] eqn:Hfetch; [discriminate |].
    destruct (ok response) eqn:Hok; simpl; [| discriminate].
    destruct (arrayBuffer response) as [e | bytes] eqn:Hbuf; [discriminate |].
    intros [= <- <-]. right. split; [reflexivity |]. eexists. split; [reflexivity |].
    right; right. repeat split; eauto 10. }
  intros [= <- <-]. left. auto.
Qed.

Lemma Gemini_for_of_references W imgs : forall parts tr r tr',
  Provider.for_of imgs (Gemini.push_reference W) parts tr = (inr r, tr') ->
  exists refs, r = (parts ++ refs)%list
               /\ Forall2 (part_of W) (filter usable_direct imgs) refs.
Proof.
  induction imgs as [| image rest IH]; intros parts tr r tr'; simpl.
  - intros [= <- <-]. exists []. split; [now rewrite app_nil_r | constructor].
  - unfold bind at 1.
    destruct (Gemini.push_reference W parts image tr) as [[e | parts1] tr1] eqn:Hpush;
      [discriminate |].
    intros Hrest. destruct (IH _ _ _ _ Hrest) as [refs [-> Hrefs]].
    destruct (Gemini_push_reference_cases _ _ _ _ _ _ Hpush)
      as [[-> ->] | [-> [p [-> Hp]]]].
    + exists refs. auto.
    + exists (p :: refs). split.
      * unfold Provider.push. now rewrite <- app_assoc.
      * now constructor.
Qed.

Lemma OpenRouter_fold_references imgs : forall content,
  fold_left OpenRouter.push_reference imgs content
  = (content ++ map block_of (filter usable_chat imgs))%list.
Proof.
  induction imgs as [| image rest IH]; intros content; simpl.
  - now rewrite app_nil_r.
  - rewrite IH. unfold OpenRouter.push_reference, usable_chat, block_of.
    destruct (truthy_opt (base64 image) || truthy_opt (Types.url image)); simpl.
    + unfold Provider.push. now rewrite <- app_assoc.
    + reflexivity.
Qed.

Lemma bind_returned {A B} (m : M A) (k : A -> M B) tr a tr1 :
  m tr = (inr a, tr1) -> bind m k tr = k a tr1.
Proof. intros H. unfold bind. now rewrite H. Qed.

Lemma bind_thrown {A B} (m : M A) (k : A -> M B) tr e tr1 :
  m tr = (inl e, tr1) -> bind m k tr = (inl e, tr1).
Proof. intros H. unfold bind. now rewrite H. Qed.

Lemma OpenRouter_build_content_shape W args cfg tr :
  exists content tr1 canvas,
    OpenRouter.build_content W args cfg tr = (inr content, tr1)
    /\ content
       = (text_block (OpenRouter.buildPrompt (engine W) args cfg)
          :: map block_of (filter usable_chat (references args)) ++ canvas)%list
    /\ match cfg with
       | Some _ => exists blank,
                     canvas = [image_url_block ("data:image/png;base64," ++ blank)]
       | None => canvas = []
       end.
Proof.
  unfold OpenRouter.build_content.
  set (text := text_block (OpenRouter.buildPrompt (engine W) args cfg)).
  assert (Hrefs :
    match images args with
    | Some imgs => fold_left OpenRouter.push_reference imgs [text]
    | None => [text]
    end = (text :: map block_of (filter usable_chat (references args)))%list).
  { unfold references. destruct (images args) as [imgs |]; [| reflexivity].
    now rewrite OpenRouter_fold_references. }
  rewrite Hrefs. clear Hrefs.
  destruct cfg as [config |].
  - destruct (generateLargeBlankImage_returns W config tr) as [blank [tr1 Hblank]].
    unfold OpenRouter.generateLargeBlankImage.
    rewrite (bind_returned _ _ _ _ _ Hblank).
    eexists _, tr1, [image_url_block ("data:image/png;base64," ++ blank)].
    repeat split; eauto.
  - eexists _, tr, []. repeat split. now rewrite app_nil_r.
Qed.

Lemma Gemini_build_parts_shape W args cfg tr parts tr1 :
  Gemini.build_parts W args cfg tr = (inr parts, tr1) ->
  exists refs canvas,
    parts = (text_part (Gemini.buildPrompt (engine W) args cfg) :: refs ++ canvas)%list
    /\ Forall2 (part_of W) (filter usable_direct (references args)) refs
    /\ match cfg with
       | Some _ => exists blank, canvas = [inline_data "image/png" blank]
       | None => canvas = []
       end.
Proof.
  unfold Gemini.build_parts.
  set (text := text_part (Gemini.buildPrompt (engine W) args cfg)).
  destruct (match images args with
            | Some imgs => Provider.for_of imgs (Gemini.push_reference W) [text]
            | None => ret [text]
            end tr) as [[e | parts0] tr0] eqn:Hloop.
  { rewrite (bind_thrown _ _ _ _ _ Hloop). discriminate. }
  rewrite (bind_returned _ _ _ _ _ Hloop).
  assert (Hrefs : exists refs,
    parts0 = (text :: refs)%list
    /\ Forall2 (part_of W) (filter usable_direct (references args)) refs).
  { unfold references. destruct (images args) as [imgs |].
    - destruct (Gemini_for_of_references _ _ _ _ _ _ Hloop) as [refs [-> Hrefs]].
      exists refs. auto.
    - injection Hloop as <- <-. exists []. split; [reflexivity | constructor]. }
  destruct Hrefs as [refs [-> Hrefs]].
  destruct cfg as [config |].
  - destruct (generateLargeBlankImage_returns W config tr0) as [blank [tr2 Hblank]].
    unfold Gemini.generateLargeBlankImage.
    rewrite (bind_returned _ _ _ _ _ Hblank).
    intros [= <- <-]. exists refs, [inline_data "image/png" blank].
    repeat split; eauto.
  - intros [= <- <-]. exists refs, [].
    repeat split; [now rewrite app_nil_r | assumption].
Qed.

Lemma OpenRouter_post_trace W key args content tr1 :
  snd (bind (fetch W (OpenRouter.request key content))
            (fun response => OpenRouter.read_response W args response) tr1)
  = (tr1 ++ [Fetched (OpenRouter.request key content)])%list.
Proof.
  unfold fetch. run_eff.
  destruct (fetch_ W tr1 _) as [e | response]; [reflexivity |].
  apply (OpenRouter_read_response_quiet W args response).
Qed.

Lemma Gemini_post_trace W key args parts tr1 :
  snd (bind (fetch W (Gemini.request key parts))
            (fun response => Gemini.read_response W args response) tr1)
  = (tr1 ++ [Fetched (Gemini.request key parts)])%list.
Proof.
  unfold fetch. run_eff.
  destruct (fetch_ W tr1 _) as [e | response]; [reflexivity |].
  apply (Gemini_read_response_quiet W args response).
Qed.

(** C3. In the payload of both providers the text part with the composed
    prompt comes first and alone; the reference images follow in the order
    they were given, those without a usable source left out; the canvas,
    present exactly when an aspect descriptor was resolved, comes last; and
    this payload is the one handed to the POST. The chat provider always
    gets that far; the direct provider does whenever reading and fetching
    its references succeeded. *)
Theorem payload_order (W : World) (key : string) (args : ImageGenerationArgs)
    (tr : trace) :
  (exists content tr1 canvas,
      OpenRouter.build_content W args (parseAspectRatio (aspect_ratio args)) tr
      = (inr content, tr1)
      /\ content
         = (text_block (OpenRouter.buildPrompt (engine W) args
                          (parseAspectRatio (aspect_ratio args)))
            :: map block_of (filter usable_chat (references args)) ++ canvas)%list
      /\ match parseAspectRatio (aspect_ratio args) with
         | Some _ => exists blank,
                       canvas = [image_url_block ("data:image/png;base64," ++ blank)]
         | None => canvas = []
         end
      /\ snd (OpenRouter.attempt W key args tr)
         = (tr1 ++ [Fetched (OpenRouter.request key content)])%list)
  /\ (forall parts tr1,
         Gemini.build_parts W args (parseAspectRatio (aspect_ratio args)) tr
         = (inr parts, tr1) ->
         exists refs canvas,
           parts
           = (text_part (Gemini.buildPrompt (engine W) args
                           (parseAspectRatio (aspect_ratio args)))
              :: refs ++ canvas)%list
           /\ Forall2 (part_of W) (filter usable_direct (references args)) refs
           /\ match parseAspectRatio (aspect_ratio args) with
              | Some _ => exists blank, canvas = [inline_data "image/png" blank]
              | None => canvas = []
              end
           /\ snd (Gemini.attempt W key args tr)
              = (tr1 ++ [Fetched (Gemini.request key parts)])%list).
Proof.
  split.
  - destruct (OpenRouter_build_content_shape W args
                (parseAspectRatio (aspect_ratio args)) tr)
      as [content [tr1 [canvas [Hbuild [Hshape Hcanvas]]]]].
    exists content, tr1, canvas. repeat split; try assumption.
    unfold OpenRouter.attempt. rewrite (bind_returned _ _ _ _ _ Hbuild).
    apply OpenRouter_post_trace.
  - intros parts tr1 Hbuild.
    destruct (Gemini_build_parts_shape _ _ _ _ _ _ Hbuild)
      as [refs [canvas [Hshape [Hrefs Hcanvas]]]].
    exists refs, canvas. repeat split; try assumption.
    unfold Gemini.attempt. rewrite (bind_returned _ _ _ _ _ Hbuild).
    apply Gemini_post_trace.
Qed.

Lemma payload_order_witness :
  exists parts tr1,
    Gemini.build_parts Sample.serving Sample.three
      (parseAspectRatio (aspect_ratio Sample.three)) [] = (inr parts, tr1)
    /\ (exists text file inline canvas,
          parts = [text_part text; inline_data "image/jpeg" file;
                   inline_data "image/png" inline; inline_data "image/png" canvas])
    /\ snd (Gemini.attempt Sample.serving "key" Sample.three [])
       = (tr1 ++ [Fetched (Gemini.request "key" parts)])%list.
Proof.
  eexists _, _. split; [vm_compute; reflexivity |].
  split; [eexists _, _, _, _; reflexivity |].
  destruct (proj2 (payload_order Sample.serving "key" Sample.three []) _ _ eq_refl)
    as [refs [canvas [_ [_ [_ Hsent]]]]].
  exact Hsent.
Defined.

(** ** Failures stay inside the adapters *)

Lemma try_catch_returns {A} (m : M A) (handler : Error -> A) (tr : trace) :
  returns (try_catch m (fun e => ret (handler e))) tr.
Proof.
  unfold returns, try_catch, ret.
  destruct (m tr) as [[e | a] tr']; eauto.
Qed.

Lemma try_catch_thrown {A} (m : M A) (handler : Error -> A) tr e tr' :
  m tr = (inl e, tr') ->
  try_catch m (fun e => ret (handler e)) tr = (inr (handler e), tr').
Proof. intros H. unfold try_catch. now rewrite H. Qed.

Lemma Gemini_keeps_failures_inside W key args tr :
  truthy_string key = true ->
  keeps_failures_inside (Gemini.generateImage W (Some key) args)
    (Gemini.failed args) (Gemini.read_response W args) "Gemini API error: "
    W (Gemini_post W key args tr) tr.
Proof.
  intros Hkey. unfold keeps_failures_inside, Gemini.generateImage, Gemini_post.
  rewrite Hkey.
  split; [apply try_catch_returns |].
  split; [intros e; repeat split |].
  unfold Gemini.attempt.
  destruct (Gemini.build_parts W args (parseAspectRatio (aspect_ratio args)) tr)
    as [[e0 | parts] tr0] eqn:Hbuild.
  - split; [| discriminate].
    intros e tr1 [= <- <-]. apply try_catch_thrown.
    now apply bind_thrown.
  - split; [discriminate |].
    intros request tr1 [= <- <-].
    destruct (fetch_ W tr0 (Gemini.request key parts)) as [e | response] eqn:Hfetch.
    + apply try_catch_thrown. rewrite (bind_returned _ _ _ _ _ Hbuild).
      unfold fetch. run_eff. now rewrite Hfetch.
    + split; [| split].
      * intros e tr2 Hread.
        pose proof (quiet_eq _ _ _ _ (Gemini_read_response_quiet W args response) Hread)
          as ->.
        apply try_catch_thrown. rewrite (bind_returned _ _ _ _ _ Hbuild).
        unfold fetch. run_eff. rewrite Hfetch. exact Hread.
      * intros Hok tr2. unfold Gemini.read_response. rewrite Hok. run_eff.
        now destruct (text response).
      * intros Hok e tr2 Hjson. unfold Gemini.read_response. rewrite Hok. run_eff.
        now rewrite Hjson.
Qed.

Lemma OpenRouter_keeps_failures_inside W key args tr :
  truthy_string key = true ->
  keeps_failures_inside (OpenRouter.generateImage W (Some key) args)
    (OpenRouter.failed args) (OpenRouter.read_response W args) "OpenRouter API error: "
    W (OpenRouter_post W key args tr) tr.
Proof.
  intros Hkey. unfold keeps_failures_inside, OpenRouter.generateImage, OpenRouter_post.
  rewrite Hkey.
  split; [apply try_catch_returns |].
  split; [intros e; repeat split |].
  unfold OpenRouter.attempt.
  destruct (OpenRouter.build_content W args (parseAspectRatio (aspect_ratio args)) tr)
    as [[e0 | content] tr0] eqn:Hbuild.
  - split; [| discriminate].
    intros e tr1 [= <- <-]. apply try_catch_thrown.
    now apply bind_thrown.
  - split; [discriminate |].
    intros request tr1 [= <- <-].
    destruct (fetch_ W tr0 (OpenRouter.request key content)) as [e | response] eqn:Hfetch.
    + apply try_catch_thrown. rewrite (bind_returned _ _ _ _ _ Hbuild).
      unfold fetch. run_eff. now rewrite Hfetch.
    + split; [| split].
      * intros e tr2 Hread.
        pose proof (quiet_eq _ _ _ _ (OpenRouter_read_response_quiet W args response) Hread)
          as ->.
        apply try_catch_thrown. rewrite (bind_returned _ _ _ _ _ Hbuild).
        unfold fetch. run_eff. rewrite Hfetch. exact Hread.
      * intros Hok tr2. unfold OpenRouter.read_response. rewrite Hok. run_eff.
        now destruct (text response).
      * intros Hok e tr2 Hjson. unfold OpenRouter.read_response. rewrite Hok. run_eff.
        now rewrite Hjson.
Qed.

(** C4, as the code has it. Called with its API key configured, the
    [generateImage] of each adapter never throws: a response that is not
    2xx, a failure of the network and an exception raised while the response
    is read are caught and come back as a result with [success] false and
    the message of what was thrown in [error]. (Without the key the call
    throws before the [try] block is entered.) *)
Theorem adapters_keep_failures_inside (W : World) (key : string)
    (args : ImageGenerationArgs) (tr : trace) :
  truthy_string key = true ->
  keeps_failures_inside (Gemini.generateImage W (Some key) args)
    (Gemini.failed args) (Gemini.read_response W args) "Gemini API error: "
    W (Gemini_post W key args tr) tr
  /\ keeps_failures_inside (OpenRouter.generateImage W (Some key) args)
       (OpenRouter.failed args) (OpenRouter.read_response W args)
       "OpenRouter API error: "
       W (OpenRouter_post W key args tr) tr.
Proof.
  intros Hkey. split.
  - now apply Gemini_keeps_failures_inside.
  - now apply OpenRouter_keeps_failures_inside.
Qed.

Lemma adapters_keep_failures_inside_witness :
  Gemini.generateImage Sample.rejecting (Some "key") Sample.plain []
  = (inr (Gemini.failed Sample.plain
            {| message := "Gemini API error: 400 - Bad Request" |}),
     [Fetched (Gemini.request "key" [text_part "a red circle"])])
  /\ OpenRouter.generateImage Sample.offline (Some "key") Sample.plain []
     = (inr (OpenRouter.failed Sample.plain {| message := "fetch failed" |}),
        [Fetched (OpenRouter.request "key" [text_block "a red circle"])]).
Proof.
  split.
  - destruct (adapters_keep_failures_inside Sample.rejecting "key" Sample.plain []
                eq_refl) as [[_ [_ [_ Hpost]]] _].
    destruct (Hpost _ _ eq_refl) as [Hread [Hnot_ok _]].
    apply Hread with (tr2 := [Fetched (Gemini.request "key" [text_part "a red circle"])]).
    rewrite (Hnot_ok eq_refl). reflexivity.
  - destruct (adapters_keep_failures_inside Sample.offline "key" Sample.plain []
                eq_refl) as [_ [_ [_ [_ Hpost]]]].
    exact (Hpost _ _ eq_refl).
Defined.

(** C4 as it was stated fails for an environment without the key: the
    guard before the [try] block throws, and nothing catches it. *)
Lemma generateImage_throws_without_key :
  Gemini.generateImage Sample.serving None Sample.plain []
  = (inl {| message := "GEMINI_API_KEY environment variable is not set" |}, [])
  /\ OpenRouter.generateImage Sample.serving None Sample.plain []
     = (inl {| message := "OPENROUTER_API_KEY environment variable is not set" |}, [])
  /\ ~ returns (Gemini.generateImage Sample.serving None Sample.plain) [].
Proof.
  repeat split. intros [r [tr' H]]. discriminate H.
Qed.

(** ** A response without images *)

Lemma get_prop_of_truthy what v key :
  truthy v = true -> exists r, get_prop what v key = inr r.
Proof.
  destruct v as [[| b | n | s | items | fields] |]; simpl; try discriminate; eauto.
Qed.

Lemma get_prop_again what v key r what' key' :
  get_prop what v key = inr r -> exists r', get_prop what' v key' = inr r'.
Proof.
  destruct v as [[| b | n | s | items | fields] |]; simpl; try discriminate; eauto.
Qed.

Lemma Gemini_usage_of_returns E data what key r :
  get_prop what (Some data) key = inr r ->
  exists u, forall tr, Gemini.usage_of E data tr = (inr u, tr).
Proof.
  intros Hdata. unfold Gemini.usage_of.
  destruct (get_prop_again _ _ _ _ "data" "usageMetadata" Hdata) as [meta ->].
  simpl lift_js.
  destruct (truthy meta) eqn:Hmeta.
  - destruct (get_prop_of_truthy "data.usageMetadata" meta "promptTokenCount" Hmeta)
      as [a Ha].
    destruct (get_prop_of_truthy "data.usageMetadata" meta "candidatesTokenCount" Hmeta)
      as [b Hb].
    destruct (get_prop_of_truthy "data.usageMetadata" meta "totalTokenCount" Hmeta)
      as [c Hc].
    eexists. intros tr. run_eff. rewrite Hmeta, Ha, Hb, Hc. reflexivity.
  - eexists. intros tr. run_eff. rewrite Hmeta. reflexivity.
Qed.

Lemma OpenRouter_usage_of_returns E data what key r :
  get_prop what (Some data) key = inr r ->
  exists u, forall tr, OpenRouter.usage_of E data tr = (inr u, tr).
Proof.
  intros Hdata. unfold OpenRouter.usage_of.
  destruct (get_prop_again _ _ _ _ "data" "usage" Hdata) as [usage ->].
  simpl lift_js.
  destruct (truthy usage) eqn:Husage.
  - destruct (get_prop_of_truthy "data.usage" usage "prompt_tokens" Husage) as [a Ha].
    destruct (get_prop_of_truthy "data.usage" usage "completion_tokens" Husage)
      as [b Hb].
    destruct (get_prop_of_truthy "data.usage" usage "total_tokens" Husage) as [c Hc].
    eexists. intros tr. run_eff. rewrite Husage, Ha, Hb, Hc. reflexivity.
  - eexists. intros tr. run_eff. rewrite Husage. reflexivity.
Qed.

Lemma lift_js_returned {A} E (r : type_error + A) tr a tr' :
  lift_js E r tr = (inr a, tr') -> r = inr a /\ tr' = tr.
Proof. destruct r; simpl; unfold throw, ret; intros [= -> ->]; auto. Qed.

Lemma Gemini_extract_images_reads E data tr found tr' :
  Gemini.extract_images E data tr = (inr found, tr') ->
  exists r, get_prop "data" (Some data) "candidates" = inr r.
Proof.
  unfold Gemini.extract_images, bind.
  destruct (lift_js E (get_prop "data" (Some data) "candidates") tr)
    as [[e | r] tr1] eqn:Hget; [discriminate |].
  destruct (lift_js_returned _ _ _ _ _ Hget) as [-> _]. eauto.
Qed.

Lemma OpenRouter_first_message_reads E data tr message tr' :
  OpenRouter.first_message E data tr = (inr message, tr') ->
  exists r, get_prop "data" (Some data) "choices" = inr r.
Proof.
  unfold OpenRouter.first_message, bind.
  destruct (lift_js E (get_prop "data" (Some data) "choices") tr)
    as [[e | r] tr1] eqn:Hget; [discriminate |].
  destruct (lift_js_returned _ _ _ _ _ Hget) as [-> _]. eauto.
Qed.

Lemma OpenRouter_extract_images_reads E message tr found tr' :
  OpenRouter.extract_images E message tr = (inr found, tr') ->
  exists r, get_prop "message" message "images" = inr r.
Proof.
  unfold OpenRouter.extract_images, bind.
  destruct (lift_js E (get_prop "message" message "images") tr)
    as [[e | r] tr1] eqn:Hget; [discriminate |].
  destruct (lift_js_returned _ _ _ _ _ Hget) as [-> _]. eauto.
Qed.

Lemma Gemini_read_response_ok W args response data tr :
  ok response = true -> json response = inr data ->
  Gemini.read_response W args response tr
  = bind (Gemini.extract_images (engine W) data)
         (fun images =>
            bind (Gemini.usage_of (engine W) data)
                 (fun usage =>
                    ret {| Result.success := true;
                           Result.provider := "Gemini Direct";
                           Result.model := "gemini-2.5-flash-image-preview";
                           Result.prompt := prompt args;
                           Result.enhanced_prompt := None;
                           Result.message := Some (JStr "Image generated successfully");
                           Result.images := Some images;
                           Result.saved_files := None;
                           Result.usage := usage;
                           Result.error := None |})) tr.
Proof.
  intros Hok Hjson. unfold Gemini.read_response. rewrite Hok, Hjson. reflexivity.
Qed.

Lemma OpenRouter_read_response_ok W args response data tr :
  ok response = true -> json response = inr data ->
  OpenRouter.read_response W args response tr
  = bind (OpenRouter.first_message (engine W) data)
         (fun message =>
            bind (OpenRouter.extract_images (engine W) message)
                 (fun images =>
                    bind (lift_js (engine W) (get_prop "message" message "content"))
                         (fun content =>
                            bind (OpenRouter.usage_of (engine W) data)
                                 (fun usage =>
                                    ret {| Result.success := true;
                                           Result.provider := "OpenRouter";
                                           Result.model := OpenRouter.GEMINI_MODEL;
                                           Result.prompt := prompt args;
                                           Result.enhanced_prompt := None;
                                           Result.message :=
                                             if truthy content then content
                                             else Some (JStr "Image generated successfully");
                                           Result.images := Some images;
                                           Result.saved_files := None;
                                           Result.usage := usage;
                                           Result.error := None |})))) tr.
Proof.
  intros Hok Hjson. unfold OpenRouter.read_response. rewrite Hok, Hjson. reflexivity.
Qed.

(** C8, as the code has it. When the response is 2xx and the adapter reads
    its body to the end without raising and finds no image, the result has
    [success] true, an empty list of images and no error. A body on which
    the reading raises (for the chat provider one without [choices[0]], for
    the direct provider the body [null]) is thrown out of the reading, and
    so ends as a failure result. *)
Theorem no_image_is_success (W : World) (args : ImageGenerationArgs)
    (response : Response) (data : Json.json) (tr : trace) :
  ok response = true ->
  json response = inr data ->
  (Gemini.extract_images (engine W) data tr = (inr [], tr) ->
   exists r, Gemini.read_response W args response tr = (inr r, tr)
             /\ Result.success r = true /\ Result.images r = Some []
             /\ Result.error r = None)
  /\ (forall message,
         OpenRouter.first_message (engine W) data tr = (inr message, tr) ->
         OpenRouter.extract_images (engine W) message tr = (inr [], tr) ->
         exists r, OpenRouter.read_response W args response tr = (inr r, tr)
                   /\ Result.success r = true /\ Result.images r = Some []
                   /\ Result.error r = None)
  /\ (forall e,
         Gemini.extract_images (engine W) data tr = (inl e, tr) ->
         Gemini.read_response W args response tr = (inl e, tr))
  /\ (forall e,
         OpenRouter.first_message (engine W) data tr = (inl e, tr) ->
         OpenRouter.read_response W args response tr = (inl e, tr)).
Proof.
  intros Hok Hjson. split; [| split; [| split]].
  - intros Hnone.
    destruct (Gemini_extract_images_reads _ _ _ _ _ Hnone) as [r0 Hdata].
    destruct (Gemini_usage_of_returns (engine W) _ _ _ _ Hdata) as [u Hu].
    rewrite (Gemini_read_response_ok _ _ _ _ _ Hok Hjson).
    rewrite (bind_returned _ _ _ _ _ Hnone).
    rewrite (bind_returned _ _ _ _ _ (Hu tr)).
    eexists. split; [reflexivity |]. repeat split.
  - intros message Hmessage Hnone.
    destruct (OpenRouter_first_message_reads _ _ _ _ _ Hmessage) as [r0 Hdata].
    destruct (OpenRouter_usage_of_returns (engine W) _ _ _ _ Hdata) as [u Hu].
    destruct (OpenRouter_extract_images_reads _ _ _ _ _ Hnone) as [r1 Hread].
    destruct (get_prop_again _ _ _ _ "message" "content" Hread) as [content Hcontent].
    rewrite (OpenRouter_read_response_ok _ _ _ _ _ Hok Hjson).
    rewrite (bind_returned _ _ _ _ _ Hmessage).
    rewrite (bind_returned _ _ _ _ _ Hnone).
    rewrite (bind_returned _ _ _ content tr
               (f_equal (fun r => lift_js (engine W) r tr) Hcontent)).
    rewrite (bind_returned _ _ _ _ _ (Hu tr)).
    eexists. split; [reflexivity |]. repeat split.
  - intros e Hraised.
    rewrite (Gemini_read_response_ok _ _ _ _ _ Hok Hjson).
    now rewrite (bind_thrown _ _ _ _ _ Hraised).
  - intros e Hraised.
    rewrite (OpenRouter_read_response_ok _ _ _ _ _ Hok Hjson).
    now rewrite (bind_thrown _ _ _ _ _ Hraised).
Qed.

Lemma no_image_is_success_witness :
  (exists r,
      Gemini.read_response (Sample.replying Sample.empty_object) Sample.plain
        (Sample.response true 200 (inr Sample.empty_object)) [] = (inr r, [])
      /\ Result.success r = true /\ Result.images r = Some []
      /\ Result.error r = None)
  /\ (exists r,
         OpenRouter.read_response (Sample.replying Sample.text_only_choice) Sample.plain
           (Sample.response true 200 (inr Sample.text_only_choice)) [] = (inr r, [])
         /\ Result.success r = true /\ Result.images r = Some []
         /\ Result.error r = None).
Proof.
  split.
  - apply (proj1 (no_image_is_success (Sample.replying Sample.empty_object)
                    Sample.plain (Sample.response true 200 (inr Sample.empty_object))
                    Sample.empty_object [] eq_refl eq_refl)).
    reflexivity.
  - apply (proj1 (proj2 (no_image_is_success (Sample.replying Sample.text_only_choice)
                           Sample.plain
                           (Sample.response true 200 (inr Sample.text_only_choice))
                           Sample.text_only_choice [] eq_refl eq_refl))
                 (Some (JObj [("content", JStr "I cannot draw that.")])));
      reflexivity.
Defined.

(** C8 as it was stated fails: a 2xx response whose body has an empty
    [choices] array yields no image, and the chat provider answers with a
    failure, [data.choices[0].message] having raised; the direct provider
    does the same on the body [null]. *)
Lemma empty_choices_is_failure :
  OpenRouter.generateImage (Sample.replying Sample.empty_choices) (Some "key")
    Sample.plain []
  = (inr (OpenRouter.failed Sample.plain
            {| message := "Cannot read properties of undefined (reading 'message')" |}),
     [Fetched (OpenRouter.request "key" [text_block "a red circle"])])
  /\ Result.success
       (OpenRouter.failed Sample.plain
          {| message := "Cannot read properties of undefined (reading 'message')" |})
     = false
  /\ Gemini.generateImage (Sample.replying JNull) (Some "key") Sample.plain []
     = (inr (Gemini.failed Sample.plain
               {| message := "Cannot read properties of null (reading 'candidates')" |}),
        [Fetched (Gemini.request "key" [text_part "a red circle"])]).
Proof. repeat split. Qed.

(** ** Saving the images *)

Lemma written_app (tr1 tr2 : trace) :
  written (tr1 ++ tr2)%list = (written tr1 ++ written tr2)%list.
Proof.
  induction tr1 as [| ev tr1 IH]; simpl; [reflexivity |].
  destruct ev as [| | | p b [|] |]; simpl; now rewrite IH.
Qed.

Lemma underscore_runs_safe (s : string) : forall in_run,
  all_chars is_safe (underscore_runs in_run s) = true.
Proof.
  induction s as [| c s IH]; intros in_run; simpl; [reflexivity |].
  destruct (is_safe c) eqn:Hc; simpl.
  - now rewrite Hc, IH.
  - destruct in_run; simpl; auto.
Qed.

Lemma substring_prefix_safe (p : ascii -> bool) (s : string) : forall n,
  all_chars p s = true -> all_chars p (String.substring 0 n s) = true.
Proof.
  induction s as [| c s IH]; intros [| n] H; simpl in *; try reflexivity.
  apply andb_prop in H as [Hc Hs]. now rewrite Hc, IH.
Qed.

Lemma substring_prefix_length (s : string) : forall n,
  (String.length (String.substring 0 n s) <= n)%nat.
Proof.
  induction s as [| c s IH]; intros [| n]; simpl; try lia.
  specialize (IH n). lia.
Qed.

Lemma sanitizeFilename_safe (filename : string) :
  all_chars is_safe (Utils.sanitizeFilename filename) = true
  /\ strlen (Utils.sanitizeFilename filename) <= 64.
Proof.
  unfold Utils.sanitizeFilename, slice0. split.
  - apply substring_prefix_safe, underscore_runs_safe.
  - unfold strlen at 1.
    pose proof (substring_prefix_length (underscore_runs false filename)
                  (Z.to_nat (Z.min 64 (strlen (underscore_runs false filename))))).
    lia.
Qed.

Lemma buffer_and_ext_writes_nothing W image tr r tr' :
  Utils.buffer_and_ext W image tr = (r, tr') -> written tr' = written tr.
Proof.
  unfold Utils.buffer_and_ext.
  destruct (Image.type image), (truthy_opt (Image.data image)),
    (truthy_opt (Image.url image)); unfold fetch; run_eff;
    try (intros [= <- <-]; reflexivity);
    (destruct (fetch_ W tr _) as [e | response];
     [| destruct (ok response); simpl; [destruct (arrayBuffer response) |]];
     intros [= <- <-]; rewrite written_app; simpl; now rewrite app_nil_r).
Qed.

Ltac step_eff :=
  cbv beta iota zeta
      delta [bind try_catch ret throw lift history emit console_error now writeFile].

Lemma turn_thrown W count baseFilename savedFiles i image tr e tr1 :
  Utils.save_one W count baseFilename savedFiles i image tr = (inl e, tr1) ->
  Utils.turn W count baseFilename savedFiles i image tr
  = (inr savedFiles, (tr1 ++ [ConsoleError (failure_note i) (Some e)])%list).
Proof. intros H. unfold Utils.turn, try_catch. rewrite H. reflexivity. Qed.

Lemma turn_returned W count baseFilename savedFiles i image tr s tr1 :
  Utils.save_one W count baseFilename savedFiles i image tr = (inr s, tr1) ->
  Utils.turn W count baseFilename savedFiles i image tr = (inr s, tr1).
Proof. intros H. unfold Utils.turn, try_catch. now rewrite H. Qed.

Lemma written_snoc_other tr ev :
  (forall p b, ev <> FileWritten p b true) ->
  written (tr ++ [ev])%list = written tr.
Proof.
  intros Hev. rewrite written_app. simpl.
  destruct ev as [| | | p b [|] |]; try apply app_nil_r.
  now destruct (Hev p b).
Qed.

Lemma written_snoc_file tr p b :
  written (tr ++ [FileWritten p b true])%list = (written tr ++ [p])%list.
Proof. now rewrite written_app. Qed.

Lemma numbered_weaken W count baseFilename lo lo' paths :
  (lo' <= lo)%nat ->
  numbered W count baseFilename lo paths -> numbered W count baseFilename lo' paths.
Proof.
  intros Hle Hn. destruct Hn as [lo | lo i timestamp ext rest Hi Hrest].
  - constructor.
  - constructor; [lia | assumption].
Qed.

(** The [try] block of one turn: it writes at most one file, and returns
    the list extended with its path exactly when it wrote it. *)
Lemma save_one_spec W count baseFilename savedFiles i image tr :
  (i < count)%nat ->
  exists saved r tr',
    Utils.save_one W count baseFilename savedFiles i image tr = (r, tr')
    /\ written tr' = (written tr ++ saved)%list
    /\ (saved = []
        \/ exists timestamp ext,
             saved = [saved_path W count baseFilename (S i) timestamp ext])
    /\ match r with
       | inr s => s = (savedFiles ++ saved)%list
       | inl _ => saved = []
       end.
Proof.
  intros Hi. unfold Utils.save_one.
  destruct (Utils.buffer_and_ext W image tr) as [[e | found] tr1] eqn:Hfound;
    pose proof (buffer_and_ext_writes_nothing _ _ _ _ _ Hfound) as Hsame.
  - exists [], (inl e), tr1. rewrite (bind_thrown _ _ _ _ _ Hfound).
    rewrite app_nil_r. auto.
  - rewrite (bind_returned _ _ _ _ _ Hfound).
    destruct found as [[buffer ext] |].
    + step_eff.
      set (filepath := path_join W Utils.outputDir _).
      destruct (fs_writeFile W tr1 filepath buffer) as [e | []].
      * exists [], (inl e). eexists. split; [reflexivity |].
        rewrite written_snoc_other by discriminate.
        rewrite app_nil_r. auto.
      * exists [filepath], (inr (Provider.push savedFiles filepath)). eexists.
        split; [reflexivity |].
        rewrite written_snoc_other by discriminate.
        rewrite written_snoc_file, Hsame.
        repeat split. right.
        exists (dash_colons_and_dots (Date_toISOString W tr1)), ext.
        unfold filepath, saved_path, Utils.filename_of.
        replace (Z.of_nat (S i)) with (Z.of_nat i + 1) by lia.
        destruct (1 <? Z.of_nat count); [| reflexivity].
        now rewrite !append_assoc.
    + exists [], (inr savedFiles), tr1. rewrite !app_nil_r. auto.
Qed.

(** One turn of the loop returns; it adds at most one path, the one it
    wrote. *)
Lemma turn_spec W count baseFilename savedFiles i image tr :
  (i < count)%nat ->
  exists saved tr',
    Utils.turn W count baseFilename savedFiles i image tr
    = (inr (savedFiles ++ saved)%list, tr')
    /\ written tr' = (written tr ++ saved)%list
    /\ (saved = []
        \/ exists timestamp ext,
             saved = [saved_path W count baseFilename (S i) timestamp ext]).
Proof.
  intros Hi.
  destruct (save_one_spec W count baseFilename savedFiles i image tr Hi)
    as [saved [[e | s] [tr1 [Hrun [Hw [Hs Hr]]]]]]; subst.
  - exists [], (tr1 ++ [ConsoleError (failure_note i) (Some e)])%list.
    rewrite (turn_thrown _ _ _ _ _ _ _ _ _ Hrun).
    rewrite written_snoc_other by discriminate.
    rewrite app_nil_r in Hw. rewrite !app_nil_r. auto.
  - exists saved, tr1. rewrite (turn_returned _ _ _ _ _ _ _ _ _ Hrun). auto.
Qed.

Lemma loop_spec W count baseFilename rest : forall i savedFiles tr,
  (i + List.length rest <= count)%nat ->
  exists saved tr',
    Utils.loop W count baseFilename rest i savedFiles tr
    = (inr (savedFiles ++ saved)%list, tr')
    /\ written tr' = (written tr ++ saved)%list
    /\ numbered W count baseFilename (S i) saved.
Proof.
  induction rest as [| image rest IH]; intros i savedFiles tr Hcount; simpl in *.
  - exists [], tr. rewrite !app_nil_r. repeat split. constructor.
  - destruct (turn_spec W count baseFilename savedFiles i image tr)
      as [s1 [tr1 [Hturn [Hw1 Hs1]]]]; [lia |].
    destruct (IH (S i) (savedFiles ++ s1)%list tr1) as [s2 [tr2 [Hloop [Hw2 Hs2]]]];
      [lia |].
    exists (s1 ++ s2)%list, tr2.
    rewrite (bind_returned _ _ _ _ _ Hturn), Hloop, Hw2, Hw1, !app_assoc.
    repeat split.
    destruct Hs1 as [-> | [timestamp [ext ->]]]; simpl.
    + apply numbered_weaken with (lo := S (S i)); [lia | assumption].
    + constructor; [lia | assumption].
Qed.



(* ===================================================================== *)
(** * Further properties of the code                                      *)
(* ===================================================================== *)

Import Shapes.

(** ** Data URIs *)

Lemma startsWith_empty (s : string) : startsWith s "" = true.
Proof. now destruct s. Qed.

Lemma after_base64_marker_found (mime rest : string) :
  all_chars in_mime mime = true ->
  after_base64_marker (mime ++ ";base64," ++ rest) = Some rest.
Proof.
  induction mime as [| c mime IH]; intros Hmime.
  - cbn. now rewrite startsWith_empty.
  - simpl in Hmime. apply andb_prop in Hmime as [Hc Hrest].
    unfold in_mime in Hc. apply andb_prop in Hc as [Hsemi Hline].
    apply negb_true_iff in Hsemi. apply negb_true_iff in Hline.
    change ((String c mime) ++ ";base64," ++ rest)
      with (String c (mime ++ ";base64," ++ rest)).
    cbn [after_base64_marker startsWith].
    rewrite Ascii.eqb_sym, Hsemi, Hline. cbn [andb]. now apply IH.
Qed.

Lemma strip_data_uri_of_data_uri (mime payload : string) :
  all_chars in_mime mime = true ->
  strip_data_uri (data_uri mime payload) = payload.
Proof.
  intros Hmime. unfold strip_data_uri.
  assert (Hstart : startsWith (data_uri mime payload) "data:" = true)
    by (cbn; apply startsWith_empty).
  rewrite Hstart.
  change (drop 5 (data_uri mime payload)) with (mime ++ ";base64," ++ payload).
  now rewrite after_base64_marker_found.
Qed.

(** X1. [replace(/^data:.*?;base64,/, '')] takes the payload out of a data
    URI whose MIME type is written without semicolon and line break, and
    leaves alone every text that does not start with [data:] or has no
    [;base64,] on its first line. *)
Theorem strip_data_uri_spec :
  (forall mime payload,
      all_chars in_mime mime = true ->
      strip_data_uri (data_uri mime payload) = payload)
  /\ (forall s, startsWith s "data:" = false -> strip_data_uri s = s)
  /\ (forall s, after_base64_marker (drop 5 s) = None -> strip_data_uri s = s).
Proof.
  split; [| split].
  - exact strip_data_uri_of_data_uri.
  - intros s Hs. unfold strip_data_uri. now rewrite Hs.
  - intros s Hs. unfold strip_data_uri. rewrite Hs. now destruct (startsWith s "data:").
Qed.

Lemma strip_data_uri_spec_witness :
  strip_data_uri "data:image/png;base64,QUJD" = "QUJD"
  /\ strip_data_uri "QUJD" = "QUJD"
  /\ strip_data_uri "data:image/png,QUJD" = "data:image/png,QUJD".
Proof.
  destruct strip_data_uri_spec as [Huri [Hraw Hplain]].
  split; [| split].
  - apply (Huri "image/png" "QUJD"). reflexivity.
  - apply Hraw. reflexivity.
  - apply Hplain. reflexivity.
Defined.

(** ** Reference images, source by source *)

(** X2. A reference given inline as a data URI reaches both backends as
    its bare payload, under the MIME type of the [mimeType] field, or
    [image/png] when there is none: the MIME type written in the URI itself
    is not used. *)
Theorem inline_reference_payload (W : World) (parts : list Part)
    (content : list ContentBlock) (image : ImageInput) (mime payload : string)
    (tr : trace) :
  base64 image = Some (data_uri mime payload) ->
  all_chars in_mime mime = true ->
  Gemini.push_reference W parts image tr
  = (inr (Provider.push parts
            (inline_data (or_else (mimeType image) "image/png") payload)), tr)
  /\ OpenRouter.push_reference content image
     = Provider.push content
         (image_url_block (data_uri (or_else (mimeType image) "image/png") payload)).
Proof.
  intros Hb Hmime.
  assert (Htruthy : truthy_opt (base64 image) = true) by now rewrite Hb.
  assert (Hstrip : strip_data_uri (to_key (base64 image)) = payload).
  { rewrite Hb. now apply strip_data_uri_of_data_uri. }
  split.
  - rewrite Gemini_push_reference_inline by assumption. now rewrite Hstrip.
  - unfold OpenRouter.push_reference. rewrite Htruthy. cbn [orb].
    now rewrite Hstrip.
Qed.

Lemma inline_reference_payload_witness :
  Gemini.push_reference Sample.serving [] Cases.jpeg_uri []
  = (inr [inline_data "image/png" "QUJD"], [])
  /\ OpenRouter.push_reference [] Cases.jpeg_uri
     = [image_url_block "data:image/png;base64,QUJD"].
Proof.
  exact (inline_reference_payload Sample.serving [] [] Cases.jpeg_uri
           "image/jpeg" "QUJD" [] eq_refl eq_refl).
Defined.

(** X3. A reference given by URL only is downloaded by the direct provider
    with one GET: the part carries the body in base64 under the content
    type of the response, [image/png] when the response has none, and the
    [mimeType] field of the reference plays no part; a response that is not
    ok raises [Failed to fetch image from URL: <url>]. *)
Theorem Gemini_url_reference (W : World) (parts : list Part) (image : ImageInput)
    (tr : trace) :
  truthy_opt (base64 image) = false ->
  truthy_opt (path image) = false ->
  truthy_opt (Types.url image) = true ->
  Gemini.push_reference W parts image tr
  = (match fetch_ W tr (get_request (to_key (Types.url image))) with
     | inl e => inl e
     | inr response =>
         if ok response then
           match arrayBuffer response with
           | inl e => inl e
           | inr bytes =>
               inr (Provider.push parts
                      (inline_data (or_else (content_type response) "image/png")
                                   (Buffer_to_base64 W bytes)))
           end
         else inl {| message := "Failed to fetch image from URL: "
                                ++ to_key (Types.url image) |}
     end,
     (tr ++ [Fetched (get_request (to_key (Types.url image)))])%list).
Proof.
  intros Hb Hp Hu. unfold Gemini.push_reference. rewrite Hb, Hp, Hu.
  unfold Gemini.fetchImageAsBase64, fetch. run_eff. fold (get_request (to_key (Types.url image))).
  destruct (fetch_ W tr _) as [e | response]; [reflexivity |].
  destruct (ok response); simpl; [| reflexivity].
  now destruct (arrayBuffer response).
Qed.

Lemma Gemini_url_reference_witness :
  Gemini.push_reference Sample.serving [] Cases.by_url []
  = (inr [inline_data "image/png" "bytes"],
     [Fetched (get_request "https://example.org/a.png")])
  /\ Gemini.push_reference Sample.rejecting [] Cases.by_url []
     = (inl {| message := "Failed to fetch image from URL: https://example.org/a.png" |},
        [Fetched (get_request "https://example.org/a.png")]).
Proof.
  split.
  - exact (Gemini_url_reference Sample.serving [] Cases.by_url [] eq_refl eq_refl eq_refl).
  - exact (Gemini_url_reference Sample.rejecting [] Cases.by_url [] eq_refl eq_refl eq_refl).
Defined.

(** ** What is sent, and when nothing is *)

Lemma no_post_app (evs1 evs2 : trace) :
  no_post (evs1 ++ evs2)%list = no_post evs1 && no_post evs2.
Proof. apply forallb_app. Qed.

Lemma adds_no_post_quiet {A} (m : M A) : quiet m -> adds_no_post m.
Proof.
  intros Hq tr. exists []. rewrite (Hq tr), app_nil_r. auto.
Qed.

Lemma adds_no_post_bind {A B} (m : M A) (k : A -> M B) :
  adds_no_post m -> (forall a, adds_no_post (k a)) -> adds_no_post (bind m k).
Proof.
  intros Hm Hk tr. unfold bind.
  destruct (Hm tr) as [evs1 [H1 Hn1]].
  destruct (m tr) as [[e | a] tr1]; simpl in H1; subst tr1.
  - exists evs1. auto.
  - destruct (Hk a (tr ++ evs1)%list) as [evs2 [H2 Hn2]].
    exists (evs1 ++ evs2)%list. rewrite H2, app_assoc, no_post_app, Hn1, Hn2. auto.
Qed.

Lemma adds_no_post_for_of {A S} (items : list A) (body : S -> A -> M S) :
  (forall s x, adds_no_post (body s x)) ->
  forall s, adds_no_post (Provider.for_of items body s).
Proof.
  intros Hbody. induction items as [| x rest IH]; intros s; simpl.
  - apply adds_no_post_quiet, quiet_ret.
  - apply adds_no_post_bind; [apply Hbody | intros s'; apply IH].
Qed.

Lemma adds_no_post_emit (ev : event) : is_post ev = false -> adds_no_post (emit ev).
Proof.
  intros Hev tr. exists [ev]. simpl. unfold no_post. simpl. now rewrite Hev.
Qed.

Lemma Gemini_push_reference_adds_no_post W parts image :
  adds_no_post (Gemini.push_reference W parts image).
Proof.
  unfold Gemini.push_reference.
  destruct (truthy_opt (base64 image)); [apply adds_no_post_quiet, quiet_ret |].
  destruct (truthy_opt (path image)).
  { unfold readImageFileAsBase64.
    repeat (apply adds_no_post_bind; [| intros ?]);
      first [ apply adds_no_post_emit; reflexivity
            | apply adds_no_post_quiet; be_quiet ].
    intros tr. reflexivity. }
  destruct (truthy_opt (Types.url image)); [| apply adds_no_post_quiet, quiet_ret].
  unfold Gemini.fetchImageAsBase64, fetch.
  repeat (apply adds_no_post_bind; [| intros ?]);
    first [ apply adds_no_post_emit; reflexivity
          | apply adds_no_post_quiet; be_quiet ].
  intros tr. reflexivity.
Qed.

Lemma generateLargeBlankImage_adds_no_post W v :
  adds_no_post (Provider.generateLargeBlankImage W v).
Proof.
  intros tr. unfold Provider.generateLargeBlankImage. run_eff.
  destruct (Jimp_canvas W tr (width_of v) (height_of v)) as [e | s]; simpl.
  - eexists [_]. split; reflexivity.
  - exists []. now rewrite app_nil_r.
Qed.

Lemma Gemini_build_parts_adds_no_post W args cfg :
  adds_no_post (Gemini.build_parts W args cfg).
Proof.
  unfold Gemini.build_parts.
  apply adds_no_post_bind.
  - destruct (images args).
    + apply adds_no_post_for_of. intros s x. apply Gemini_push_reference_adds_no_post.
    + apply adds_no_post_quiet, quiet_ret.
  - intros parts. destruct cfg as [config |].
    + apply adds_no_post_bind;
        [apply generateLargeBlankImage_adds_no_post
        | intros ?; apply adds_no_post_quiet, quiet_ret].
    + apply adds_no_post_quiet, quiet_ret.
Qed.

(** X4. When a reference of the direct provider cannot be resolved, the
    call ends there: the result is the failure with the message of what was
    thrown, and no POST was made. So where the first reference is a path
    whose file cannot be read, the file read is the only thing that
    happened: the other references are not looked at. *)
Theorem Gemini_failing_reference (W : World) (key : string)
    (args : ImageGenerationArgs) (tr : trace) :
  truthy_string key = true ->
  (forall e tr',
      Gemini.build_parts W args (parseAspectRatio (aspect_ratio args)) tr = (inl e, tr') ->
      Gemini.generateImage W (Some key) args tr = (inr (Gemini.failed args e), tr')
      /\ exists evs, tr' = (tr ++ evs)%list /\ no_post evs = true)
  /\ (forall image rest e,
         images args = Some (image :: rest) ->
         truthy_opt (base64 image) = false ->
         truthy_opt (path image) = true ->
         readImageFileAsBase64_ W tr (to_key (path image)) = inl e ->
         Gemini.generateImage W (Some key) args tr
         = (inr (Gemini.failed args e),
            (tr ++ [FileRead (to_key (path image))])%list)).
Proof.
  intros Hkey.
  assert (Hfail : forall e tr',
    Gemini.build_parts W args (parseAspectRatio (aspect_ratio args)) tr = (inl e, tr') ->
    Gemini.generateImage W (Some key) args tr = (inr (Gemini.failed args e), tr')).
  { intros e tr' Hbuild. unfold Gemini.generateImage. rewrite Hkey.
    apply try_catch_thrown. unfold Gemini.attempt. now apply bind_thrown. }
  split.
  - intros e tr' Hbuild. split; [now apply Hfail |].
    destruct (Gemini_build_parts_adds_no_post W args
                (parseAspectRatio (aspect_ratio args)) tr) as [evs [Hevs Hno]].
    rewrite Hbuild in Hevs. simpl in Hevs. eauto.
  - intros image rest e Himages Hb Hp Hread. apply Hfail.
    unfold Gemini.build_parts. rewrite Himages. apply bind_thrown.
    simpl Provider.for_of. apply bind_thrown.
    rewrite Gemini_push_reference_path by assumption. now rewrite Hread.
Qed.

Lemma Gemini_failing_reference_witness :
  Gemini.generateImage Cases.unreadable (Some "key") Cases.with_path []
  = (inr (Gemini.failed Cases.with_path
            {| message := "ENOENT: no such file or directory, open 'photo.png'" |}),
     [FileRead "photo.png"]).
Proof.
  apply (proj2 (Gemini_failing_reference Cases.unreadable "key" Cases.with_path []
                  eq_refl) Sample.by_path []); reflexivity.
Defined.

Lemma generateLargeBlankImage_logs W v tr s tr' :
  Provider.generateLargeBlankImage W v tr = (inr s, tr') ->
  tr' = tr
  \/ exists e, tr' = (tr ++ [ConsoleError "Error generating large blank image:" (Some e)])%list.
Proof.
  unfold Provider.generateLargeBlankImage. run_eff.
  destruct (Jimp_canvas W tr (width_of v) (height_of v)) as [e | s0];
    intros [= <- <-]; eauto.
Qed.

(** X5. The chat provider contacts the network once per call, for the
    POST, and reads no file: before the POST the only event it can add is
    the log of a canvas that Jimp failed to draw. A reference given by URL
    only travels inside the payload as that URL. *)
Theorem OpenRouter_single_request (W : World) (key : string)
    (args : ImageGenerationArgs) (tr : trace) :
  truthy_string key = true ->
  exists content log,
    snd (OpenRouter.generateImage W (Some key) args tr)
    = (tr ++ log ++ [Fetched (OpenRouter.request key content)])%list
    /\ (log = []
        \/ exists e,
             log = [ConsoleError "Error generating large blank image:" (Some e)])
    /\ forall image,
         In image (references args) ->
         truthy_opt (base64 image) = false ->
         truthy_opt (Types.url image) = true ->
         In (image_url_block (to_key (Types.url image))) content.
Proof.
  intros Hkey.
  destruct (OpenRouter_build_content_shape W args
              (parseAspectRatio (aspect_ratio args)) tr)
    as [content [tr1 [canvas [Hbuild [Hshape Hcanvas]]]]].
  assert (Hlog : exists log,
    tr1 = (tr ++ log)%list
    /\ (log = []
        \/ exists e,
             log = [ConsoleError "Error generating large blank image:" (Some e)])).
  { revert Hbuild. unfold OpenRouter.build_content.
    destruct (parseAspectRatio (aspect_ratio args)) as [config |].
    - unfold OpenRouter.generateLargeBlankImage, bind.
      destruct (Provider.generateLargeBlankImage W config tr) as [[e | s] tr2] eqn:Hblank;
        [discriminate |].
      intros [= _ <-].
      destruct (generateLargeBlankImage_logs _ _ _ _ _ Hblank) as [-> | [e ->]].
      + exists []. rewrite app_nil_r. auto.
      + eexists. split; [reflexivity |]. eauto.
    - intros [= _ <-]. exists []. rewrite app_nil_r. auto. }
  destruct Hlog as [log [-> Hlog]].
  exists content, log. split; [| split; [exact Hlog |]].
  - unfold OpenRouter.generateImage. rewrite Hkey.
    assert (Hsent : snd (OpenRouter.attempt W key args tr)
                    = ((tr ++ log) ++ [Fetched (OpenRouter.request key content)])%list).
    { unfold OpenRouter.attempt. rewrite (bind_returned _ _ _ _ _ Hbuild).
      apply OpenRouter_post_trace. }
    unfold try_catch. rewrite <- app_assoc in Hsent.
    destruct (OpenRouter.attempt W key args tr) as [[e | r] tr2]; exact Hsent.
  - intros image Hin Hb Hu. rewrite Hshape. right.
    apply in_or_app. left. apply in_map_iff. exists image.
    split.
    + unfold block_of. now rewrite Hb.
    + apply filter_In. split; [assumption |]. unfold usable_chat. now rewrite Hu, orb_true_r.
Qed.

Lemma OpenRouter_single_request_witness :
  exists content log,
    snd (OpenRouter.generateImage Sample.serving (Some "key") Sample.three [])
    = ([] ++ log ++ [Fetched (OpenRouter.request "key" content)])%list
    /\ (log = []
        \/ exists e,
             log = [ConsoleError "Error generating large blank image:" (Some e)])
    /\ forall image,
         In image (references Sample.three) ->
         truthy_opt (base64 image) = false ->
         truthy_opt (Types.url image) = true ->
         In (image_url_block (to_key (Types.url image))) content.
Proof.
  exact (OpenRouter_single_request Sample.serving "key" Sample.three [] eq_refl).
Defined.

(** ** The result of an adapter *)

Lemma bind_returned_inv {A B} (m : M A) (k : A -> M B) tr b tr' :
  bind m k tr = (inr b, tr') ->
  exists a tr1, m tr = (inr a, tr1) /\ k a tr1 = (inr b, tr').
Proof.
  unfold bind. destruct (m tr) as [[e | a] tr1]; [discriminate | eauto].
Qed.

Lemma Gemini_read_response_returned W args response tr r tr' :
  Gemini.read_response W args response tr = (inr r, tr') ->
  result_well_formed args r /\ Result.success r = true.
Proof.
  unfold Gemini.read_response. destruct (ok response); simpl negb; cbv iota.
  - intros H.
    apply bind_returned_inv in H as [data [tr1 [_ H]]].
    apply bind_returned_inv in H as [found [tr2 [_ H]]].
    apply bind_returned_inv in H as [usage [tr3 [_ H]]].
    injection H as <- <-. unfold result_well_formed. simpl. eauto 10.
  - intros H. apply bind_returned_inv in H as [errorText [tr1 [_ H]]]. discriminate H.
Qed.

Lemma OpenRouter_read_response_returned W args response tr r tr' :
  OpenRouter.read_response W args response tr = (inr r, tr') ->
  result_well_formed args r /\ Result.success r = true.
Proof.
  unfold OpenRouter.read_response. destruct (ok response); simpl negb; cbv iota.
  - intros H.
    apply bind_returned_inv in H as [data [tr1 [_ H]]].
    apply bind_returned_inv in H as [message [tr2 [_ H]]].
    apply bind_returned_inv in H as [found [tr3 [_ H]]].
    apply bind_returned_inv in H as [content [tr4 [_ H]]].
    apply bind_returned_inv in H as [usage [tr5 [_ H]]].
    injection H as <- <-. unfold result_well_formed. simpl.
    repeat split; eauto. now destruct (truthy content) eqn:Hc.
  - intros H. apply bind_returned_inv in H as [errorText [tr1 [_ H]]]. discriminate H.
Qed.

(** X6. With its key configured, each adapter returns a result that echoes
    the prompt as it was given (not the composed one) and is either a
    success, with a list of images, a message and no error, or a failure,
    with an error and neither images, message nor usage. *)
Theorem results_are_well_formed (W : World) (key : string)
    (args : ImageGenerationArgs) (tr : trace) :
  truthy_string key = true ->
  (exists r tr',
      Gemini.generateImage W (Some key) args tr = (inr r, tr')
      /\ result_well_formed args r /\ Result.provider r = "Gemini Direct")
  /\ (exists r tr',
         OpenRouter.generateImage W (Some key) args tr = (inr r, tr')
         /\ result_well_formed args r /\ Result.provider r = "OpenRouter").
Proof.
  intros Hkey. split.
  - unfold Gemini.generateImage, try_catch. rewrite Hkey.
    destruct (Gemini.attempt W key args tr) as [[e | r] tr1] eqn:Hrun.
    + eexists _, _. split; [reflexivity |]. unfold result_well_formed. simpl.
      repeat split; eauto.
    + exists r, tr1. split; [reflexivity |].
      unfold Gemini.attempt in Hrun.
      apply bind_returned_inv in Hrun as [parts [tr2 [_ Hrun]]].
      apply bind_returned_inv in Hrun as [response [tr3 [_ Hrun]]].
      pose proof Hrun as Hshape.
      apply Gemini_read_response_returned in Hshape as [Hshape _].
      split; [exact Hshape |].
      revert Hrun. unfold Gemini.read_response.
      destruct (ok response); simpl negb; cbv iota; intros H.
      * apply bind_returned_inv in H as [data [? [_ H]]].
        apply bind_returned_inv in H as [found [? [_ H]]].
        apply bind_returned_inv in H as [usage [? [_ H]]].
        now injection H as <- <-.
      * apply bind_returned_inv in H as [errorText [? [_ H]]]. discriminate H.
  - unfold OpenRouter.generateImage, try_catch. rewrite Hkey.
    destruct (OpenRouter.attempt W key args tr) as [[e | r] tr1] eqn:Hrun.
    + eexists _, _. split; [reflexivity |]. unfold result_well_formed. simpl.
      repeat split; eauto.
    + exists r, tr1. split; [reflexivity |].
      unfold OpenRouter.attempt in Hrun.
      apply bind_returned_inv in Hrun as [content [tr2 [_ Hrun]]].
      apply bind_returned_inv in Hrun as [response [tr3 [_ Hrun]]].
      pose proof Hrun as Hshape.
      apply OpenRouter_read_response_returned in Hshape as [Hshape _].
      split; [exact Hshape |].
      revert Hrun. unfold OpenRouter.read_response.
      destruct (ok response); simpl negb; cbv iota; intros H.
      * apply bind_returned_inv in H as [data [? [_ H]]].
        apply bind_returned_inv in H as [message [? [_ H]]].
        apply bind_returned_inv in H as [found [? [_ H]]].
        apply bind_returned_inv in H as [c [? [_ H]]].
        apply bind_returned_inv in H as [usage [? [_ H]]].
        now injection H as <- <-.
      * apply bind_returned_inv in H as [errorText [? [_ H]]]. discriminate H.
Qed.

Lemma results_are_well_formed_witness :
  (exists r tr',
      Gemini.generateImage Sample.rejecting (Some "key") Sample.styled []
      = (inr r, tr')
      /\ result_well_formed Sample.styled r /\ Result.provider r = "Gemini Direct")
  /\ (exists r tr',
         OpenRouter.generateImage (Sample.replying Sample.text_only_choice)
           (Some "key") Sample.styled [] = (inr r, tr')
         /\ result_well_formed Sample.styled r /\ Result.provider r = "OpenRouter").
Proof.
  split.
  - exact (proj1 (results_are_well_formed Sample.rejecting "key" Sample.styled []
                    eq_refl)).
  - exact (proj2 (results_are_well_formed (Sample.replying Sample.text_only_choice)
                    "key" Sample.styled [] eq_refl)).
Defined.

(** ** Integers as numbers *)

Lemma digits2_pos_iter (p : positive) (k : positive) :
  digits2_pos (Pos.iter xO p k) = (digits2_pos p + k)%positive.
Proof.
  revert p. induction k using Pos.peano_ind; intros p.
  - simpl. lia.
  - rewrite Pos.iter_succ. simpl. rewrite IHk. lia.
Qed.

Lemma digits2_pos_upper (p : positive) : Z.pos p < 2 ^ Z.pos (digits2_pos p).
Proof.
  induction p as [p IH | p IH |]; simpl digits2_pos.
  - rewrite Pos2Z.inj_succ, Z.pow_succ_r by lia. lia.
  - rewrite Pos2Z.inj_succ, Z.pow_succ_r by lia. lia.
  - reflexivity.
Qed.

Lemma digits2_pos_lower (p : positive) : 2 ^ (Z.pos (digits2_pos p) - 1) <= Z.pos p.
Proof.
  induction p as [p IH | p IH |]; simpl digits2_pos.
  - rewrite Pos2Z.inj_succ. replace (Z.succ (Z.pos (digits2_pos p)) - 1) with (Z.succ (Z.pos (digits2_pos p) - 1)) by lia.
    rewrite Z.pow_succ_r by lia. lia.
  - rewrite Pos2Z.inj_succ. replace (Z.succ (Z.pos (digits2_pos p)) - 1) with (Z.succ (Z.pos (digits2_pos p) - 1)) by lia.
    rewrite Z.pow_succ_r by lia. lia.
  - simpl. lia.
Qed.

Lemma shr_fexp_exact (mz : positive) (ez : Z) :
  Z.pos (digits2_pos mz) = 53 -> -1074 <= ez ->
  shr_fexp 53 1024 (Z.pos mz) ez loc_Exact
  = ({| shr_m := Z.pos mz; shr_r := false; shr_s := false |}, ez).
Proof.
  intros Hd He. unfold shr_fexp.
  change (Zdigits2 (Z.pos mz)) with (Z.pos (digits2_pos mz)). rewrite Hd.
  assert (Hn : Z.sub (fexp 53 1024 (Z.add 53 ez)) ez = 0).
  { unfold fexp, emin. lia. }
  rewrite Hn. reflexivity.
Qed.

Lemma binary_round_aux_exact (mz : positive) (ez : Z) :
  Z.pos (digits2_pos mz) = 53 -> -1074 <= ez <= 971 ->
  binary_round_aux 53 1024 false (Z.pos mz) ez loc_Exact = S754_finite false mz ez.
Proof.
  intros Hd He. unfold binary_round_aux.
  rewrite shr_fexp_exact by lia. cbn [shr_m loc_of_shr_record round_nearest_even].
  rewrite shr_fexp_exact by lia. cbn [shr_m].
  destruct (Z.leb_spec ez (1024 - 53)); [reflexivity | lia].
Qed.

Lemma of_Z_small (p : positive) :
  Z.pos p < 2 ^ 53 ->
  of_Z (Z.pos p) = S754_finite false (fst (normal_form p)) (snd (normal_form p)).
Proof.
  intros Hp.
  assert (Hd : Z.pos (digits2_pos p) <= 53).
  { pose proof (digits2_pos_lower p).
    destruct (Z.le_gt_cases (Z.pos (digits2_pos p)) 53) as [H1 | H1]; [assumption |].
    assert (2 ^ 53 <= 2 ^ (Z.pos (digits2_pos p) - 1)) by (apply Z.pow_le_mono_r; lia).
    lia. }
  unfold of_Z, binary_normalize, binary_round, prec, emax.
  replace (fexp 53 1024 (Z.add (Z.pos (digits2_pos p)) 0))
    with (Z.pos (digits2_pos p) - 53) by (unfold fexp, emin; lia).
  fold (normal_form p). unfold normal_form, shl_align.
  remember (Z.pos (digits2_pos p) - 53) as e0 eqn:He0.
  destruct (Z.sub e0 0) as [| k | k] eqn:Hk; cbn [fst snd].
  - apply binary_round_aux_exact; lia.
  - lia.
  - apply binary_round_aux_exact; [| lia].
    rewrite digits2_pos_iter. lia.
Qed.

Lemma of_Z_positive (p : positive) :
  Z.pos p < 2 ^ 53 -> gt (of_Z (Z.pos p)) (of_Z 0) = true.
Proof. intros Hp. rewrite of_Z_small by assumption. reflexivity. Qed.

(** ** What the direct provider finds in an answer *)

Lemma Gemini_push_part_shape E found p tr :
  Gemini.push_part E found (part_json p) tr
  = (inr (found ++ images_of_part p)%list, tr).
Proof.
  destruct p as [t | [m |] d]; unfold Gemini.push_part; simpl.
  - unfold bind, ret. simpl. now rewrite app_nil_r.
  - destruct m as [| c m]; reflexivity.
  - reflexivity.
Qed.

Lemma Gemini_parts_shape E parts : forall found tr,
  Provider.for_of (map part_json parts) (Gemini.push_part E) found tr
  = (inr (found ++ flat_map images_of_part parts)%list, tr).
Proof.
  induction parts as [| p parts IH]; intros found tr; simpl.
  - unfold ret. now rewrite app_nil_r.
  - rewrite (bind_returned _ _ _ _ _ (Gemini_push_part_shape E found p tr)).
    rewrite IH. now rewrite app_assoc.
Qed.

Lemma Gemini_push_candidate_shape E found parts tr :
  Gemini.push_candidate E found (candidate_json parts) tr
  = (inr (found ++ flat_map images_of_part parts)%list, tr).
Proof.
  unfold Gemini.push_candidate, candidate_json. simpl.
  unfold bind at 1. simpl. unfold bind at 1. simpl. unfold bind at 1. simpl.
  apply Gemini_parts_shape.
Qed.

(** X7. From an answer made of candidates, each a list of parts, the
    direct provider collects the images of all candidates in the order they
    come, and passes over the parts that are text. Each image is the data
    URI of its payload under its MIME type, [image/png] when the part names
    none, and its format is what follows the slash of the MIME type, [png]
    when there is nothing there. *)
Theorem Gemini_collects_in_order (E : Engine)
    (candidates : list (list ResponsePart)) (tr : trace) :
  Gemini.extract_images E (candidates_json candidates) tr
  = (inr (flat_map (flat_map images_of_part) candidates), tr).
Proof.
  unfold Gemini.extract_images, candidates_json. simpl.
  unfold bind at 1. simpl.
  assert (H : forall found tr,
    Provider.for_of (map candidate_json candidates) (Gemini.push_candidate E) found tr
    = (inr (found ++ flat_map (flat_map images_of_part) candidates)%list, tr)).
  { induction candidates as [| c rest IH]; intros found tr0; simpl.
    - unfold ret. now rewrite app_nil_r.
    - rewrite (bind_returned _ _ _ _ _ (Gemini_push_candidate_shape E found c tr0)).
      rewrite IH. now rewrite app_assoc. }
  apply H.
Qed.

(** ** What the chat provider finds in an answer *)

Lemma OpenRouter_push_image_shape E found url tr :
  OpenRouter.push_image E found (image_json url) tr
  = (inr (found ++ (if truthy_string url then [image_of_url url] else []))%list, tr).
Proof.
  unfold OpenRouter.push_image, image_json, image_of_url. simpl.
  unfold bind at 1. simpl. unfold bind at 1. simpl.
  destruct (truthy_string url) eqn:Hurl.
  - unfold bind at 1. simpl. now destruct (startsWith url "data:").
  - unfold ret. now rewrite app_nil_r.
Qed.

Lemma OpenRouter_images_shape E urls : forall found tr,
  Provider.for_of (map image_json urls) (OpenRouter.push_image E) found tr
  = (inr (found ++ map image_of_url (filter truthy_string urls))%list, tr).
Proof.
  induction urls as [| u urls IH]; intros found tr; simpl.
  - unfold ret. now rewrite app_nil_r.
  - rewrite (bind_returned _ _ _ _ _ (OpenRouter_push_image_shape E found u tr)).
    rewrite IH. destruct (truthy_string u); simpl.
    + now rewrite <- app_assoc.
    + now rewrite app_nil_r.
Qed.

Ltac step_bind := erewrite bind_returned by reflexivity.

Lemma OpenRouter_listed_shape E urls tr :
  Z.of_nat (List.length urls) < 2 ^ 53 ->
  (len <- lift_js E (get_prop "message.images"
                       (Some (JArr (map image_json urls))) "length") ;;
   len <- lift_js E (Json.ToNumber E len) ;;
   if gt len (of_Z 0) then
     items <- lift_js E (iterate "message.images"
                           (Some (JArr (map image_json urls)))) ;;
     Provider.for_of items (OpenRouter.push_image E) []
   else ret [])%eff tr
  = (inr (map image_of_url (filter truthy_string urls)), tr).
Proof.
  intros Hlen. step_bind. step_bind. rewrite length_map.
  destruct urls as [| u urls].
  - reflexivity.
  - assert (Hpos : gt (of_Z (Z.of_nat (List.length (u :: urls)))) (of_Z 0) = true).
    { destruct (Z.of_nat (List.length (u :: urls))) as [| p | p] eqn:Hp;
        [simpl in Hp; lia | | lia].
      now apply of_Z_positive. }
    rewrite Hpos. step_bind. apply OpenRouter_images_shape.
Qed.

(** X8. From a message that lists images, the chat provider takes the
    images listed, in their order, leaving out entries whose URL is empty:
    a [data:] URL becomes an inline image, any other text a remote one.
    The text of the message is looked at for an image only when the list
    gave none. *)
Theorem OpenRouter_listed_images_first (E : Engine) (urls : list string)
    (content : option string) (tr : trace) :
  Z.of_nat (List.length urls) < 2 ^ 53 ->
  OpenRouter.extract_images E (Some (message_json urls content)) tr
  = match map image_of_url (filter truthy_string urls) with
    | [] =>
        if truthy_opt content
        then OpenRouter.from_content E (Some (JStr (to_key content))) tr
        else (inr [], tr)
    | first :: others => (inr (first :: others), tr)
    end.
Proof.
  intros Hlen. unfold OpenRouter.extract_images.
  step_bind. cbn [truthy].
  rewrite (bind_returned _ _ _ _ _ (OpenRouter_listed_shape E urls tr Hlen)).
  destruct (map image_of_url (filter truthy_string urls)) as [| first others];
    [| reflexivity].
  destruct content as [c |].
  - step_bind. cbn -[OpenRouter.from_content]. now destruct (truthy_string c).
  - step_bind. reflexivity.
Qed.

Lemma OpenRouter_listed_images_first_witness :
  OpenRouter.extract_images Sample.engine
    (Some (message_json ["data:image/png;base64,QUJD"; ""; "https://example.org/b.png"]
                        (Some "see https://example.org/c.png"))) []
  = (inr [image_of_url "data:image/png;base64,QUJD";
          image_of_url "https://example.org/b.png"], []).
Proof.
  apply (OpenRouter_listed_images_first Sample.engine
           ["data:image/png;base64,QUJD"; ""; "https://example.org/b.png"]
           (Some "see https://example.org/c.png") []).
  reflexivity.
Defined.

(** ** Links in the text of a message *)

Lemma startsWith_split (p : string) : forall s,
  startsWith s p = true -> s = p ++ drop (String.length p) s.
Proof.
  induction p as [| a p IH]; intros s H; [reflexivity |].
  destruct s as [| b s]; [discriminate |].
  simpl in H. apply andb_prop in H as [Hab Hs].
  apply Ascii.eqb_eq in Hab as ->. simpl. f_equal. now apply IH.
Qed.

Lemma startsWith_prefix (p q : string) : forall s,
  startsWith s (p ++ q) = true -> startsWith s p = true.
Proof.
  induction p as [| a p IH]; intros s H; [apply startsWith_empty |].
  destruct s as [| b s]; [discriminate |].
  simpl in *. apply andb_prop in H as [Hab Hs].
  rewrite Hab. simpl. now apply IH.
Qed.

Lemma take_while_split (p : ascii -> bool) (s : string) :
  all_chars p (take_while p s) = true
  /\ exists after,
       s = take_while p s ++ after
       /\ match after with
          | EmptyString => True
          | String c _ => p c = false
          end.
Proof.
  induction s as [| c s [IHall [after [IHs IHafter]]]]; simpl.
  - split; [reflexivity |]. now exists "".
  - destruct (p c) eqn:Hc; simpl.
    + rewrite Hc, IHall. split; [reflexivity |].
      exists after. split; [now f_equal | exact IHafter].
    + split; [reflexivity |]. exists (String c s). now split.
Qed.

Lemma first_http_url_eq (s : string) :
  first_http_url s
  = if startsWith s "https://"
       && truthy_string (take_while non_space (drop 8 s))
    then Some ("https://" ++ take_while non_space (drop 8 s))
    else if startsWith s "http://"
            && truthy_string (take_while non_space (drop 7 s))
    then Some ("http://" ++ take_while non_space (drop 7 s))
    else match s with
         | EmptyString => None
         | String _ r => first_http_url r
         end.
Proof.
  destruct s as [| c r]; [reflexivity |].
  cbn [first_http_url String.length].
  destruct (startsWith (String c r) "https://"); cbn [andb];
    [destruct (truthy_string (take_while non_space (drop 8 (String c r))));
     [reflexivity |] |];
    (destruct (startsWith (String c r) "http://"); cbn [andb];
     [destruct (truthy_string (take_while non_space (drop 7 (String c r))));
      reflexivity | reflexivity]).
Qed.

Lemma link_at (scheme s : string) :
  startsWith s scheme = true ->
  truthy_string (take_while non_space (drop (String.length scheme) s)) = true ->
  exists tail after,
    s = (scheme ++ tail) ++ after
    /\ truthy_string tail = true
    /\ all_chars non_space tail = true
    /\ match after with
       | EmptyString => True
       | String c _ => is_space c = true
       end
    /\ tail = take_while non_space (drop (String.length scheme) s).
Proof.
  intros Hstart Htail.
  destruct (take_while_split non_space (drop (String.length scheme) s))
    as [Hall [after [Hsplit Hafter]]].
  exists (take_while non_space (drop (String.length scheme) s)), after.
  split; [| split; [assumption | split; [assumption | split; [| reflexivity]]]].
  - rewrite append_assoc, <- Hsplit. now apply startsWith_split.
  - destruct after as [| c after]; [exact I |].
    unfold non_space in Hafter. now apply negb_false_iff in Hafter.
Qed.

Lemma first_http_url_scheme (s : string) : forall found,
  first_http_url s = Some found ->
  exists tail, found = "http://" ++ tail \/ found = "https://" ++ tail.
Proof.
  induction s as [| c s IH]; intros found; rewrite first_http_url_eq.
  - discriminate.
  - destruct (startsWith (String c s) "https://"
              && truthy_string (take_while non_space (drop 8 (String c s)))).
    { intros [= <-]. eexists. right. reflexivity. }
    destruct (startsWith (String c s) "http://"
              && truthy_string (take_while non_space (drop 7 (String c s)))).
    { intros [= <-]. eexists. left. reflexivity. }
    apply IH.
Qed.

(** X9. The link [/https?:\/\/[^\s]+/] finds in a text is a piece of the
    text: it reads [http://] or [https://] followed by at least one
    character, has no white space in it, and runs up to the next white
    space or the end of the text. *)
Theorem first_http_url_spec (s found : string) :
  first_http_url s = Some found ->
  exists before scheme tail after,
    s = before ++ found ++ after
    /\ found = scheme ++ tail
    /\ (scheme = "http://" \/ scheme = "https://")
    /\ truthy_string tail = true
    /\ all_chars non_space tail = true
    /\ match after with
       | EmptyString => True
       | String c _ => is_space c = true
       end.
Proof.
  induction s as [| c s IH]; rewrite first_http_url_eq.
  - discriminate.
  - destruct (startsWith (String c s) "https://"
              && truthy_string (take_while non_space (drop 8 (String c s))))
      eqn:Hs.
    { intros [= <-]. apply andb_prop in Hs as [Hstart Htail].
      destruct (link_at "https://" _ Hstart Htail)
        as [tail [after [Heq [Htruthy [Hall [Hafter Htl]]]]]].
      subst tail.
      exists "", "https://", (take_while non_space (drop 8 (String c s))), after.
      split; [exact Heq |]. repeat split; auto. }
    destruct (startsWith (String c s) "http://"
              && truthy_string (take_while non_space (drop 7 (String c s))))
      eqn:Hp.
    { intros [= <-]. apply andb_prop in Hp as [Hstart Htail].
      destruct (link_at "http://" _ Hstart Htail)
        as [tail [after [Heq [Htruthy [Hall [Hafter Htl]]]]]].
      subst tail.
      exists "", "http://", (take_while non_space (drop 7 (String c s))), after.
      split; [exact Heq |]. repeat split; auto. }
    intros Hrest.
    destruct (IH Hrest) as [before [scheme [tail [after H]]]].
    destruct H as [Heq [Hfound [Hscheme [Htruthy [Hall Hafter]]]]].
    exists (String c before), scheme, tail, after.
    repeat split; auto. simpl. now f_equal.
Qed.

Lemma first_http_url_spec_witness :
  exists before scheme tail after,
    "see https://example.org/a.png for it" = before ++ "https://example.org/a.png" ++ after
    /\ "https://example.org/a.png" = scheme ++ tail
    /\ (scheme = "http://" \/ scheme = "https://")
    /\ truthy_string tail = true
    /\ all_chars non_space tail = true
    /\ match after with
       | EmptyString => True
       | String c _ => is_space c = true
       end.
Proof.
  apply (first_http_url_spec "see https://example.org/a.png for it"
           "https://example.org/a.png").
  reflexivity.
Defined.
Lemma first_http_url_has_http (s : string) : forall found i,
  first_http_url s = Some found -> 0 <= i -> 0 <= indexOf_from s "http" i.
Proof.
  induction s as [| c s IH]; intros found i; rewrite first_http_url_eq.
  - discriminate.
  - destruct (startsWith (String c s) "http") eqn:Hhttp.
    + intros _ Hi. unfold indexOf_from. now rewrite Hhttp.
    + assert (H1 : startsWith (String c s) "https://" = false).
      { destruct (startsWith (String c s) "https://") eqn:H; [| reflexivity].
        now rewrite (startsWith_prefix "http" "s://" _ H) in Hhttp. }
      assert (H2 : startsWith (String c s) "http://" = false).
      { destruct (startsWith (String c s) "http://") eqn:H; [| reflexivity].
        now rewrite (startsWith_prefix "http" "://" _ H) in Hhttp. }
      rewrite H1, H2. cbn [andb]. intros Hrest Hi.
      cbn [indexOf_from]. rewrite Hhttp.
      apply (IH found); [assumption | lia].
Qed.

Lemma first_http_url_is_remote (s found : string) :
  first_http_url s = Some found -> image_of_url found
  = {| Image.type := Image.type_url; Image.data := None; Image.url := Some found;
       Image.size := None; Image.format := None |}.
Proof.
  intros H.
  destruct (first_http_url_scheme s found H) as [tail [-> | ->]]; reflexivity.
Qed.

(** X10. When [message.images] gave nothing and the text of the message is
    taken instead: a text that starts with [data:image] is the image, as
    it stands; any other text gives the first link in it as a remote image,
    and no image when it has no link. (The test [includes('http')] changes
    nothing: a text with a link has [http] in it.) *)
Theorem OpenRouter_text_fallback (E : Engine) (text : string) (tr : trace) :
  OpenRouter.from_content E (Some (JStr text)) tr
  = (inr (if startsWith text "data:image" then [image_of_url text]
          else match first_http_url text with
               | Some found => [image_of_url found]
               | None => []
               end), tr).
Proof.
  unfold OpenRouter.from_content. step_bind.
  destruct (startsWith text "data:image") eqn:Hdata.
  - unfold image_of_url.
    now rewrite (startsWith_prefix "data:" "image" _ Hdata).
  - destruct (first_http_url text) as [found |] eqn:Hfound.
    + unfold includes, indexOf.
      pose proof (first_http_url_has_http text found 0 Hfound (Z.le_refl 0)) as Hhttp.
      apply Z.leb_le in Hhttp. rewrite Hhttp.
      now rewrite (first_http_url_is_remote text found Hfound).
    + now destruct (includes text "http").
Qed.
(** ** The format read off a data URL *)

Lemma indexOf_from_semicolon (sub rest : string) : forall i,
  all_chars (fun c => negb (Ascii.eqb c ";")) sub = true ->
  indexOf_from (sub ++ ";" ++ rest) ";" i = i + strlen sub.
Proof.
  induction sub as [| c sub IH]; intros i Hsub.
  - cbn. rewrite startsWith_empty. unfold strlen. simpl. lia.
  - simpl in Hsub. apply andb_prop in Hsub as [Hc Hsub].
    apply negb_true_iff in Hc.
    change ((String c sub) ++ ";" ++ rest) with (String c (sub ++ ";" ++ rest)).
    cbn [indexOf_from startsWith]. rewrite Ascii.eqb_sym, Hc. cbn [andb].
    rewrite IH by assumption. unfold strlen. simpl String.length. lia.
Qed.

Lemma indexOf_from_no_semicolon (s : string) : forall i,
  all_chars (fun c => negb (Ascii.eqb c ";")) s = true ->
  indexOf_from s ";" i = -1.
Proof.
  induction s as [| c s IH]; intros i Hs; [reflexivity |].
  simpl in Hs. apply andb_prop in Hs as [Hc Hs]. apply negb_true_iff in Hc.
  cbn [indexOf_from startsWith]. rewrite Ascii.eqb_sym, Hc. cbn [andb].
  now apply IH.
Qed.

Lemma substring_prefix (a b : string) :
  String.substring 0 (String.length a) (a ++ b) = a.
Proof.
  induction a as [| c a IH]; simpl; [now destruct b | now rewrite IH].
Qed.

Lemma length_append (a b : string) :
  String.length (a ++ b) = (String.length a + String.length b)%nat.
Proof. induction a as [| c a IH]; simpl; [reflexivity | now rewrite IH]. Qed.

(** X11. The format the chat provider reads off a data URL,
    [url.substring(11, url.indexOf(';')) || 'png']: for
    [data:image/<subtype>;...] it is the subtype, and [png] when the
    subtype is empty. For a URL with no semicolon in it [indexOf] gives -1,
    [substring] swaps its ends, and the format is the first eleven
    characters of the URL. *)
Theorem format_of_spec :
  (forall subtype rest,
      all_chars (fun c => negb (Ascii.eqb c ";")) subtype = true ->
      OpenRouter.format_of ("data:image/" ++ subtype ++ ";" ++ rest)
      = or_else (Some subtype) "png")
  /\ (forall url,
         all_chars (fun c => negb (Ascii.eqb c ";")) url = true ->
         OpenRouter.format_of url = or_else (Some (slice0 url 11)) "png").
Proof.
  split.
  - intros subtype rest Hsub. unfold OpenRouter.format_of. f_equal. f_equal.
    unfold substring, indexOf.
    change (indexOf_from ("data:image/" ++ subtype ++ ";" ++ rest) ";" 0)
      with (indexOf_from (subtype ++ ";" ++ rest) ";" 11).
    rewrite indexOf_from_semicolon by assumption.
    assert (Hlen : strlen ("data:image/" ++ subtype ++ ";" ++ rest)
                   = 11 + strlen subtype + 1 + strlen rest).
    { unfold strlen. rewrite !length_append. simpl String.length. lia. }
    rewrite Hlen. unfold clamp, strlen.
    rewrite (Z.min_r _ 11) by lia. rewrite (Z.max_r 0 11) by lia.
    rewrite (Z.min_r _ (11 + _)) by lia. rewrite (Z.max_r 0 (11 + _)) by lia.
    rewrite Z.min_l, Z.max_r by lia.
    replace (11 + Z.of_nat (String.length subtype) - 11)
      with (Z.of_nat (String.length subtype)) by lia.
    rewrite Nat2Z.id. change (Z.to_nat 11) with 11%nat.
    change (String.substring 11 (String.length subtype)
              ("data:image/" ++ subtype ++ ";" ++ rest))
      with (String.substring 0 (String.length subtype) (subtype ++ ";" ++ rest)).
    apply substring_prefix.
  - intros url Hurl. unfold OpenRouter.format_of. f_equal. f_equal.
    unfold substring, indexOf, slice0.
    rewrite indexOf_from_no_semicolon by assumption.
    unfold clamp, strlen.
    pose proof (Nat2Z.is_nonneg (String.length url)).
    rewrite (Z.min_r _ (-1)) by lia. rewrite (Z.max_l 0 (-1)) by lia.
    rewrite (Z.min_comm _ 11).
    rewrite (Z.max_r 0 (Z.min 11 _)) by lia.
    rewrite (Z.min_r _ 0) by lia. rewrite (Z.max_l _ 0) by lia.
    now rewrite Z.sub_0_r.
Qed.

Lemma format_of_spec_witness :
  OpenRouter.format_of "data:image/jpeg;base64,QUJD" = "jpeg"
  /\ OpenRouter.format_of "data:image/png,QUJD" = "data:image/".
Proof.
  destruct format_of_spec as [Hsubtype Hplain]. split.
  - apply (Hsubtype "jpeg" "base64,QUJD"). reflexivity.
  - apply (Hplain "data:image/png,QUJD"). reflexivity.
Defined.
(** ** The images a provider hands back *)

Ltac inv_bind H :=
  let a := fresh "a" in
  let tr := fresh "tr" in
  let Hm := fresh "Hm" in
  apply bind_returned_inv in H as [a [tr [Hm H]]].

Lemma for_of_invariant {A S : Type} (P : S -> Prop) (body : S -> A -> M S) :
  (forall s x tr s' tr', P s -> body s x tr = (inr s', tr') -> P s') ->
  forall items s tr s' tr',
    P s -> Provider.for_of items body s tr = (inr s', tr') -> P s'.
Proof.
  intros Hbody items.
  induction items as [| x items IH]; intros s tr s' tr' Hs H.
  - now injection H as <- <-.
  - cbn [Provider.for_of] in H. inv_bind H. eauto.
Qed.

Lemma truthy_or_else (a : option string) (b : string) :
  truthy_string b = true -> truthy_string (or_else a b) = true.
Proof.
  intros Hb. destruct a as [s |]; [| exact Hb].
  unfold or_else. now destruct (truthy_string s) eqn:Hs.
Qed.

Lemma well_formed_push (found : list Image.GeneratedImage) img :
  forallb well_formed_image found = true ->
  well_formed_image img = true ->
  forallb well_formed_image (Provider.push found img) = true.
Proof.
  intros Hfound Himg. unfold Provider.push.
  rewrite forallb_app, Hfound. simpl. now rewrite Himg.
Qed.

Lemma image_of_url_well_formed (url : string) :
  truthy_string url = true -> well_formed_image (image_of_url url) = true.
Proof.
  intros Hurl. unfold image_of_url.
  destruct (startsWith url "data:") eqn:Hdata; unfold well_formed_image; simpl.
  - rewrite Hdata, Hurl. unfold OpenRouter.format_of.
    now rewrite truthy_or_else.
  - now rewrite Hurl.
Qed.

Lemma Gemini_push_part_well_formed E found part tr found' tr' :
  forallb well_formed_image found = true ->
  Gemini.push_part E found part tr = (inr found', tr') ->
  forallb well_formed_image found' = true.
Proof.
  intros Hfound H. unfold Gemini.push_part in H. inv_bind H.
  destruct (truthy a); [| now injection H as <- <-].
  do 5 inv_bind H. injection H as <- <-.
  apply well_formed_push; [assumption |].
  unfold well_formed_image. simpl. rewrite startsWith_empty.
  now rewrite truthy_or_else.
Qed.

Lemma Gemini_push_candidate_well_formed E found candidate tr found' tr' :
  forallb well_formed_image found = true ->
  Gemini.push_candidate E found candidate tr = (inr found', tr') ->
  forallb well_formed_image found' = true.
Proof.
  intros Hfound H. unfold Gemini.push_candidate in H. inv_bind H.
  destruct (truthy a); [| now injection H as <- <-].
  inv_bind H. destruct (truthy a0); [| now injection H as <- <-].
  inv_bind H.
  eapply (for_of_invariant (fun l => forallb well_formed_image l = true));
    [| exact Hfound | exact H].
  intros s x t s' t'. apply Gemini_push_part_well_formed.
Qed.

Lemma Gemini_extract_images_well_formed E data tr found tr' :
  Gemini.extract_images E data tr = (inr found, tr') ->
  forallb well_formed_image found = true.
Proof.
  intros H. unfold Gemini.extract_images in H. inv_bind H.
  destruct a as [[| | | | items |] |]; try now injection H as <- <-.
  eapply (for_of_invariant (fun l => forallb well_formed_image l = true));
    [| | exact H]; [| reflexivity].
  intros s x t s' t'. apply Gemini_push_candidate_well_formed.
Qed.

Lemma OpenRouter_push_image_well_formed E found img tr found' tr' :
  forallb well_formed_image found = true ->
  OpenRouter.push_image E found img tr = (inr found', tr') ->
  forallb well_formed_image found' = true.
Proof.
  intros Hfound H. unfold OpenRouter.push_image in H. inv_bind H.
  destruct (truthy a); [| now injection H as <- <-].
  inv_bind H. destruct (truthy a0) eqn:Hurl; [| now injection H as <- <-].
  inv_bind H.
  assert (Ha1 : truthy_string a1 = true).
  { destruct a0 as [[| | | s | |] |]; try discriminate Hm1.
    injection Hm1 as <- _. exact Hurl. }
  pose proof (image_of_url_well_formed a1 Ha1) as Himg.
  unfold image_of_url in Himg.
  destruct (startsWith a1 "data:"); injection H as <- <-;
    now apply well_formed_push.
Qed.

Lemma OpenRouter_from_content_well_formed E content tr found tr' :
  OpenRouter.from_content E content tr = (inr found, tr') ->
  forallb well_formed_image found = true.
Proof.
  intros H. unfold OpenRouter.from_content in H. inv_bind H.
  destruct (startsWith a "data:image") eqn:Hdata.
  - injection H as <- _.
    pose proof (image_of_url_well_formed a) as Himg. unfold image_of_url in Himg.
    rewrite (startsWith_prefix "data:" "image" _ Hdata) in Himg.
    simpl. rewrite Himg; [reflexivity | now destruct a].
  - destruct (includes a "http"); [| now injection H as <- _].
    destruct (first_http_url a) as [link |] eqn:Hlink; [| now injection H as <- _].
    injection H as <- _.
    rewrite <- (first_http_url_is_remote a link Hlink).
    simpl. rewrite image_of_url_well_formed; [reflexivity |].
    destruct (first_http_url_scheme a link Hlink) as [tail [-> | ->]]; reflexivity.
Qed.

Lemma OpenRouter_extract_images_well_formed E message tr found tr' :
  OpenRouter.extract_images E message tr = (inr found, tr') ->
  forallb well_formed_image found = true.
Proof.
  intros H. unfold OpenRouter.extract_images in H. do 2 inv_bind H.
  assert (Hlisted : forallb well_formed_image a0 = true).
  { destruct (truthy a); [| now injection Hm0 as <- <-].
    do 2 inv_bind Hm0.
    destruct (gt a2 (of_Z 0)); [| now injection Hm0 as <- <-].
    inv_bind Hm0.
    eapply (for_of_invariant (fun l => forallb well_formed_image l = true));
      [| | exact Hm0]; [| reflexivity].
    intros s x t s' t'. apply OpenRouter_push_image_well_formed. }
  destruct a0 as [| first others]; [| now injection H as <- <-].
  inv_bind H. destruct (truthy a0); [| now injection H as <- <-].
  now apply OpenRouter_from_content_well_formed in H.
Qed.
Lemma Gemini_generateImage_well_formed W key args tr r tr' found :
  Gemini.generateImage W key args tr = (inr r, tr') ->
  Result.images r = Some found ->
  forallb well_formed_image found = true.
Proof.
  unfold Gemini.generateImage. intros H Himages.
  destruct key as [key |]; [| discriminate H].
  destruct (truthy_string key); [| discriminate H].
  unfold try_catch in H.
  destruct (Gemini.attempt W key args tr) as [[e | r0] tr0] eqn:Hrun.
  - injection H as <- <-. discriminate Himages.
  - injection H as <- <-. unfold Gemini.attempt in Hrun. do 2 inv_bind Hrun.
    unfold Gemini.read_response in Hrun.
    destruct (ok a0); simpl negb in Hrun; cbv iota in Hrun.
    + do 3 inv_bind Hrun. injection Hrun as <- <-.
      injection Himages as <-.
      now apply Gemini_extract_images_well_formed in Hm2.
    + inv_bind Hrun. discriminate Hrun.
Qed.

Lemma OpenRouter_generateImage_well_formed W key args tr r tr' found :
  OpenRouter.generateImage W key args tr = (inr r, tr') ->
  Result.images r = Some found ->
  forallb well_formed_image found = true.
Proof.
  unfold OpenRouter.generateImage. intros H Himages.
  destruct key as [key |]; [| discriminate H].
  destruct (truthy_string key); [| discriminate H].
  unfold try_catch in H.
  destruct (OpenRouter.attempt W key args tr) as [[e | r0] tr0] eqn:Hrun.
  - injection H as <- <-. discriminate Himages.
  - injection H as <- <-. unfold OpenRouter.attempt in Hrun. do 2 inv_bind Hrun.
    unfold OpenRouter.read_response in Hrun.
    destruct (ok a0); simpl negb in Hrun; cbv iota in Hrun.
    + do 5 inv_bind Hrun. injection Hrun as <- <-.
      injection Himages as <-.
      now apply OpenRouter_extract_images_well_formed in Hm3.
    + inv_bind Hrun. discriminate Hrun.
Qed.

(** X12. Whatever the backend answers, every image in the result of a
    provider is of one of two kinds: an inline image, with a data URI in
    [data], a format that is not empty and no [url]; or a remote image,
    with a URL that is not empty and neither [data] nor [format]. Neither
    has a [size]. *)
Theorem provider_images_well_formed (W : World) (key : option string)
    (args : ImageGenerationArgs) (tr tr' : trace) (r : Result.GenerationResult)
    (found : list Image.GeneratedImage) :
  Gemini.generateImage W key args tr = (inr r, tr')
  \/ OpenRouter.generateImage W key args tr = (inr r, tr') ->
  Result.images r = Some found ->
  forallb well_formed_image found = true.
Proof.
  intros [H | H] Himages.
  - exact (Gemini_generateImage_well_formed W key args tr r tr' found H Himages).
  - exact (OpenRouter_generateImage_well_formed W key args tr r tr' found H Himages).
Qed.

Lemma provider_images_well_formed_witness :
  forallb well_formed_image [Cases.jpeg_picture; Cases.linked_picture] = true.
Proof.
  eapply (provider_images_well_formed (Sample.replying Cases.chat_drawn) (Some "key")
            Sample.plain []).
  - right. vm_compute. reflexivity.
  - reflexivity.
Defined.

(** ** What becomes of a well-formed image *)

Lemma format_image_numbered E show img index :
  well_formed_image img = true ->
  index_of (Index.format_image E show img index) = Some (index + 1).
Proof.
  unfold well_formed_image, Index.format_image.
  destruct img as [[|] data url size format]; simpl; intros H.
  - apply andb_prop in H as [H _]. apply andb_prop in H as [H _].
    apply andb_prop in H as [H _]. apply andb_prop in H as [_ Hdata].
    rewrite Hdata. now destruct show.
  - apply andb_prop in H as [H _]. apply andb_prop in H as [H _].
    apply andb_prop in H as [Hurl _]. rewrite Hurl.
    now destruct (truthy_opt data).
Qed.



(** ** File names *)

Lemma underscore_runs_fixed (s : string) :
  all_chars is_safe s = true -> underscore_runs false s = s.
Proof.
  induction s as [| c s IH]; simpl; [reflexivity |].
  intros H. apply andb_prop in H as [Hc Hs]. rewrite Hc. now rewrite IH.
Qed.

Lemma substring_whole (s : string) : String.substring 0 (String.length s) s = s.
Proof. induction s as [| c s IH]; simpl; [reflexivity | now rewrite IH]. Qed.

Lemma slice0_short (s : string) (n : Z) : strlen s <= n -> slice0 s n = s.
Proof.
  intros H. unfold slice0. rewrite Z.min_r by assumption.
  unfold strlen. rewrite Nat2Z.id. apply substring_whole.
Qed.

Lemma sanitizeFilename_fixed (name : string) :
  all_chars is_safe name = true -> strlen name <= 64 ->
  Utils.sanitizeFilename name = name.
Proof.
  intros Hsafe Hlen. unfold Utils.sanitizeFilename.
  rewrite underscore_runs_fixed by assumption. now apply slice0_short.
Qed.

(** X14. [sanitizeFilename] leaves a name of at most 64 letters, digits,
    underscores and hyphens as it is, and so cleaning a name twice is the
    same as cleaning it once; what it returns has no dot and no slash. *)
Theorem sanitizeFilename_idempotent :
  (forall name,
      all_chars is_safe name = true -> strlen name <= 64 ->
      Utils.sanitizeFilename name = name)
  /\ (forall name,
         Utils.sanitizeFilename (Utils.sanitizeFilename name)
         = Utils.sanitizeFilename name)
  /\ (forall name,
         all_chars (fun c => negb (Ascii.eqb c "/") && negb (Ascii.eqb c "."))
           (Utils.sanitizeFilename name) = true).
Proof.
  split; [exact sanitizeFilename_fixed | split].
  - intros name. destruct (sanitizeFilename_safe name) as [Hsafe Hlen].
    now apply sanitizeFilename_fixed.
  - intros name. destruct (sanitizeFilename_safe name) as [Hsafe _].
    revert Hsafe. generalize (Utils.sanitizeFilename name) as s.
    induction s as [| c s IH]; simpl; [reflexivity |].
    intros H. apply andb_prop in H as [Hc Hs]. rewrite (IH Hs), andb_true_r.
    destruct (Ascii.eqb c "/") eqn:Hslash;
      [apply Ascii.eqb_eq in Hslash as ->; discriminate Hc |].
    destruct (Ascii.eqb c ".") eqn:Hdot;
      [apply Ascii.eqb_eq in Hdot as ->; discriminate Hc | reflexivity].
Qed.

Lemma sanitizeFilename_idempotent_witness :
  Utils.sanitizeFilename "my_cat-2" = "my_cat-2".
Proof.
  apply (proj1 sanitizeFilename_idempotent "my_cat-2"); [reflexivity |].
  unfold strlen. simpl. lia.
Defined.

(** ** The reply *)

Lemma substring_length_le (s : string) : forall a n,
  (String.length (String.substring a n s) <= n)%nat.
Proof.
  induction s as [| c s IH]; intros [| a] [| n]; simpl; try lia.
  - specialize (IH 0%nat n). lia.
  - apply (IH a 0%nat).
  - apply (IH a (S n)).
Qed.

Lemma preview_length (data : string) : strlen (substring data 0 100 ++ "...") <= 103.
Proof.
  unfold substring, clamp, strlen. rewrite length_append. simpl (String.length "...").
  match goal with
  | |- context [String.substring ?a ?n data] =>
      pose proof (substring_length_le data a n)
  end.
  lia.
Qed.

Lemma format_image_preview E img index text :
  well_formed_image img = true ->
  carried (Index.format_image E false img index) = Some text ->
  strlen text <= 103.
Proof.
  unfold well_formed_image, Index.format_image.
  destruct img as [[|] data url size format]; simpl; intros H.
  - apply andb_prop in H as [H _]. apply andb_prop in H as [H _].
    apply andb_prop in H as [H _]. apply andb_prop in H as [_ Hdata].
    rewrite Hdata. simpl. intros [= <-]. apply preview_length.
  - apply andb_prop in H as [H _]. apply andb_prop in H as [H _].
    apply andb_prop in H as [Hurl _]. rewrite Hurl.
    now destruct (truthy_opt data).
Qed.

Lemma map_indexed_length {A B} (f : A -> Z -> B) (items : list A) : forall k,
  List.length (Index.map_indexed f items k) = List.length items.
Proof. induction items as [| x items IH]; intros k; simpl; [reflexivity | now rewrite IH]. Qed.

Lemma map_indexed_nth {A B} (f : A -> Z -> B) (items : list A) : forall k i entry,
  nth_error (Index.map_indexed f items k) i = Some entry ->
  exists x, nth_error items i = Some x /\ entry = f x (k + Z.of_nat i).
Proof.
  induction items as [| x items IH]; intros k [| i] entry H; simpl in H;
    try discriminate.
  - injection H as <-. exists x. split; [reflexivity |]. f_equal. simpl. lia.
  - destruct (IH _ _ _ H) as [y [Hy ->]]. exists y. split; [exact Hy |].
    f_equal. lia.
Qed.

Lemma forallb_nth {A} (p : A -> bool) (items : list A) i x :
  forallb p items = true -> nth_error items i = Some x -> p x = true.
Proof.
  intros Hall Hx. apply nth_error_In in Hx.
  rewrite forallb_forall in Hall. now apply Hall.
Qed.

Lemma formatResponse_images E r show found entries :
  Result.images r = Some found ->
  Index.images (Index.formatResponse E r show) = Some entries ->
  entries
  = Index.map_indexed
      (Index.format_image E (match show with Some b => b | None => false end))
      found 0
  /\ Index.image_count (Index.formatResponse E r show)
     = Some (Z.of_nat (List.length found)).
Proof.
  intros Himages. unfold Index.formatResponse.
  cbn [Index.images Index.image_count]. rewrite Himages.
  destruct found as [| first others]; [discriminate |].
  intros [= <-]. split; reflexivity.
Qed.

(** X15. The reply lists the images of a provider in their order and
    numbers them from 1; [image_count] is their number. Unless
    [show_full_response] is true, no entry carries more of an image than
    the first hundred characters of its data URI, followed by three
    dots. *)
Theorem formatResponse_entries (E : Engine) (r : Result.GenerationResult)
    (show : option bool) (found : list Image.GeneratedImage)
    (entries : list Index.FormattedImage) :
  Result.images r = Some found ->
  forallb well_formed_image found = true ->
  Index.images (Index.formatResponse E r show) = Some entries ->
  Index.image_count (Index.formatResponse E r show)
  = Some (Z.of_nat (List.length entries))
  /\ List.length entries = List.length found
  /\ (forall i entry,
         nth_error entries i = Some entry ->
         index_of entry = Some (Z.of_nat i + 1))
  /\ (show <> Some true ->
      forall i entry text,
        nth_error entries i = Some entry ->
        carried entry = Some text -> strlen text <= 103).
Proof.
  intros Himages Hfound Hentries.
  destruct (formatResponse_images E r show found entries Himages Hentries)
    as [-> ->].
  rewrite map_indexed_length.
  split; [reflexivity | split; [reflexivity | split]].
  - intros i entry Hentry.
    apply map_indexed_nth in Hentry as [img [Himg ->]].
    rewrite format_image_numbered; [f_equal; lia |].
    exact (forallb_nth _ _ _ _ Hfound Himg).
  - intros Hshow i entry text Hentry Hcarried.
    apply map_indexed_nth in Hentry as [img [Himg ->]].
    assert (Hoff : match show with Some b => b | None => false end = false)
      by (destruct show as [[|] |]; congruence).
    rewrite Hoff in Hcarried.
    apply (format_image_preview E img (0 + Z.of_nat i) text); [| exact Hcarried].
    exact (forallb_nth _ _ _ _ Hfound Himg).
Qed.

Lemma formatResponse_entries_witness :
  Index.image_count (Index.formatResponse Sample.engine Cases.two_pictures None)
  = Some 2
  /\ index_of (Index.url_entry 2 "https://example.org/b.png") = Some 2
  /\ strlen "data:image/jpeg;base64,QUJD..." <= 103.
Proof.
  destruct (formatResponse_entries Sample.engine Cases.two_pictures None
              [Cases.jpeg_picture; Cases.linked_picture]
              [Index.preview_entry 1 "0KB" "jpeg" "data:image/jpeg;base64,QUJD...";
               Index.url_entry 2 "https://example.org/b.png"]
              eq_refl eq_refl eq_refl) as [Hcount [_ [Hindex Hpreview]]].
  split; [exact Hcount | split].
  - exact (Hindex 1%nat _ eq_refl).
  - apply (Hpreview ltac:(discriminate) 0%nat _ _ eq_refl eq_refl).
Defined.

(** ** The tool as a whole *)

Lemma selectProvider_none this args :
  Server.selectProvider this (option_map Index.provider_tag (Types.provider args)) = None
  <-> unavailable this args = true.
Proof.
  unfold Server.selectProvider, unavailable.
  destruct (Types.provider args) as [[| |] |]; simpl;
    destruct (Gemini.isAvailable (Server.GEMINI_API_KEY this)),
      (OpenRouter.isAvailable (Server.OPENROUTER_API_KEY this));
    simpl; split; intros H; try reflexivity; discriminate H.
Qed.

Lemma selectProvider_has_key this preference selected :
  Server.selectProvider this preference = Some selected ->
  exists key,
    truthy_string key = true
    /\ match selected with
       | Server.geminiProvider => Server.GEMINI_API_KEY this
       | Server.openRouterProvider => Server.OPENROUTER_API_KEY this
       end = Some key.
Proof.
  unfold Server.selectProvider, Gemini.isAvailable, OpenRouter.isAvailable.
  intros H. destruct this as [[g |] [o |]]; simpl in *;
    repeat (match type of H with
            | context [truthy_string ?k] =>
                let Hk := fresh "Hk" in destruct (truthy_string k) eqn:Hk
            | context [match preference with _ => _ end] => destruct preference
            | context [String.eqb ?a ?b] => destruct (String.eqb a b)
            end; simpl in H);
    try discriminate H; injection H as <-; eauto.
Qed.

Lemma generateImage_with_returns W this preference selected args tr :
  Server.selectProvider this preference = Some selected ->
  returns (Index.generateImage_with W this selected args) tr.
Proof.
  intros Hsel. apply selectProvider_has_key in Hsel as [key [Hkey Hthis]].
  unfold Index.generateImage_with. destruct selected; rewrite Hthis.
  - exact (proj1 (Gemini_keeps_failures_inside W key args tr Hkey)).
  - exact (proj1 (OpenRouter_keeps_failures_inside W key args tr Hkey)).
Qed.

Lemma saveImages_thrown W images baseFilename tr e tr' :
  Utils.saveImages W images baseFilename tr = (inl e, tr') ->
  fs_mkdir W tr Utils.outputDir = inl e
  /\ tr' = (tr ++ [DirectoryMade Utils.outputDir])%list.
Proof.
  unfold Utils.saveImages, mkdir. run_eff.
  destruct (fs_mkdir W tr Utils.outputDir) as [e0 | []].
  - now intros [= <- <-].
  - destruct (loop_spec W (List.length images) baseFilename images 0 []
                (tr ++ [DirectoryMade Utils.outputDir])%list)
      as [saved [tr1 [Hloop _]]]; [simpl; lia |].
    rewrite Hloop. discriminate.
Qed.

(** X16. When the provider the request names has no key, or when it names
    none (or [auto]) and neither key is set, the tool throws before anything
    is sent, read or written: a request for a provider without key is not
    passed to the other one. *)
Theorem handleGenerateImage_unavailable (W : World)
    (this : Server.NanoBananaMCPServer) (args : ImageGenerationArgs) (tr : trace) :
  unavailable this args = true ->
  Index.handleGenerateImage W this args tr = (inl no_provider, tr).
Proof.
  intros H. apply selectProvider_none in H.
  unfold Index.handleGenerateImage. now rewrite H.
Qed.

Lemma handleGenerateImage_unavailable_witness :
  Index.handleGenerateImage Sample.serving (server None (Some "key"))
    Cases.asking_gemini []
  = (inl no_provider, []).
Proof.
  apply (handleGenerateImage_unavailable Sample.serving (server None (Some "key"))
           Cases.asking_gemini []).
  reflexivity.
Defined.

(** X17. The tool throws in two cases only: no provider can serve the
    request, and then nothing has happened; or the images were to be saved
    and the directory could not be made, and then what is thrown is the
    error of [mkdir]. Every other failure, of the backend, of the network
    or of writing a file, comes back inside the reply or is logged. *)
Theorem handleGenerateImage_throws_only (W : World)
    (this : Server.NanoBananaMCPServer) (args : ImageGenerationArgs)
    (tr tr' : trace) (e : Error) :
  Index.handleGenerateImage W this args tr = (inl e, tr') ->
  (unavailable this args = true /\ e = no_provider /\ tr' = tr)
  \/ (save_to_file args = Some true
      /\ exists tr0,
           fs_mkdir W tr0 Utils.outputDir = inl e
           /\ tr' = (tr0 ++ [DirectoryMade Utils.outputDir])%list).
Proof.
  unfold Index.handleGenerateImage.
  destruct (Server.selectProvider this
              (option_map Index.provider_tag (Types.provider args)))
    as [selected |] eqn:Hsel.
  - destruct (generateImage_with_returns W this _ selected args tr Hsel)
      as [result [tr1 Hrun]].
    rewrite (bind_returned _ _ _ _ _ Hrun).
    destruct (Index.wants_saving args result) eqn:Hsave.
    + intros H. right. split.
      * unfold Index.wants_saving in Hsave.
        destruct (save_to_file args) as [[|] |]; [reflexivity | |]; discriminate Hsave.
      * destruct (Utils.saveImages W
                    match Result.images result with Some l => l | None => [] end
                    (or_else (filename args) "nanobanana") tr1)
          as [[e0 | saved] tr2] eqn:Hsaved.
        -- rewrite (bind_thrown _ _ _ _ _ (bind_thrown _ _ _ _ _ Hsaved)) in H.
           injection H as <- <-.
           apply saveImages_thrown in Hsaved as [Hmkdir ->]. now exists tr1.
        -- rewrite (bind_returned _ _ _ _ _ (bind_returned _ _ _ _ _ Hsaved)) in H.
           discriminate H.
    + discriminate.
  - intros [= <- <-]. left. split; [now apply selectProvider_none | now split].
Qed.

Lemma handleGenerateImage_throws_only_witness :
  save_to_file Cases.saving = Some true
  /\ fs_mkdir Cases.read_only [Fetched (Gemini.request "key" [text_part "a red circle"])]
       Utils.outputDir
     = inl {| message := "EACCES: permission denied, mkdir 'generated_images'" |}.
Proof.
  destruct (handleGenerateImage_throws_only Cases.read_only (server (Some "key") None)
              Cases.saving []
              [Fetched (Gemini.request "key" [text_part "a red circle"]);
               DirectoryMade Utils.outputDir]
              {| message := "EACCES: permission denied, mkdir 'generated_images'" |}
              eq_refl) as [[Hnone _] | [Hsave _]].
  - discriminate Hnone.
  - split; [exact Hsave | reflexivity].
Defined.

(** ** Sizes *)

Lemma pos_iter_xO (p k : positive) : Z.pos (Pos.iter xO p k) = Z.pos p * 2 ^ Z.pos k.
Proof.
  induction k using Pos.peano_ind.
  - simpl. lia.
  - rewrite Pos.iter_succ, Pos2Z.inj_succ, Z.pow_succ_r by lia.
    rewrite Pos2Z.inj_xO, IHk. lia.
Qed.

Lemma digits2_pos_le_53 (p : positive) :
  Z.pos p < 2 ^ 53 -> Z.pos (digits2_pos p) <= 53.
Proof.
  intros Hp. pose proof (digits2_pos_lower p).
  destruct (Z.le_gt_cases (Z.pos (digits2_pos p)) 53) as [H1 | H1]; [assumption |].
  assert (2 ^ 53 <= 2 ^ (Z.pos (digits2_pos p) - 1)) by (apply Z.pow_le_mono_r; lia).
  lia.
Qed.

(** The normal form of an integer below 2^53: 53 digits, and an exponent
    between -52 and 0 that scales them back. *)
Lemma normal_form_spec (p : positive) :
  Z.pos p < 2 ^ 53 ->
  Z.pos (digits2_pos (fst (normal_form p))) = 53
  /\ -52 <= snd (normal_form p) <= 0
  /\ Z.pos (fst (normal_form p)) = Z.pos p * 2 ^ (- snd (normal_form p)).
Proof.
  intros Hp. pose proof (digits2_pos_le_53 p Hp) as Hd.
  unfold normal_form, shl_align.
  remember (Z.pos (digits2_pos p) - 53) as e0 eqn:He0.
  destruct (Z.sub e0 0) as [| k | k] eqn:Hk; cbn [fst snd].
  - split; [lia | split; [lia |]]. simpl. lia.
  - lia.
  - rewrite digits2_pos_iter, pos_iter_xO.
    split; [lia | split; [lia |]].
    replace (- e0) with (Z.pos k) by lia. reflexivity.
Qed.

Lemma div_eucl_exact (a b q : Z) : 0 < b -> a = q * b -> Z.div_eucl a b = (q, 0).
Proof.
  intros Hb ->. pose proof (Z.div_mul q b ltac:(lia)) as Hq.
  pose proof (Z.mod_mul q b ltac:(lia)) as Hr.
  unfold Z.div, Z.modulo in Hq, Hr.
  destruct (Z.div_eucl (q * b) b) as [q' r']. now subst.
Qed.

Lemma SFdiv_by_1024 (m : positive) (e : Z) :
  Z.pos (digits2_pos m) = 53 -> -52 <= e <= 0 ->
  div (S754_finite false m e) (of_Z 1024) = S754_finite false m (e - 10).
Proof.
  intros Hd He.
  change (of_Z 1024) with (S754_finite false 4503599627370496 (-42)).
  unfold div, SFdiv, SFdiv_core_binary.
  change (Zdigits2 (Z.pos m)) with (Z.pos (digits2_pos m)). rewrite Hd.
  change (Zdigits2 (Z.pos 4503599627370496)) with 53.
  replace (Z.min (fexp prec emax (Z.sub (Z.add 53 e) (Z.add 53 (-42))))
             (Z.sub e (-42)))
    with (e - 11) by (unfold fexp, emin, prec, emax; lia).
  replace (Z.sub (Z.sub e (-42)) (e - 11)) with 53 by lia.
  cbv iota.
  rewrite (div_eucl_exact (Z.shiftl (Z.pos m) 53) (Z.pos 4503599627370496)
             (Z.pos m~0)); [| lia | rewrite Z.shiftl_mul_pow2 by lia; lia].
  change (new_location (Z.pos 4503599627370496) 0) with loc_Exact.
  cbv beta iota.
  unfold binary_round_aux, shr_fexp at 1.
  change (Zdigits2 (Z.pos m~0)) with (Z.pos (Pos.succ (digits2_pos m))).
  rewrite Pos2Z.inj_succ, Hd.
  replace (Z.sub (fexp prec emax (Z.add (Z.succ 53) (e - 11))) (e - 11)) with 1
    by (unfold fexp, emin, prec, emax; lia).
  cbn [shr shr_record_of_loc iter_pos shr_1 shr_m loc_of_shr_record
       round_nearest_even orb].
  unfold prec, emax. rewrite shr_fexp_exact by lia. cbn [shr_m].
  replace (Z.add (e - 11) 1) with (e - 10) by lia.
  destruct (Z.leb_spec (e - 10) (Z.sub 1024 53)); [reflexivity | lia].
Qed.

Lemma to_Z_of_Z (p : positive) : Z.pos p < 2 ^ 53 ->
  to_Z (of_Z (Z.pos p)) = Some (Z.pos p).
Proof.
  intros Hp. rewrite of_Z_small by assumption.
  destruct (normal_form_spec p Hp) as [_ [He Hm]].
  unfold to_Z. rewrite Hm.
  destruct (Z.leb_spec 0 (snd (normal_form p))).
  - replace (snd (normal_form p)) with 0 by lia. simpl. f_equal. lia.
  - rewrite Z.mod_mul by (apply Z.pow_nonzero; lia).
    rewrite Z.eqb_refl, Z.div_mul by (apply Z.pow_nonzero; lia). reflexivity.
Qed.

Lemma Number_toString_of_Z (E : Engine) (p : positive) :
  Z.pos p < 2 ^ 53 -> Number_toString E (of_Z (Z.pos p)) = digits_of_Z (Z.pos p).
Proof.
  intros Hp. unfold Number_toString. rewrite to_Z_of_Z by assumption.
  rewrite of_Z_small by assumption.
  destruct (Z.ltb_spec (Z.abs (Z.pos p)) (10 ^ 21)); [reflexivity |].
  assert (2 ^ 53 < 10 ^ 21) by reflexivity. lia.
Qed.

(** X18. The size shown for an image is the length of its text divided by
    1024 and rounded to the nearest integer, halves upwards, in decimal
    digits followed by [KB]: for every text shorter than 2^53 characters the
    floating-point computation is exact, and the same in every engine. *)
Theorem formatImageSize_spec (E : Engine) (data : string) :
  strlen data < 2 ^ 53 ->
  Index.formatImageSize E data
  = digits_of_Z ((2 * strlen data + 1024) / 2048) ++ "KB".
Proof.
  intros Hlen. unfold Index.formatImageSize. f_equal.
  destruct (strlen data) as [| p | p] eqn:Hp;
    [reflexivity | | unfold strlen in Hp; lia].
  rewrite of_Z_small by assumption.
  destruct (normal_form_spec p Hlen) as [Hd [He Hm]].
  rewrite SFdiv_by_1024 by assumption.
  set (e := snd (normal_form p)) in *. set (m := fst (normal_form p)) in *.
  unfold Math_round.
  destruct (Z.leb_spec 0 (e - 10)); [lia |].
  assert (Hr : (2 * Z.pos m + 2 ^ (- (e - 10))) / 2 ^ (1 - (e - 10))
               = (2 * Z.pos p + 1024) / 2048).
  { rewrite Hm.
    replace (- (e - 10)) with (10 + - e) by lia.
    replace (1 - (e - 10)) with (11 + - e) by lia.
    rewrite !Z.pow_add_r by lia.
    replace (2 * (Z.pos p * 2 ^ (- e)) + 2 ^ 10 * 2 ^ (- e))
      with ((2 * Z.pos p + 1024) * 2 ^ (- e)) by (change (2 ^ 10) with 1024; lia).
    change (2 ^ 11) with 2048.
    apply Z.div_mul_cancel_r; [lia | apply Z.pow_nonzero; lia]. }
  rewrite Hr.
  assert (Hbound : 0 <= (2 * Z.pos p + 1024) / 2048 < 2 ^ 53).
  { split; [apply Z.div_pos; lia |].
    apply Z.div_lt_upper_bound; [lia |].
    assert (2 ^ 53 = 9007199254740992) by reflexivity. lia. }
  destruct ((2 * Z.pos p + 1024) / 2048) as [| r | r] eqn:Hq;
    [reflexivity | | lia].
  change (Z.pos r =? 0) with false. cbv iota.
  apply Number_toString_of_Z. lia.
Qed.

Lemma formatImageSize_spec_witness :
  Index.formatImageSize Sample.engine "data:image/jpeg;base64,QUJD" = "0KB".
Proof.
  apply (formatImageSize_spec Sample.engine "data:image/jpeg;base64,QUJD").
  unfold strlen. simpl String.length. lia.
Defined.

(** ** The canvas a ratio resolves to *)

Lemma get_cases {T} (obj : list (string * T)) (key : string) :
  match get obj key with
  | Own v => In (key, v) obj
  | Inherited k => k = key /\ In key Object_prototype_keys
  | Absent => True
  end.
Proof.
  unfold get. destruct (own_property obj key) as [v |] eqn:Hown.
  - induction obj as [| [k w] obj IH]; simpl in Hown; [discriminate |].
    destruct (String.eqb k key) eqn:Hk.
    + apply String.eqb_eq in Hk as ->. injection Hown as ->. now left.
    + right. now apply IH.
  - destruct (existsb (String.eqb key) Object_prototype_keys) eqn:Hin; [| exact I].
    split; [reflexivity |].
    apply existsb_exists in Hin as [k [Hk Heq]].
    now apply String.eqb_eq in Heq as ->.
Qed.

(** X19. Whatever the token, the resolver gives [null], a member every
    object inherits, or a descriptor one side of which is 1024: a row of
    the table under its name, or, for a token of the form digits, colon,
    digits that the table does not have, a descriptor named by the token as
    it was written. *)
Theorem parseAspectRatio_shape (ratio : option string) :
  match parseAspectRatio ratio with
  | None => True
  | Some (Member key) => In key Object_prototype_keys
  | Some (Config c) =>
      has_side_1024 c = true
      /\ (In (name c) table_names
          \/ (ratio = Some (name c) /\ match_ratio (name c) <> None
              /\ get ASPECT_RATIOS (trim (toLowerCase (name c))) = Absent))
  end.
Proof.
  unfold parseAspectRatio. destruct ratio as [ratio |]; [| exact I].
  destruct (negb (truthy_string ratio)); [exact I |].
  pose proof (get_cases ASPECT_RATIOS (trim (toLowerCase ratio))) as Hget.
  destruct (get ASPECT_RATIOS (trim (toLowerCase ratio))) as [c | key |] eqn:Hlook.
  - generalize dependent (trim (toLowerCase ratio)). intros key _ Hin.
    simpl in Hin.
    repeat (destruct Hin as [Hin | Hin];
            [injection Hin as _ <-; split; [reflexivity | left; simpl; tauto] |]).
    destruct Hin.
  - now destruct Hget as [-> Hin].
  - destruct (match_ratio ratio) as [[m1 m2] |] eqn:Hmatch; [| exact I].
    destruct (ge (div (parseInt_digits m1) (parseInt_digits m2)) (of_Z 1));
      (split; [| right; simpl; rewrite Hmatch; repeat split; [discriminate | assumption]]).
    + reflexivity.
    + unfold has_side_1024. cbn [width height].
      change (is_integer (of_Z 1024) 1024) with true. apply orb_true_r.
Qed.


Lemma match_ratio_starts_with_digit (ratio m1 m2 : string) :
  match_ratio ratio = Some (m1, m2) ->
  exists c rest, ratio = String c rest /\ is_digit c = true.
Proof.
  unfold match_ratio.
  destruct (split_first ":" ratio) as [[a b] |] eqn:Hsplit; [| discriminate].
  destruct (truthy_string a && all_chars is_digit a
            && truthy_string b && all_chars is_digit b) eqn:Hok; [| discriminate].
  intros _. apply andb_prop in Hok as [Hok _]. apply andb_prop in Hok as [Hok _].
  apply andb_prop in Hok as [Ha Hdigits].
  destruct ratio as [| c rest]; [discriminate |].
  exists c, rest. split; [reflexivity |].
  simpl in Hsplit. destruct (Ascii.eqb c ":").
  - injection Hsplit as <- _. discriminate Ha.
  - destruct (split_first ":" rest) as [[a' b'] |]; [| discriminate].
    injection Hsplit as <- _. simpl in Hdigits.
    now apply andb_prop in Hdigits as [Hc _].
Qed.

Lemma digit_is_not (c k : ascii) :
  is_digit c = true -> is_digit k = false -> Ascii.eqb c k = false.
Proof.
  intros Hc Hk. destruct (Ascii.eqb c k) eqn:Heq; [| reflexivity].
  apply Ascii.eqb_eq in Heq as ->. congruence.
Qed.

Lemma eqb_digit_head (c k : ascii) (s t : string) :
  is_digit c = true -> is_digit k = false ->
  String.eqb (String c s) (String k t) = false
  /\ String.eqb (String k t) (String c s) = false.
Proof.
  intros Hc Hk. pose proof (digit_is_not c k Hc Hk) as Hne.
  cbn [String.eqb]. now rewrite (Ascii.eqb_sym k c), Hne.
Qed.

Lemma get_descriptions_of_ratio (c : ascii) (rest : string) :
  is_digit c = true -> get descriptions (String c rest) = Absent.
Proof.
  intros Hc. unfold get, descriptions, Object_prototype_keys.
  cbn [own_property existsb].
  repeat match goal with
         | |- context [String.eqb (String c rest) (String ?k ?t)] =>
             rewrite (proj1 (eqb_digit_head c k rest t Hc eq_refl))
         | |- context [String.eqb (String ?k ?t) (String c rest)] =>
             rewrite (proj2 (eqb_digit_head c k rest t Hc eq_refl))
         end.
  reflexivity.
Qed.

(** X20. For a descriptor the resolver returns, the description put into
    the prompt is the phrase of the table of descriptions when the name of
    the descriptor is in it, and [<width>x<height> aspect ratio] otherwise,
    as for the rows [4:3] and [3:4] and for every custom ratio: the name of
    such a descriptor is never one that the table inherits. *)
Theorem getAspectRatioPrompt_resolved (E : Engine) (ratio : option string)
    (c : AspectRatioConfig) :
  parseAspectRatio ratio = Some (Config c) ->
  getAspectRatioPrompt E (Config c)
  = match own_property descriptions (name c) with
    | Some description => description
    | None =>
        Number_toString E (width c) ++ "x" ++ Number_toString E (height c)
        ++ " aspect ratio"
    end.
Proof.
  unfold parseAspectRatio. destruct ratio as [ratio |]; [| discriminate].
  destruct (negb (truthy_string ratio)); [discriminate |].
  pose proof (get_cases ASPECT_RATIOS (trim (toLowerCase ratio))) as Hget.
  destruct (get ASPECT_RATIOS (trim (toLowerCase ratio))) as [row | key |].
  - intros [= <-]. generalize dependent (trim (toLowerCase ratio)). intros key Hin.
    simpl in Hin.
    repeat (destruct Hin as [Hin | Hin]; [injection Hin as _ <-; reflexivity |]).
    destruct Hin.
  - discriminate.
  - destruct (match_ratio ratio) as [[m1 m2] |] eqn:Hmatch; [| discriminate].
    destruct (match_ratio_starts_with_digit ratio m1 m2 Hmatch)
      as [d [rest [-> Hd]]].
    pose proof (get_descriptions_of_ratio d rest Hd) as Habsent.
    assert (Hown : own_property descriptions (String d rest) = None).
    { unfold get in Habsent.
      now destruct (own_property descriptions (String d rest)). }
    destruct (ge (div (parseInt_digits m1) (parseInt_digits m2)) (of_Z 1));
      intros [= <-]; unfold getAspectRatioPrompt;
      cbn [name_of name to_key width_of height_of width height show_dimension];
      now rewrite Habsent, Hown.
Qed.

Lemma getAspectRatioPrompt_resolved_witness :
  option_map (getAspectRatioPrompt Sample.engine) (parseAspectRatio (Some "3:2"))
  = Some "1024x683 aspect ratio"
  /\ option_map (getAspectRatioPrompt Sample.engine) (parseAspectRatio (Some "4:3"))
     = Some "1024x768 aspect ratio".
Proof.
  split.
  - refine (eq_trans
              (f_equal Some
                 (getAspectRatioPrompt_resolved Sample.engine (Some "3:2") _ eq_refl)) _).
    reflexivity.
  - refine (eq_trans
              (f_equal Some
                 (getAspectRatioPrompt_resolved Sample.engine (Some "4:3") _ eq_refl)) _).
    reflexivity.
Defined.

(** ** The files a call leaves behind *)

Lemma keeps_files_quiet {A} (m : M A) : quiet m -> keeps_files m.
Proof. intros Hq tr. now rewrite (Hq tr). Qed.

Lemma keeps_files_bind {A B} (m : M A) (k : A -> M B) :
  keeps_files m -> (forall a, keeps_files (k a)) -> keeps_files (bind m k).
Proof.
  intros Hm Hk tr. unfold bind. specialize (Hm tr).
  destruct (m tr) as [[e | a] tr1]; simpl in Hm; [exact Hm |].
  now rewrite Hk.
Qed.

Lemma keeps_files_try_catch {A} (m : M A) (handler : Error -> M A) :
  keeps_files m -> (forall e, keeps_files (handler e)) ->
  keeps_files (try_catch m handler).
Proof.
  intros Hm Hh tr. unfold try_catch. specialize (Hm tr).
  destruct (m tr) as [[e | a] tr1]; simpl in Hm; [| exact Hm].
  now rewrite Hh.
Qed.

Lemma keeps_files_for_of {A S} (items : list A) (body : S -> A -> M S) :
  (forall s x, keeps_files (body s x)) ->
  forall s, keeps_files (Provider.for_of items body s).
Proof.
  intros Hbody. induction items as [| x rest IH]; intros s; simpl.
  - apply keeps_files_quiet, quiet_ret.
  - apply keeps_files_bind; [apply Hbody | intros s'; apply IH].
Qed.

Lemma keeps_files_emit (ev : event) :
  (forall p b, ev <> FileWritten p b true) -> keeps_files (emit ev).
Proof. intros Hev tr. simpl. now apply written_snoc_other. Qed.

Lemma keeps_files_history : keeps_files history.
Proof. now intros tr. Qed.

Ltac keep_files :=
  repeat first
    [ apply keeps_files_bind; [| intros ?]
    | apply keeps_files_try_catch; [| intros ?]
    | apply keeps_files_for_of; intros ? ?
    | apply keeps_files_history
    | apply keeps_files_emit; discriminate
    | apply keeps_files_quiet; solve [be_quiet]
    | match goal with
      | |- keeps_files (if ?b then _ else _) => destruct b
      | |- keeps_files (match ?x with _ => _ end) => destruct x
      end ].

Lemma Gemini_generateImage_keeps_files W key args :
  keeps_files (Gemini.generateImage W key args).
Proof.
  unfold Gemini.generateImage, Gemini.attempt, Gemini.build_parts,
    Gemini.push_reference, Gemini.fetchImageAsBase64, Gemini.generateLargeBlankImage,
    Provider.generateLargeBlankImage, fetch, readImageFileAsBase64, console_error.
  keep_files.
Qed.

Lemma OpenRouter_generateImage_keeps_files W key args :
  keeps_files (OpenRouter.generateImage W key args).
Proof.
  unfold OpenRouter.generateImage, OpenRouter.attempt, OpenRouter.build_content,
    OpenRouter.generateLargeBlankImage, Provider.generateLargeBlankImage, fetch,
    console_error.
  keep_files.
Qed.

Lemma Gemini_generateImage_not_saved W key args tr r tr' :
  Gemini.generateImage W key args tr = (inr r, tr') -> Result.saved_files r = None.
Proof.
  unfold Gemini.generateImage. intros H.
  destruct key as [key |]; [| discriminate H].
  destruct (truthy_string key); [| discriminate H].
  unfold try_catch in H.
  destruct (Gemini.attempt W key args tr) as [[e | r0] tr0] eqn:Hrun.
  - now injection H as <- <-.
  - injection H as <- <-. unfold Gemini.attempt in Hrun. do 2 inv_bind Hrun.
    now apply Gemini_read_response_returned in Hrun as [[_ [_ [Hsaved _]]] _].
Qed.

Lemma OpenRouter_generateImage_not_saved W key args tr r tr' :
  OpenRouter.generateImage W key args tr = (inr r, tr') -> Result.saved_files r = None.
Proof.
  unfold OpenRouter.generateImage. intros H.
  destruct key as [key |]; [| discriminate H].
  destruct (truthy_string key); [| discriminate H].
  unfold try_catch in H.
  destruct (OpenRouter.attempt W key args tr) as [[e | r0] tr0] eqn:Hrun.
  - now injection H as <- <-.
  - injection H as <- <-. unfold OpenRouter.attempt in Hrun. do 2 inv_bind Hrun.
    now apply OpenRouter_read_response_returned in Hrun as [[_ [_ [Hsaved _]]] _].
Qed.

Lemma saveImages_returned W images baseFilename tr saved tr' :
  Utils.saveImages W images baseFilename tr = (inr saved, tr') ->
  written tr' = (written tr ++ saved)%list.
Proof.
  unfold Utils.saveImages, mkdir. run_eff.
  destruct (fs_mkdir W tr Utils.outputDir) as [e0 | []]; [discriminate |].
  destruct (loop_spec W (List.length images) baseFilename images 0 []
              (tr ++ [DirectoryMade Utils.outputDir])%list)
    as [files [tr1 [Hloop [Hw _]]]]; [simpl; lia |].
  rewrite Hloop. intros [= <- <-]. rewrite Hw, written_app. simpl.
  now rewrite app_nil_r.
Qed.

(** X21. The reply lists exactly the files the call has written: what
    [saved_files] holds are the paths written during the call, in their
    order, and the field is missing when none was written. Files are
    written only for a request with [save_to_file] that succeeded. *)
Theorem handleGenerateImage_saved_files (W : World)
    (this : Server.NanoBananaMCPServer) (args : ImageGenerationArgs)
    (tr tr' : trace) (reply : Index.Response) :
  Index.handleGenerateImage W this args tr = (inr reply, tr') ->
  written tr' = (written tr ++ listed_files reply)%list
  /\ (Index.saved_files reply = Some [] -> False)
  /\ (listed_files reply <> [] ->
      save_to_file args = Some true /\ Index.success reply = true).
Proof.
  unfold Index.handleGenerateImage.
  destruct (Server.selectProvider this
              (option_map Index.provider_tag (Types.provider args)))
    as [selected |]; [| discriminate].
  intros H. inv_bind H.
  assert (Hkept : written tr0 = written tr /\ Result.saved_files a = None).
  { unfold Index.generateImage_with in Hm. destruct selected.
    - split; [| exact (Gemini_generateImage_not_saved _ _ _ _ _ _ Hm)].
      pose proof (Gemini_generateImage_keeps_files W
                    (Server.GEMINI_API_KEY this) args tr) as Hk.
      now rewrite Hm in Hk.
    - split; [| exact (OpenRouter_generateImage_not_saved _ _ _ _ _ _ Hm)].
      pose proof (OpenRouter_generateImage_keeps_files W
                    (Server.OPENROUTER_API_KEY this) args tr) as Hk.
      now rewrite Hm in Hk. }
  destruct Hkept as [Hwritten Hnone].
  inv_bind H. injection H as <- <-.
  destruct (Index.wants_saving args a) eqn:Hsave.
  - inv_bind Hm0. injection Hm0 as <- <-.
    apply saveImages_returned in Hm1. rewrite Hm1, Hwritten.
    unfold listed_files, Index.formatResponse, Index.with_saved_files.
    cbn [Index.saved_files Index.success Result.saved_files Result.success].
    unfold Index.wants_saving in Hsave.
    apply andb_prop in Hsave as [Hsave _]. apply andb_prop in Hsave as [Hflag Hok].
    destruct a1 as [| file files]; cbn [Index.nonempty].
    + rewrite app_nil_r. split; [reflexivity | split; [discriminate | congruence]].
    + split; [reflexivity | split; [discriminate |]]. intros _.
      split; [| exact Hok].
      destruct (save_to_file args) as [[|] |]; [reflexivity | |]; discriminate Hflag.
  - injection Hm0 as <- <-.
    unfold listed_files, Index.formatResponse.
    cbn [Index.saved_files]. rewrite Hnone. cbn [Index.nonempty].
    rewrite app_nil_r. split; [exact Hwritten | split; [discriminate | congruence]].
Qed.

Lemma handleGenerateImage_saved_files_witness :
  exists reply tr',
    Index.handleGenerateImage (Sample.replying Cases.drawn) (server (Some "key") None)
      Cases.saving []
    = (inr reply, tr')
    /\ written tr' = listed_files reply
    /\ listed_files reply
       = ["generated_images/nanobanana_2025-01-01T10-20-30-456Z.jpeg"].
Proof.
  destruct (Index.handleGenerateImage (Sample.replying Cases.drawn)
              (server (Some "key") None) Cases.saving [])
    as [[e | reply] tr'] eqn:Hrun; [vm_compute in Hrun; discriminate Hrun |].
  exists reply, tr'. split; [reflexivity |].
  split.
  - exact (proj1 (handleGenerateImage_saved_files _ _ _ _ _ _ Hrun)).
  - vm_compute in Hrun. now injection Hrun as <- <-.
Defined.
